(** * Eco tree manager: a shallow embedding of [lib/eco/treemanager.py]

    The editor core keeps a mutable chain of token nodes, a line index, a
    cursor and an undo log.  Python objects live in an explicit object
    store ([Heap]); object identity is equality of store indices.  Loops
    ([while]) take a fuel argument; running out of fuel is reported as
    [OutOfFuel], a Python exception as its own constructor. *)

From Stdlib Require Import ZArith Lia Bool Ascii String.
From stdpp Require Import base list strings.

#[local] Open Scope Z_scope.

(** ** Python values and exceptions *)

Module Py.

Inductive exn : Set :=
| IndexError | AttributeError | AssertionError | TypeError | NameError
| OutOfFuel.

Inductive res (A : Type) : Type :=
| Ok (a : A)
| Raise (e : exn).
Arguments Ok {A} a.
Arguments Raise {A} e.

Definition bind {A B} (m : res A) (k : A -> res B) : res B :=
  match m with
  | Ok a => k a
  | Raise e => Raise e
  end.

(** [len(s)] *)
Definition len (s : string) : Z := Z.of_nat (String.length s).

(** The line break of the editor, ["\r"]. *)
Definition CR : ascii := Ascii.ascii_of_nat 13.
Definition cr : string := String CR EmptyString.

(** [str(s).startswith("\r")] *)
Definition startswith_cr (s : string) : bool :=
  match s with
  | String c _ => Ascii.eqb c CR
  | EmptyString => false
  end.

(** [" " * n] *)
Fixpoint spaces (n : nat) : string :=
  match n with
  | O => EmptyString
  | S k => String " " (spaces k)
  end.

(** Start index of a slice [l[i:]] of a sequence of length [n]: a
    negative index counts from the end, and both ends are clamped. *)
Definition slice_index (n : nat) (i : Z) : nat :=
  if i <? 0 then Z.to_nat (Z.max 0 (Z.of_nat n + i))
  else Z.to_nat (Z.min i (Z.of_nat n)).

(** [l[i]] with Python's negative indices and [IndexError]. *)
Definition index {A} (l : list A) (i : Z) : res A :=
  let j := if i <? 0 then Z.of_nat (length l) + i else i in
  if j <? 0 then Raise IndexError
  else match l !! Z.to_nat j with
       | Some a => Ok a
       | None => Raise IndexError
       end.

(** [l[i] = a] when [l[i]] exists. *)
Definition set_index {A} (l : list A) (i : Z) (a : A) : list A :=
  let j := if i <? 0 then Z.of_nat (length l) + i else i in
  if j <? 0 then l else <[Z.to_nat j := a]> l.

(** [s[:i]] and [s[i:]] on strings, for [0 <= i]. *)
Definition str_to (s : string) (i : Z) : string :=
  String.substring 0 (slice_index (String.length s) i) s.
Definition str_from (s : string) (i : Z) : string :=
  let k := slice_index (String.length s) i in
  String.substring k (String.length s - k) s.

(** Python 2 orders [None] below every integer. *)
Definition lt2 (a b : option Z) : bool :=
  match a, b with
  | None, None => false
  | None, Some _ => true
  | Some _, None => false
  | Some x, Some y => x <? y
  end.
Definition eq2 (a b : option Z) : bool :=
  match a, b with
  | None, None => true
  | Some x, Some y => x =? y
  | _, _ => false
  end.
Definition gt2 (a b : option Z) : bool := lt2 b a.
Definition le2 (a b : option Z) : bool := negb (lt2 b a).

End Py.

Import Py.

Notation "'let*' x := e 'in' k" := (Py.bind e (fun x => k))
  (at level 10, x name, e at level 100, k at level 200).
Notation "'let*' ' p := e 'in' k" := (Py.bind e (fun p => k))
  (at level 10, p strict pattern, e at level 100, k at level 200).

(** ** class UndoObject, class UndoManager (add, finish) *)

Module UndoManager.

(** The two command kinds the edit engine logs: ['insert'], ["delete"]. *)
Inductive Cmd : Set := CmdInsert | CmdDelete.

(** [self.mode] is ["new"] or the kind of the entry being extended. *)
Inductive Mode : Set := ModeNew | ModeCmd (c : Cmd).

Definition Cmd_eqb (a b : Cmd) : bool :=
  match a, b with
  | CmdInsert, CmdInsert | CmdDelete, CmdDelete => true
  | _, _ => false
  end.

(** [self.mode != cmd] *)
Definition mode_ne (m : Mode) (c : Cmd) : bool :=
  match m with
  | ModeNew => true
  | ModeCmd c' => negb (Cmd_eqb c' c)
  end.

Record UndoObject : Set := mkUndoObject {
  cmd : Cmd;
  text : string;
  x1 : Z;
  line1 : Z;
  x2 : Z;
  line2 : Z;
}.

(** [UndoObject.__init__(cmd, text, x, line)] *)
Definition UndoObject_init (c : Cmd) (txt : string) (x line : Z) : UndoObject :=
  {| cmd := c; text := txt; x1 := x; line1 := line;
     x2 := Py.len txt; line2 := line |}.

Record t : Set := mk {
  stack : list UndoObject;
  pos : Z;
  mode : Mode;
}.

(** [UndoManager.__init__] *)
Definition init : t := {| stack := []; pos := -1; mode := ModeNew |}.

(** [text == " " or str(text).startswith("\r")] *)
Definition interrupts (txt : string) : bool :=
  String.eqb txt " " || Py.startswith_cr txt.

(** The branch [if self.mode != cmd]: drop the redo tail, push a fresh
    entry.  [x] is [cursor.get_x()], [line] is [cursor.line]. *)
Definition new_entry (c : Cmd) (txt : string) (x line : Z) : UndoObject :=
  let x0 := match c with
            | CmdInsert => x - Py.len txt
            | CmdDelete => x + Py.len txt
            end in
  UndoObject_init c txt x0 line.

Definition add_new (c : Cmd) (txt : string) (x line : Z) (um : t) : t :=
  let stack1 := take (Py.slice_index (length (stack um)) (pos um + 1)) (stack um) in
  {| stack := stack1 ++ [new_entry c txt x line];
     pos := pos um + 1;
     mode := ModeCmd c |}.

(** [uo.text += text; uo.x2 = cursor.get_x(); uo.line2 = cursor.line] *)
Definition extend (uo : UndoObject) (txt : string) (x line : Z) : UndoObject :=
  {| cmd := cmd uo; text := String.append (text uo) txt;
     x1 := x1 uo; line1 := line1 uo; x2 := x; line2 := line |}.

(** The [else] branch: [uo = self.stack[-1]] is extended in place. *)
Definition add_coalesce (txt : string) (x line : Z) (um : t) : res UndoManager.t :=
  let* uo := Py.index (stack um) (-1) in
  Ok {| stack := Py.set_index (stack um) (-1) (extend uo txt x line);
        pos := pos um; mode := mode um |}.

(** [if len(self.stack) > 100: del self.stack[0]; self.pos -= 1] *)
Definition keep_small (um : t) : t :=
  if 100 <? Z.of_nat (length (stack um))
  then {| stack := drop 1 (stack um); pos := pos um - 1; mode := mode um |}
  else um.

(** [UndoManager.add(cmd, text, cursor)] *)
Definition add (c : Cmd) (txt : string) (x line : Z) (um : t) : res UndoManager.t :=
  let um0 := if interrupts txt
             then {| stack := stack um; pos := pos um; mode := ModeNew |}
             else um in
  let* um1 := (if mode_ne (mode um0) c
               then Ok (add_new c txt x line um0)
               else add_coalesce txt x line um0) in
  Ok (keep_small um1).

(** [UndoManager.finish] *)
Definition finish (um : t) : t :=
  {| stack := stack um; pos := pos um; mode := ModeNew |}.

(** [self.pos -= 1] of [undo] and [self.pos += 1] of [redo]. *)
Definition step_back (um : t) : t :=
  {| stack := stack um; pos := pos um - 1; mode := mode um |}.
Definition step_forward (um : t) : t :=
  {| stack := stack um; pos := pos um + 1; mode := mode um |}.

(** The states of the manager that its methods produce from a fresh
    one.  [undo] replays an entry (which may log further edits, each an
    [add]), moves the position back and ends the burst; [redo] moves
    the position forward when an entry follows. *)
Inductive reachable : t -> Prop :=
| reach_init : reachable init
| reach_add um c txt x line um' :
    reachable um -> add c txt x line um = Ok um' -> reachable um'
| reach_finish um :
    reachable um -> reachable (finish um)
| reach_undo um :
    reachable um -> 0 <= pos um -> reachable (finish (step_back um))
| reach_redo um :
    reachable um -> pos um + 1 < Z.of_nat (length (stack um)) ->
    reachable (step_forward um).

(** What holds of every reachable manager. *)
Definition wf (um : t) : Prop :=
  (length (stack um) <= 100)%nat
  /\ -1 <= pos um < Z.of_nat (length (stack um))
  /\ (mode um <> ModeNew -> 0 <= pos um /\ pos um = Z.of_nat (length (stack um)) - 1).

End UndoManager.

(** ** The node store (module incparser.astree, grammar_parser.gparser)

    The tree classes are imported by [treemanager.py]; what they offer is
    taken from the data model of the specification: a node has a text, a
    tag, links to the previous and next node of its chain and an owning
    root; a root has its two sentinels and a back-pointer to the boundary
    node that embeds it. *)

Module astree.

Definition NodeId : Set := nat.
Definition RootId : Set := nat.

(** [isinstance(node, BOS)], [isinstance(node, EOS)], otherwise a
    [TextNode]. *)
Inductive NodeClass : Set := TextNode | BOS | EOS.

(** The class of [node.symbol]. *)
Inductive SymbolClass : Set := Terminal | MagicTerminal | IndentationTerminal.

(** [node.symbol]: its class, [symbol.name], and for a [MagicTerminal]
    the nested root [symbol.ast] (which is also [symbol.parser]). *)
Record Symbol : Set := mkSymbol {
  sclass : SymbolClass;
  name : string;
  ast : option RootId;
}.

Record Node : Set := mkNode {
  nclass : NodeClass;
  symbol : Symbol;
  next_term : option NodeId;
  prev_term : option NodeId;
  parent : option RootId;      (* the root reached by [get_root()] *)
  lookup : string;
  image : bool;                (* [node.image is not None] *)
  plain_mode : bool;
  deleted : bool;
}.

(** A root: [children[0]], [children[-1]] and [magic_backpointer]. *)
Record Root : Set := mkRoot {
  bos : NodeId;
  eos : NodeId;
  magic_backpointer : option NodeId;
}.

Record Heap : Set := mkHeap {
  nodes : list Node;
  roots : list Root;
}.

Definition SymbolClass_eqb (a b : SymbolClass) : bool :=
  match a, b with
  | Terminal, Terminal | MagicTerminal, MagicTerminal
  | IndentationTerminal, IndentationTerminal => true
  | _, _ => false
  end.

Definition is_BOS (n : Node) : bool :=
  match nclass n with BOS => true | _ => false end.
Definition is_EOS (n : Node) : bool :=
  match nclass n with EOS => true | _ => false end.
Definition is_Magic (n : Node) : bool :=
  SymbolClass_eqb (sclass (symbol n)) MagicTerminal.
Definition is_Indentation (n : Node) : bool :=
  SymbolClass_eqb (sclass (symbol n)) IndentationTerminal.

(** [node.symbol.name == "\r"] *)
Definition is_return (n : Node) : bool := String.eqb (name (symbol n)) Py.cr.

(** Using a reference: [None.attr] raises [AttributeError]. *)
Definition deref (o : option NodeId) : res NodeId :=
  match o with
  | Some i => Ok i
  | None => Raise AttributeError
  end.

Definition get (h : Heap) (i : NodeId) : res Node :=
  match nodes h !! i with
  | Some n => Ok n
  | None => Raise AttributeError
  end.

Definition get_root_rec (h : Heap) (r : RootId) : res Root :=
  match roots h !! r with
  | Some x => Ok x
  | None => Raise AttributeError
  end.

Definition set_node (h : Heap) (i : NodeId) (n : Node) : Heap :=
  {| nodes := <[i := n]> (nodes h); roots := roots h |}.

Definition with_name (n : Node) (s : string) : Node :=
  {| nclass := nclass n;
     symbol := {| sclass := sclass (symbol n); name := s; ast := ast (symbol n) |};
     next_term := next_term n; prev_term := prev_term n; parent := parent n;
     lookup := lookup n; image := image n; plain_mode := plain_mode n;
     deleted := deleted n |}.

Definition with_next (n : Node) (o : option NodeId) : Node :=
  {| nclass := nclass n; symbol := symbol n;
     next_term := o; prev_term := prev_term n; parent := parent n;
     lookup := lookup n; image := image n; plain_mode := plain_mode n;
     deleted := deleted n |}.

Definition with_prev (n : Node) (o : option NodeId) : Node :=
  {| nclass := nclass n; symbol := symbol n;
     next_term := next_term n; prev_term := o; parent := parent n;
     lookup := lookup n; image := image n; plain_mode := plain_mode n;
     deleted := deleted n |}.

Definition with_deleted (n : Node) : Node :=
  {| nclass := nclass n; symbol := symbol n;
     next_term := next_term n; prev_term := prev_term n; parent := parent n;
     lookup := lookup n; image := image n; plain_mode := plain_mode n;
     deleted := true |}.

Definition with_plain_mode (n : Node) (b : bool) : Node :=
  {| nclass := nclass n; symbol := symbol n;
     next_term := next_term n; prev_term := prev_term n; parent := parent n;
     lookup := lookup n; image := image n; plain_mode := b;
     deleted := deleted n |}.

(** [TextNode(symbol)], not yet linked. *)
Definition new_TextNode (s : Symbol) : Node :=
  {| nclass := TextNode; symbol := s; next_term := None; prev_term := None;
     parent := None; lookup := ""; image := false; plain_mode := false;
     deleted := false |}.

(** Modelled from the spec: [node.get_root()] of the absent tree
    classes, the owning root of a node. *)
Definition get_root (h : Heap) (i : NodeId) : res RootId :=
  let* n := get h i in
  match parent n with
  | Some r => Ok r
  | None => Raise AttributeError
  end.

(** Modelled from the spec: [root.get_magicterminal()] of the absent
    tree classes, the back-pointer to the embedding boundary node. *)
Definition get_magicterminal (h : Heap) (r : RootId) : res (option NodeId) :=
  let* x := get_root_rec h r in
  Ok (magic_backpointer x).

(** [root.children[0]] and [root.children[-1]]: the two sentinels. *)
Definition children_first (h : Heap) (r : RootId) : res NodeId :=
  let* x := get_root_rec h r in Ok (bos x).
Definition children_last (h : Heap) (r : RootId) : res NodeId :=
  let* x := get_root_rec h r in Ok (eos x).

(** Modelled from the spec: [node.next_terminal()] and
    [node.previous_terminal()] of the absent tree classes, the
    neighbours in the node chain. *)
Definition next_terminal (h : Heap) (i : NodeId) : res (option NodeId) :=
  let* n := get h i in Ok (next_term n).
Definition previous_terminal (h : Heap) (i : NodeId) : res (option NodeId) :=
  let* n := get h i in Ok (prev_term n).

(** Creating a node object: it gets the next free place of the store. *)
Definition alloc (h : Heap) (n : Node) : Heap * NodeId :=
  ({| nodes := nodes h ++ [n]; roots := roots h |}, length (nodes h)).

(** Modelled from the spec: [node.insert_after(newnode)] of the absent
    tree classes.  The node [j] is linked between [i] and the successor
    of [i], and is owned by the root of [i]. *)
Definition insert_after (h : Heap) (i j : NodeId) : res Heap :=
  let* n := get h i in
  let* nj := get h j in
  let nj' :=
    {| nclass := nclass nj; symbol := symbol nj;
       next_term := next_term n; prev_term := Some i; parent := parent n;
       lookup := lookup nj; image := image nj; plain_mode := plain_mode nj;
       deleted := deleted nj |} in
  let h1 := set_node h j nj' in
  let* n1 := get h1 i in
  let h2 := set_node h1 i (with_next n1 (Some j)) in
  match next_term n with
  | Some k =>
      let* nk := get h2 k in
      Ok (set_node h2 k (with_prev nk (Some j)))
  | None => Ok h2
  end.

(** Modelled from the spec: [parser.init_ast(magic)] of the absent
    parser: a fresh root whose chain is its two sentinels, with the
    back-pointer to the boundary node that embeds it. *)
Definition init_ast (h : Heap) (magic : option NodeId) : Heap * RootId :=
  let r := length (roots h) in
  let b := length (nodes h) in
  let e := S b in
  let sentinel c := {| sclass := Terminal; name := c; ast := None |} in
  let nb := {| nclass := BOS; symbol := sentinel ""; next_term := Some e;
               prev_term := None; parent := Some r; lookup := ""; image := false;
               plain_mode := false; deleted := false |} in
  let ne := {| nclass := EOS; symbol := sentinel ""; next_term := None;
               prev_term := Some b; parent := Some r; lookup := ""; image := false;
               plain_mode := false; deleted := false |} in
  ({| nodes := nodes h ++ [nb; ne];
      roots := roots h ++ [{| bos := b; eos := e; magic_backpointer := magic |}] |}, r).

Definition with_ast (n : Node) (r : RootId) : Node :=
  {| nclass := nclass n;
     symbol := {| sclass := sclass (symbol n); name := name (symbol n); ast := Some r |};
     next_term := next_term n; prev_term := prev_term n; parent := parent n;
     lookup := lookup n; image := image n; plain_mode := plain_mode n;
     deleted := deleted n |}.

(** Modelled from the spec: [node.parent.remove_child(node)] of the
    absent tree classes.  The node is spliced out of its chain and
    marked deleted; its own links stay, so a caller can still step from
    it. *)
Definition remove_child (h : Heap) (i : NodeId) : res Heap :=
  let* n := get h i in
  let h1 := set_node h i (with_deleted n) in
  let* h2 :=
    match prev_term n with
    | Some p => let* np := get h1 p in Ok (set_node h1 p (with_next np (next_term n)))
    | None => Ok h1
    end in
  match next_term n with
  | Some k => let* nk := get h2 k in Ok (set_node h2 k (with_prev nk (prev_term n)))
  | None => Ok h2
  end.

(** Modelled from the spec: [node.insert(text, pos)] of the absent tree
    classes splices [text] into the node's text at offset [pos]. *)
Definition insert (h : Heap) (i : NodeId) (txt : string) (p : Z) : res Heap :=
  let* n := get h i in
  let s := name (symbol n) in
  Ok (set_node h i (with_name n (String.append (Py.str_to s p)
                                   (String.append txt (Py.str_from s p))))).

(** Modelled from the spec: [node.backspace(pos)] of the absent tree
    classes removes the character at offset [pos] and returns it. *)
Definition backspace (h : Heap) (i : NodeId) (p : Z) : res (Heap * string) :=
  let* n := get h i in
  let s := name (symbol n) in
  Ok (set_node h i (with_name n (String.append (Py.str_to s p) (Py.str_from s (p + 1)))),
      Py.str_to (Py.str_from s p) 1).

(** Modelled from the spec: equality of symbols of the absent grammar
    classes compares class and name. *)
Definition Symbol_eqb (a b : Symbol) : bool :=
  SymbolClass_eqb (sclass a) (sclass b) && String.eqb (name a) (name b).

End astree.

Import astree.

(** ** class Line *)

Module Line.

Record t : Set := mk {
  node : NodeId;     (* this line's newline node *)
  height : Z;
  width : Z;
  indent : Z;
  ws : Z;
}.

(** [Line(node)] *)
Definition init (n : NodeId) : t :=
  {| node := n; height := 1; width := 0; indent := 0; ws := 0 |}.

Definition with_indent (l : t) (i : Z) : t :=
  {| node := node l; height := height l; width := width l; indent := i; ws := ws l |}.
Definition with_ws (l : t) (w : Z) : t :=
  {| node := node l; height := height l; width := width l; indent := indent l; ws := w |}.

End Line.

(** ** class Cursor *)

Module Cursor.

Record t : Set := mk {
  node : NodeId;
  pos : Z;
  line : Z;
}.

(** [Cursor.copy] yields a cursor with the same three fields; cursors
    are compared by their fields only, so a copy is the record itself. *)
Definition copy (c : t) : t := c.

Definition with_node (c : t) (n : NodeId) : t :=
  {| node := n; pos := pos c; line := line c |}.
Definition with_pos (c : t) (p : Z) : t :=
  {| node := node c; pos := p; line := line c |}.
Definition with_line (c : t) (l : Z) : t :=
  {| node := node c; pos := pos c; line := l |}.

(** [Cursor.is_visible(node)] *)
Definition is_visible (n : Node) : bool :=
  if is_Indentation n then false
  else if is_BOS n then false
  else if is_EOS n then false
  else if is_Magic n then false
  else true.

Section Methods.

(** Bound on the iterations of every [while] loop. *)
Variable fuel : nat.

(** [get_nodesize_in_chars(node).w] for a node with an image: the
    width the rendering layer reports. *)
Variable image_w : Node -> Z.

Variable h : Heap.

(** The loop [while not self.is_visible(node)] of
    [find_next_visible]. *)
Fixpoint find_next_visible_loop (k : nat) (i : NodeId) : res NodeId :=
  match k with
  | O => Raise OutOfFuel
  | S k' =>
      let* n := get h i in
      if is_visible n then Ok i
      else if is_EOS n then
        let* r := get_root h i in
        let* lbox := get_magicterminal h r in
        match lbox with
        | Some l =>
            let* nl := get h l in
            let* j := deref (next_term nl) in
            find_next_visible_loop k' j
        | None => Ok i
        end
      else if is_Magic n then
        let* r := match ast (symbol n) with
                  | Some r => Ok r
                  | None => Raise AttributeError
                  end in
        let* j := children_first h r in
        find_next_visible_loop k' j
      else
        let* j := deref (next_term n) in
        find_next_visible_loop k' j
  end.

(** [Cursor.find_next_visible(node)] *)
Definition find_next_visible (i : NodeId) : res NodeId :=
  let* n := get h i in
  let* j := (if is_visible n || is_Magic n
             then deref (next_term n) else Ok i) in
  find_next_visible_loop fuel j.

Fixpoint find_previous_visible_loop (k : nat) (i : NodeId) : res NodeId :=
  match k with
  | O => Raise OutOfFuel
  | S k' =>
      let* n := get h i in
      if is_visible n then Ok i
      else if is_BOS n then
        let* r := get_root h i in
        let* lbox := get_magicterminal h r in
        match lbox with
        | Some l =>
            let* nl := get h l in
            let* j := deref (prev_term nl) in
            find_previous_visible_loop k' j
        | None => Ok i
        end
      else if is_Magic n then
        let* r := match ast (symbol n) with
                  | Some r => Ok r
                  | None => Raise AttributeError
                  end in
        let* j := children_last h r in
        find_previous_visible_loop k' j
      else
        let* j := deref (prev_term n) in
        find_previous_visible_loop k' j
  end.

(** [Cursor.find_previous_visible(node)] *)
Definition find_previous_visible (i : NodeId) : res NodeId :=
  let* n := get h i in
  let* j := (if is_visible n then deref (prev_term n) else Ok i) in
  find_previous_visible_loop fuel j.

(** [len(node.symbol.name)] *)
Definition name_len (n : Node) : Z := Py.len (name (symbol n)).

(** [node.image and not node.plain_mode] *)
Definition shows_image (n : Node) : bool := image n && negb (plain_mode n).

(** [Cursor.left] *)
Definition left (c : t) : res t :=
  let* n0 := get h (node c) in
  let* i := (if negb (is_visible n0) then find_previous_visible (node c)
             else Ok (node c)) in
  let* n := get h i in
  if is_return n then Ok c
  else if is_BOS n then Ok c
  else
    let c1 := if negb (Nat.eqb i (node c))
              then {| node := i; pos := name_len n; line := line c |}
              else c in
    if (1 <? pos c1) && (negb (image n) || plain_mode n)
    then Ok (with_pos c1 (pos c1 - 1))
    else
      let* j := find_previous_visible i in
      let* nj := get h j in
      Ok {| node := j; pos := name_len nj; line := line c1 |}.

(** [Cursor.right] *)
Definition right (c : t) : res t :=
  let* n0 := get h (node c) in
  let* i := (if negb (is_visible n0) then find_next_visible (node c)
             else Ok (node c)) in
  let* n := get h i in
  if is_EOS n then Ok c
  else
    let c1 := if negb (Nat.eqb i (node c))
              then {| node := i; pos := 0; line := line c |}
              else c in
    let* n1 := get h (node c1) in
    if pos c1 <? name_len n1
    then Ok (with_pos c1 (pos c1 + 1))
    else
      let* j := find_next_visible i in
      let* nj := get h j in
      if is_return nj then Ok c1
      else if is_EOS nj then Ok c1
      else
        Ok {| node := j;
              pos := if shows_image nj then name_len nj else 1;
              line := line c1 |}.

(** The loop [while self.node.deleted] of [Cursor.fix]. *)
Fixpoint fix_deleted_loop (k : nat) (c : t) : res t :=
  match k with
  | O => Raise OutOfFuel
  | S k' =>
      let* n := get h (node c) in
      if deleted n then
        let* c1 := left (with_pos c 0) in
        fix_deleted_loop k' c1
      else Ok c
  end.

(** The loop [while self.pos > len(self.node.symbol.name)] of
    [Cursor.fix]. *)
Fixpoint fix_overflow_loop (k : nat) (c : t) : res t :=
  match k with
  | O => Raise OutOfFuel
  | S k' =>
      let* n := get h (node c) in
      if name_len n <? pos c then
        let* j := deref (next_term n) in
        fix_overflow_loop k' {| node := j; pos := pos c - name_len n; line := line c |}
      else Ok c
  end.

(** [Cursor.fix] *)
Definition fix_ (c : t) : res t :=
  let* c1 := fix_deleted_loop fuel c in
  fix_overflow_loop fuel c1.

(** The loop [while x > 0] of [Cursor.move_to_x]; [i] is the local
    [node]. *)
Fixpoint move_to_x_loop (k : nat) (c : t) (x : Z) (i : NodeId) : res t :=
  match k with
  | O => Raise OutOfFuel
  | S k' =>
      let* n := get h i in
      if 0 <? x then
        let* j := find_next_visible i in
        if Nat.eqb j i then
          Ok {| node := i; pos := name_len n; line := line c |}
        else
          let* nj := get h j in
          let x' := if shows_image nj then x - image_w nj else x - name_len nj in
          if is_return nj || is_EOS nj then
            let* p := find_previous_visible j in
            let* np := get h p in
            Ok {| node := p; pos := name_len np; line := line c |}
          else move_to_x_loop k' c x' j
      else
        Ok {| node := i; pos := name_len n + x; line := line c |}
  end.

(** [Cursor.move_to_x(x, lines)] *)
Definition move_to_x (c : t) (x : Z) (lines : list Line.t) : res t :=
  let* l := Py.index lines (line c) in
  move_to_x_loop fuel c x (Line.node l).

(** The loop of [Cursor.get_x]: walk back to the line break or the
    start sentinel, adding node widths. *)
Fixpoint get_x_loop (k : nat) (x : Z) (i : NodeId) : res Z :=
  match k with
  | O => Raise OutOfFuel
  | S k' =>
      let* n := get h i in
      if negb (is_return n) && negb (is_BOS n) then
        let x' := if shows_image n then x + image_w n else x + name_len n in
        let* j := find_previous_visible i in
        get_x_loop k' x' j
      else Ok x
  end.

(** [Cursor.get_x] *)
Definition get_x (c : t) : res Z :=
  let* n := get h (node c) in
  if is_return n || is_BOS n then Ok 0
  else
    let x := if shows_image n then image_w n else pos c in
    let* j := find_previous_visible (node c) in
    get_x_loop fuel x j.

(** [Cursor.up(lines)], [Cursor.down(lines)] *)
Definition up (c : t) (lines : list Line.t) : res t :=
  if 0 <? line c then
    let* x := get_x c in
    move_to_x (with_line c (line c - 1)) x lines
  else Ok c.

Definition down (c : t) (lines : list Line.t) : res t :=
  if line c <? Z.of_nat (length lines) - 1 then
    let* x := get_x c in
    move_to_x (with_line c (line c + 1)) x lines
  else Ok c.

(** [Cursor.inside] *)
Definition inside (c : t) : res bool :=
  let* n := get h (node c) in
  Ok ((0 <? pos c) && (pos c <? name_len n)).

(** [Cursor.isend] *)
Definition isend (c : t) : res bool :=
  let* n := get h (node c) in
  if is_Magic n then Ok true else Ok (pos c =? name_len n).

(** [Cursor.__gt__]: the columns are computed only when the lines
    agree. *)
Definition gt (a b : t) : res bool :=
  if line b <? line a then Ok true
  else if line a <? line b then Ok false
  else
    let* xa := get_x a in
    let* xb := get_x b in
    Ok (xb <? xa).

End Methods.

(** [Cursor.__eq__] against another cursor: node identity and offset. *)
Definition eq (a b : t) : bool :=
  Nat.eqb (node a) (node b) && (pos a =? pos b).

(** [Cursor.__ne__] *)
Definition ne (a b : t) : bool := negb (eq a b).

(** [Cursor.__lt__] *)
Definition lt (fuel : nat) (image_w : Node -> Z) (h : Heap) (a b : t) : res bool :=
  let* g := gt fuel image_w h a b in
  Ok (negb (g || eq a b)).

End Cursor.

(** ** class TreeManager *)

Module TreeManager.

(** One entry [(parser, lexer, language)] of [self.parsers].  The
    parser is known by the root it owns
    ([parser.previous_version.parent]), the lexer by what
    [lexer.is_indentation_based()] answers. *)
Record Binding : Set := mkBinding {
  parser_root : RootId;
  is_indentation_based : bool;
  language : string;
}.

Definition Binding_eqb (a b : Binding) : bool :=
  Nat.eqb (parser_root a) (parser_root b)
  && Bool.eqb (is_indentation_based a) (is_indentation_based b)
  && String.eqb (language a) (language b).

Record t : Set := mk {
  heap : Heap;
  lines : list Line.t;
  mainroot : option RootId;
  cursor : Cursor.t;
  selection_start : Cursor.t;
  selection_end : Cursor.t;
  parsers : list Binding;
  edit_rightnode : bool;
  undomanager : UndoManager.t;
  changed : bool;
  last_search : string;
  last_delchar : option string;
}.

Definition set_heap (tm : t) (h : Heap) : t :=
  {| heap := h; lines := lines tm; mainroot := mainroot tm; cursor := cursor tm;
     selection_start := selection_start tm; selection_end := selection_end tm;
     parsers := parsers tm; edit_rightnode := edit_rightnode tm;
     undomanager := undomanager tm; changed := changed tm;
     last_search := last_search tm; last_delchar := last_delchar tm |}.

Definition set_lines (tm : t) (l : list Line.t) : t :=
  {| heap := heap tm; lines := l; mainroot := mainroot tm; cursor := cursor tm;
     selection_start := selection_start tm; selection_end := selection_end tm;
     parsers := parsers tm; edit_rightnode := edit_rightnode tm;
     undomanager := undomanager tm; changed := changed tm;
     last_search := last_search tm; last_delchar := last_delchar tm |}.

Definition set_cursor (tm : t) (c : Cursor.t) : t :=
  {| heap := heap tm; lines := lines tm; mainroot := mainroot tm; cursor := c;
     selection_start := selection_start tm; selection_end := selection_end tm;
     parsers := parsers tm; edit_rightnode := edit_rightnode tm;
     undomanager := undomanager tm; changed := changed tm;
     last_search := last_search tm; last_delchar := last_delchar tm |}.

Definition set_selection (tm : t) (s e : Cursor.t) : t :=
  {| heap := heap tm; lines := lines tm; mainroot := mainroot tm; cursor := cursor tm;
     selection_start := s; selection_end := e;
     parsers := parsers tm; edit_rightnode := edit_rightnode tm;
     undomanager := undomanager tm; changed := changed tm;
     last_search := last_search tm; last_delchar := last_delchar tm |}.

Definition set_parsers (tm : t) (p : list Binding) : t :=
  {| heap := heap tm; lines := lines tm; mainroot := mainroot tm; cursor := cursor tm;
     selection_start := selection_start tm; selection_end := selection_end tm;
     parsers := p; edit_rightnode := edit_rightnode tm;
     undomanager := undomanager tm; changed := changed tm;
     last_search := last_search tm; last_delchar := last_delchar tm |}.

Definition set_edit_rightnode (tm : t) (b : bool) : t :=
  {| heap := heap tm; lines := lines tm; mainroot := mainroot tm; cursor := cursor tm;
     selection_start := selection_start tm; selection_end := selection_end tm;
     parsers := parsers tm; edit_rightnode := b;
     undomanager := undomanager tm; changed := changed tm;
     last_search := last_search tm; last_delchar := last_delchar tm |}.

Definition set_undomanager (tm : t) (u : UndoManager.t) : t :=
  {| heap := heap tm; lines := lines tm; mainroot := mainroot tm; cursor := cursor tm;
     selection_start := selection_start tm; selection_end := selection_end tm;
     parsers := parsers tm; edit_rightnode := edit_rightnode tm;
     undomanager := u; changed := changed tm;
     last_search := last_search tm; last_delchar := last_delchar tm |}.

Definition set_changed (tm : t) (b : bool) : t :=
  {| heap := heap tm; lines := lines tm; mainroot := mainroot tm; cursor := cursor tm;
     selection_start := selection_start tm; selection_end := selection_end tm;
     parsers := parsers tm; edit_rightnode := edit_rightnode tm;
     undomanager := undomanager tm; changed := b;
     last_search := last_search tm; last_delchar := last_delchar tm |}.

Definition set_last_delchar (tm : t) (s : option string) : t :=
  {| heap := heap tm; lines := lines tm; mainroot := mainroot tm; cursor := cursor tm;
     selection_start := selection_start tm; selection_end := selection_end tm;
     parsers := parsers tm; edit_rightnode := edit_rightnode tm;
     undomanager := undomanager tm; changed := changed tm;
     last_search := last_search tm; last_delchar := s |}.

(** [self.lines[y] = l] for an index that exists. *)
Definition set_line (tm : t) (y : Z) (l : Line.t) : t :=
  set_lines tm (Py.set_index (lines tm) y l).

(** [list.insert(i, a)]: the index is clamped to the list. *)
Definition list_insert_at {A} (l : list A) (i : Z) (a : A) : list A :=
  let k := Py.slice_index (length l) i in
  take k l ++ a :: drop k l.

(** [del l[i]] *)
Definition list_del_at {A} (l : list A) (i : Z) : res (list A) :=
  let j := if i <? 0 then Z.of_nat (length l) + i else i in
  if (j <? 0) || (Z.of_nat (length l) <=? j) then Raise IndexError
  else Ok (take (Z.to_nat j) l ++ drop (S (Z.to_nat j)) l).

(** [del l[a:b]] *)
Definition list_del_slice {A} (l : list A) (a b : Z) : list A :=
  let i := Py.slice_index (length l) a in
  let j := Py.slice_index (length l) b in
  if (i <? j)%nat then take i l ++ drop j l else l.

(** [TreeManager.hasSelection] *)
Definition hasSelection (tm : t) : bool :=
  Cursor.ne (selection_start tm) (selection_end tm).

(** [TreeManager.get_bos], [get_eos], [get_mainparser] *)
Definition get_mainparser (tm : t) : res Binding := Py.index (parsers tm) 0.
Definition get_bos (tm : t) : res NodeId :=
  let* p := get_mainparser tm in children_first (heap tm) (parser_root p).
Definition get_eos (tm : t) : res NodeId :=
  let* p := get_mainparser tm in children_last (heap tm) (parser_root p).

(** [list.remove(p)]: drop the first entry equal to [p]. *)
Fixpoint list_remove (p : Binding) (l : list Binding) : list Binding :=
  match l with
  | [] => []
  | q :: l' => if Binding_eqb q p then l' else q :: list_remove p l'
  end.

(** The [for p in self.parsers] loop of [delete_parser]: the list
    shrinks under the iterator, which goes on at the next index. *)
Fixpoint delete_parser_loop (k : nat) (i : nat) (ps : list Binding) (r : RootId)
  : list Binding :=
  match k with
  | O => ps
  | S k' =>
      match ps !! i with
      | None => ps
      | Some p =>
          if Nat.eqb (parser_root p) r
          then delete_parser_loop k' (S i) (list_remove p ps) r
          else delete_parser_loop k' (S i) ps r
      end
  end.

(** [TreeManager.delete_parser(root)] *)
Definition delete_parser (tm : t) (r : RootId) : t :=
  set_parsers tm (delete_parser_loop (length (parsers tm)) 0 (parsers tm) r).

(** [get_parser], [get_lexer], [get_language]: the first binding
    whose parser owns [root], or [None]. *)
Fixpoint find_binding (ps : list Binding) (r : RootId) : option Binding :=
  match ps with
  | [] => None
  | p :: ps' => if Nat.eqb (parser_root p) r then Some p else find_binding ps' r
  end.
Definition get_parser (tm : t) (r : RootId) : option Binding := find_binding (parsers tm) r.
Definition get_lexer (tm : t) (r : RootId) : option Binding := find_binding (parsers tm) r.
Definition get_language (tm : t) (r : RootId) : option string :=
  language <$> find_binding (parsers tm) r.

(** [TreeManager.get_languagebox(node)] *)
Definition get_languagebox (tm : t) (i : NodeId) : res (option NodeId) :=
  let* r := get_root (heap tm) i in
  get_magicterminal (heap tm) r.

(** [TreeManager.is_same_language], applied by its callers to two
    roots; a root is its own root. *)
Definition is_same_language (r r' : RootId) : bool := Nat.eqb r r'.

(** [TextNode(IndentationTerminal(s))] *)
Definition indentation_node (s : string) : Node :=
  new_TextNode {| sclass := IndentationTerminal; name := s; ast := None |}.

(** [TextNode(Terminal(s))] *)
Definition terminal_node (s : string) : Node :=
  new_TextNode {| sclass := Terminal; name := s; ast := None |}.

Section Methods.

Variable fuel : nat.
Variable image_w : Node -> Z.

(** The collaborators: [lexer.relex(node)] and [parser.inc_parse()]
    of the lexer and parser bound to a root.  They see and may
    reshape the node store, nothing else. *)
Variable lexer_relex : Binding -> NodeId -> Heap -> Heap.
Variable inc_parse : Binding -> Heap -> Heap.

(** [TreeManager.relex(node)] *)
Definition relex (tm : t) (i : NodeId) : res t :=
  let* r := get_root (heap tm) i in
  match get_lexer tm r with
  | Some lexer => Ok (set_heap tm (lexer_relex lexer i (heap tm)))
  | None => Raise AttributeError
  end.

(** [TreeManager.reparse(node)] *)
Definition reparse (tm : t) (i : NodeId) : res t :=
  let* r := get_root (heap tm) i in
  match get_parser tm r with
  | Some parser => Ok (set_heap tm (inc_parse parser (heap tm)))
  | None => Raise AttributeError
  end.

(** The [while True] loop of [is_logical_line]. *)
Fixpoint is_logical_line_loop (k : nat) (h : Heap) (i : NodeId) : res bool :=
  match k with
  | O => Raise OutOfFuel
  | S k' =>
      let* n := get h i in
      if is_EOS n then Ok false
      else if String.eqb (lookup n) "<return>" then Ok false
      else if String.eqb (lookup n) "<ws>" then
        let* j := deref (next_term n) in is_logical_line_loop k' h j
      else if is_Indentation n then
        let* j := deref (next_term n) in is_logical_line_loop k' h j
      else Ok true
  end.

(** [TreeManager.is_logical_line(y)] *)
Definition is_logical_line (tm : t) (y : Z) : res bool :=
  let* l := Py.index (lines tm) y in
  let* n := get (heap tm) (Line.node l) in
  let* j := deref (next_term n) in
  is_logical_line_loop fuel (heap tm) j.

(** The loop [while isinstance(node.symbol, IndentationTerminal)]
    that steps over indentation markers. *)
Fixpoint skip_indentation (k : nat) (h : Heap) (i : NodeId) : res NodeId :=
  match k with
  | O => Raise OutOfFuel
  | S k' =>
      let* n := get h i in
      if is_Indentation n then
        let* j := deref (next_term n) in skip_indentation k' h j
      else Ok i
  end.

(** [TreeManager.get_indentation(y)] *)
Definition get_indentation (tm : t) (y : Z) : res (option Z) :=
  let* b := is_logical_line tm y in
  if negb b then Ok None
  else
    let* l := Py.index (lines tm) y in
    let* n := get (heap tm) (Line.node l) in
    let* j := deref (next_term n) in
    let* i := skip_indentation fuel (heap tm) j in
    let* ni := get (heap tm) i in
    if String.eqb (lookup ni) "<ws>" then Ok (Some (Cursor.name_len ni))
    else Ok (Some 0).

(** The loop of [remove_indentation_nodes]. *)
Fixpoint remove_indentation_loop (k : nat) (h : Heap) (i : NodeId)
  : res (Heap * NodeId) :=
  match k with
  | O => Raise OutOfFuel
  | S k' =>
      let* n := get h i in
      if is_Indentation n then
        let* h1 := remove_child h i in
        let* j := deref (next_term n) in
        remove_indentation_loop k' h1 j
      else Ok (h, i)
  end.

(** [TreeManager.remove_indentation_nodes(node)] *)
Definition remove_indentation_nodes (tm : t) (o : option NodeId)
  : res (t * option NodeId) :=
  match o with
  | None => Ok (tm, None)
  | Some i =>
      let* '(h1, j) := remove_indentation_loop fuel (heap tm) i in
      Ok (set_heap tm h1, Some j)
  end.

(** The loop [while current is not next] of [rescan_linebreaks]. *)
Fixpoint rescan_linebreaks_loop (k : nat) (h : Heap) (ls : list Line.t)
    (y : Z) (current next : NodeId) : res (list Line.t) :=
  match k with
  | O => Raise OutOfFuel
  | S k' =>
      if Nat.eqb current next then Ok ls
      else
        let* n := get h current in
        let '(y1, ls1) :=
          if is_return n
          then (y + 1, list_insert_at ls (y + 1) (Line.init current))
          else (y, ls) in
        if is_Magic n then
          let* r := match ast (symbol n) with
                    | Some r => Ok r
                    | None => Raise AttributeError
                    end in
          let* j := children_first h r in
          rescan_linebreaks_loop k' h ls1 y1 j next
        else if is_EOS n then
          let* r := get_root h current in
          let* lbox := get_magicterminal h r in
          match lbox with
          | Some l =>
              let* nl := get h l in
              let* j := deref (next_term nl) in
              rescan_linebreaks_loop k' h ls1 y1 j next
          | None => rescan_linebreaks_loop k' h ls1 y1 current next
          end
        else
          let* j := deref (next_term n) in
          rescan_linebreaks_loop k' h ls1 y1 j next
  end.

(** [TreeManager.rescan_linebreaks(y)] *)
Definition rescan_linebreaks (tm : t) (y : Z) : res t :=
  let* l := Py.index (lines tm) y in
  let* next :=
    match Py.index (lines tm) (y + 1) with
    | Ok l' => Ok (Line.node l')
    | Raise IndexError => get_eos tm
    | Raise e => Raise e
    end in
  let* n := get (heap tm) (Line.node l) in
  let* current := deref (next_term n) in
  let* ls := rescan_linebreaks_loop fuel (heap tm) (lines tm) y current next in
  Ok (set_lines tm ls).

(** [TreeManager.delete_linebreak(y, node)] *)
Definition delete_linebreak (tm : t) (y : Z) (i : NodeId) : res t :=
  let* current := Py.index (lines tm) y in
  let* deleted := Py.index (lines tm) (y + 1) in
  if negb (Nat.eqb (Line.node deleted) i) then Raise AssertionError
  else
    let* ls := list_del_at (lines tm) (y + 1) in
    Ok (set_lines tm ls).

(** *** Indentation *)

(** [self.lines[y].indent = v] *)
Definition set_indent (tm : t) (y : Z) (v : Z) : res t :=
  let* l := Py.index (lines tm) y in
  Ok (set_line tm y (Line.with_indent l v)).

(** The loop [while dy > 0] of [update_indentation_backwards];
    [k] is [dy] on entry of an iteration. *)
Fixpoint update_indentation_backwards_loop (k : nat) (tm : t) (y : Z)
    (root : RootId) (ws : option Z) (found_smaller : bool) : res t :=
  match k with
  | O => Ok tm
  | S k' =>
      let dy := Z.of_nat k' in
      let* b := is_logical_line tm dy in
      if negb b then update_indentation_backwards_loop k' tm y root ws found_smaller
      else
        let* ldy := Py.index (lines tm) dy in
        let* other_root := get_root (heap tm) (Line.node ldy) in
        if negb (is_same_language root other_root)
        then update_indentation_backwards_loop k' tm y root ws found_smaller
        else
          let* prev_ws := get_indentation tm dy in
          if Py.lt2 ws prev_ws
          then update_indentation_backwards_loop k' tm y root ws true
          else if Py.eq2 ws prev_ws
          then set_indent tm y (Line.indent ldy)
          else if Py.gt2 ws prev_ws
          then (if negb found_smaller
                then set_indent tm y (Line.indent ldy + 1)
                else Ok tm)
          else update_indentation_backwards_loop k' tm y root ws found_smaller
  end.

(** [TreeManager.update_indentation_backwards(y)] *)
Definition update_indentation_backwards (tm : t) (y : Z) : res t :=
  let* l := Py.index (lines tm) y in
  let* root := get_root (heap tm) (Line.node l) in
  let* ws := get_indentation tm y in
  update_indentation_backwards_loop (Z.to_nat y) tm y root ws false.

(** The loop [while dy > 0] of [find_indentation]. *)
Fixpoint find_indentation_loop (k : nat) (tm : t) (this_whitespace : option Z)
  : res (option Z) :=
  match k with
  | O => Ok None
  | S k' =>
      let dy := Z.of_nat k' in
      let* prev_whitespace := get_indentation tm dy in
      match prev_whitespace with
      | None => find_indentation_loop k' tm this_whitespace
      | Some _ =>
          if Py.eq2 prev_whitespace this_whitespace then
            let* ldy := Py.index (lines tm) dy in
            Ok (Some (Line.indent ldy))
          else if Py.lt2 prev_whitespace this_whitespace then Ok None
          else find_indentation_loop k' tm this_whitespace
      end
  end.

(** [TreeManager.find_indentation(y)] *)
Definition find_indentation (tm : t) (y : Z) : res (option Z) :=
  let* this_whitespace := get_indentation tm y in
  find_indentation_loop (Z.to_nat y) tm this_whitespace.

(** The symbols of the indentation markers that follow node [i]. *)
Fixpoint previous_nodes_loop (k : nat) (h : Heap) (i : NodeId) : res (list Symbol) :=
  match k with
  | O => Raise OutOfFuel
  | S k' =>
      let* n := get h i in
      if is_Indentation n then
        let* j := deref (next_term n) in
        let* rest := previous_nodes_loop k' h j in
        Ok (symbol n :: rest)
      else Ok []
  end.

Fixpoint symbols_differ (a b : list Symbol) : bool :=
  match a, b with
  | x :: a', y :: b' => negb (Symbol_eqb x y) || symbols_differ a' b'
  | _, _ => false
  end.

(** [TreeManager.indentation_nodes_changed(y, nodes)]: [True] when
    the markers in the chain are the ones in [nodes]. *)
Definition indentation_nodes_changed (tm : t) (y : Z) (nodes : list Node) : res bool :=
  let* l := Py.index (lines tm) y in
  let* n := get (heap tm) (Line.node l) in
  let* j := deref (next_term n) in
  let* previous := previous_nodes_loop fuel (heap tm) j in
  let previous_nodes := rev previous in
  if negb (Nat.eqb (length previous_nodes) (length nodes)) then Ok false
  else Ok (negb (symbols_differ (map symbol nodes) previous_nodes)).

(** The loop of [repair_indentation] that walks back to the line
    [dy] it compares with; it stops at a logical line of the same
    root. *)
Fixpoint previous_line_loop (k : nat) (tm : t) (root : RootId) (dy : Z) (other : RootId)
  : res Z :=
  match k with
  | O => Raise OutOfFuel
  | S k' =>
      let* b := is_logical_line tm dy in
      if negb b || negb (is_same_language root other) then
        let* l := Py.index (lines tm) (dy - 1) in
        let* other' := get_root (heap tm) (Line.node l) in
        previous_line_loop k' tm root (dy - 1) other'
      else Ok dy
  end.

(** The part of [repair_indentation] that fills [new_indent_nodes]
    and sets the line's [indent] and [ws]; the markers are returned
    in the order they are appended. *)
Definition new_indent_nodes (tm : t) (y : Z) : res (t * list Node) :=
  if y =? 0 then
    let* tm1 := set_indent tm y 0 in Ok (tm1, [])
  else
    let* b := is_logical_line tm y in
    if negb b then Ok (tm, [])
    else
      let* this_whitespace := get_indentation tm y in
      let* ly := Py.index (lines tm) y in
      let* w := match this_whitespace with
                | Some w => Ok w
                | None => Raise TypeError
                end in
      let tm1 := set_line tm y (Line.with_ws ly w) in
      let* ly1 := Py.index (lines tm1) y in
      let* root := get_root (heap tm1) (Line.node ly1) in
      let* l0 := Py.index (lines tm1) (y - 1) in
      let* other := get_root (heap tm1) (Line.node l0) in
      let* dy := previous_line_loop fuel tm1 root (y - 1) other in
      let* prev_whitespace := get_indentation tm1 dy in
      let* ldy := Py.index (lines tm1) dy in
      if Py.eq2 prev_whitespace this_whitespace then
        let* tm2 := set_indent tm1 y (Line.indent ldy) in
        Ok (tm2, [indentation_node "NEWLINE"])
      else if Py.lt2 prev_whitespace this_whitespace then
        let* tm2 := set_indent tm1 y (Line.indent ldy + 1) in
        Ok (tm2, [indentation_node "INDENT"; indentation_node "NEWLINE"])
      else if Py.gt2 prev_whitespace this_whitespace then
        let* this_indent := find_indentation tm1 y in
        match this_indent with
        | None => Ok (tm1, [indentation_node "UNBALANCED"])
        | Some v =>
            let* tm2 := set_indent tm1 y v in
            let* ldy2 := Py.index (lines tm2) dy in
            let indent_diff := Line.indent ldy2 - v in
            Ok (tm2, repeat (indentation_node "DEDENT") (Z.to_nat indent_diff)
                       ++ [indentation_node "NEWLINE"])
        end
      else Ok (tm1, []).

(** [for node in nodes: i.insert_after(node)] *)
Fixpoint insert_all_after (h : Heap) (i : NodeId) (nodes : list Node) : res Heap :=
  match nodes with
  | [] => Ok h
  | n :: rest =>
      let '(h0, j) := alloc h n in
      let* h1 := insert_after h0 i j in
      insert_all_after h1 i rest
  end.

(** The clean-up loop before the end sentinel: markers are removed
    walking backwards; the node the loop stops at is returned. *)
Fixpoint clean_tail_loop (k : nat) (h : Heap) (i : NodeId) : res (Heap * NodeId) :=
  match k with
  | O => Raise OutOfFuel
  | S k' =>
      let* n := get h i in
      if is_Indentation n then
        let* h1 := remove_child h i in
        let* j := deref (prev_term n) in
        clean_tail_loop k' h1 j
      else Ok (h, i)
  end.

(** [while not self.is_logical_line(y) and y > 0: y -= 1] *)
Fixpoint last_logical_loop (k : nat) (tm : t) (y : Z) : res Z :=
  match k with
  | O => Raise OutOfFuel
  | S k' =>
      let* b := is_logical_line tm y in
      if negb b && (0 <? y) then last_logical_loop k' tm (y - 1)
      else Ok y
  end.

(** [TreeManager.repair_indentation(y)] *)
Definition repair_indentation (tm : t) (y : Z) : res t :=
  let* l := Py.index (lines tm) y in
  let newline := Line.node l in
  let* root := get_root (heap tm) newline in
  let* lexer := match get_lexer tm root with
                | Some b => Ok b
                | None => Raise AttributeError
                end in
  if negb (is_indentation_based lexer) then Ok tm
  else
    let* '(tm1, nodes) := new_indent_nodes tm y in
    let* as_before := indentation_nodes_changed tm1 y nodes in
    let* tm2 :=
      (if negb as_before then
         let* nl := get (heap tm1) newline in
         let* '(tm', _) := remove_indentation_nodes tm1 (next_term nl) in
         let* h' := insert_all_after (heap tm') newline nodes in
         Ok (set_heap tm' h')
       else Ok tm1) in
    if y =? Z.of_nat (length (lines tm2)) - 1 then
      let* r := get_root (heap tm2) newline in
      let* eos := children_last (heap tm2) r in
      let* ne := get (heap tm2) eos in
      let* i0 := deref (prev_term ne) in
      let* '(h3, i) := clean_tail_loop fuel (heap tm2) i0 in
      let tm3 := set_heap tm2 h3 in
      let* y' := last_logical_loop fuel tm3 y in
      let* ly' := Py.index (lines tm3) y' in
      let this_indent := Line.indent ly' in
      let* h4 := insert_all_after (heap tm3) i
                   (repeat (indentation_node "DEDENT") (Z.to_nat this_indent)) in
      let '(h4', j) := alloc h4 (indentation_node "NEWLINE") in
      let* h5 := insert_after h4' i j in
      Ok (set_heap tm3 h5)
    else Ok tm2.

(** The loop of [rescan_indentations] that skips ahead to the next
    logical line; [None] stands for the [return] inside it. *)
Fixpoint skip_to_logical_loop (k : nat) (tm : t) (y : Z) : res (option Z) :=
  match k with
  | O => Raise OutOfFuel
  | S k' =>
      let* b := is_logical_line tm y in
      if negb b then
        if Z.of_nat (length (lines tm)) <=? y + 1 then Ok None
        else skip_to_logical_loop k' tm (y + 1)
      else Ok (Some y)
  end.

(** The loop [for i in range(y+1, len(self.lines))] of
    [rescan_indentations]; [k] iterations remain, starting at [i]. *)
Fixpoint rescan_following_loop (k : nat) (tm : t) (i : Z)
    (search_threshold : Z) (current_ws : option Z) (current_indent : Z) : res t :=
  match k with
  | O => Ok tm
  | S k' =>
      let* ws := get_indentation tm i in
      match ws with
      | None => rescan_following_loop k' tm (i + 1) search_threshold current_ws current_indent
      | Some _ =>
          let* tm1 := (if Py.gt2 ws current_ws
                       then set_indent tm i (current_indent + 1) else Ok tm) in
          let* tm2 := (if Py.eq2 ws current_ws
                       then set_indent tm1 i current_indent else Ok tm1) in
          let* tm3 := (if Py.lt2 ws current_ws
                       then update_indentation_backwards tm2 i else Ok tm2) in
          let* tm4 := repair_indentation tm3 i in
          let* li := Py.index (lines tm4) i in
          if Line.ws li <=? search_threshold then Ok tm4
          else rescan_following_loop k' tm4 (i + 1) search_threshold ws (Line.indent li)
      end
  end.

(** [TreeManager.rescan_indentations(y)] *)
Definition rescan_indentations (tm : t) (y : Z) : res t :=
  let* b := is_logical_line tm y in
  let* '(tm0, oy) :=
    (if negb b then
       let* l := Py.index (lines tm) y in
       let* n := get (heap tm) (Line.node l) in
       let* '(tm', _) := remove_indentation_nodes tm (next_term n) in
       if y + 1 <? Z.of_nat (length (lines tm')) then
         let* oy := skip_to_logical_loop fuel tm' (y + 1) in
         Ok (tm', oy)
       else Ok (tm', Some (Z.of_nat (length (lines tm')) - 1))
     else Ok (tm, Some y)) in
  match oy with
  | None => Ok tm0
  | Some y =>
      let* l := Py.index (lines tm0) y in
      let before := Line.ws l in
      let* tm1 := update_indentation_backwards tm0 y in
      let* tm2 := repair_indentation tm1 y in
      let* l2 := Py.index (lines tm2) y in
      let after := Line.ws l2 in
      let search_threshold := Z.min before after in
      let current_indent := Line.indent l2 in
      let* current_ws := get_indentation tm2 y in
      rescan_following_loop (Z.to_nat (Z.of_nat (length (lines tm2)) - (y + 1)))
        tm2 (y + 1) search_threshold current_ws current_indent
  end.

(** The loop [for i in range(new_lines+1)] of [post_keypress]. *)
Fixpoint post_keypress_loop (k : nat) (tm : t) (i : Z) : res t :=
  match k with
  | O => Ok tm
  | S k' =>
      let* tm1 := rescan_indentations tm (Cursor.line (cursor tm) + i) in
      post_keypress_loop k' tm1 (i + 1)
  end.

(** [TreeManager.post_keypress(text)] *)
Definition post_keypress (tm : t) (txt : string) : res t :=
  let lines_before := Z.of_nat (length (lines tm)) in
  let* tm1 := rescan_linebreaks tm (Cursor.line (cursor tm)) in
  let new_lines := Z.of_nat (length (lines tm1)) - lines_before in
  let* tm2 := post_keypress_loop (Z.to_nat (new_lines + 1)) tm1 0 in
  if Py.startswith_cr txt
  then Ok (set_cursor tm2 (Cursor.with_line (cursor tm2) (Cursor.line (cursor tm2) + 1)))
  else Ok tm2.

(** *** Selections *)

(** [min(a, b)] and [max(a, b)] on cursors: the second argument is
    taken when it is smaller (greater) than the first. *)
Definition cursor_min (h : Heap) (a b : Cursor.t) : res Cursor.t :=
  let* l := Cursor.lt fuel image_w h b a in
  Ok (if l then b else a).
Definition cursor_max (h : Heap) (a b : Cursor.t) : res Cursor.t :=
  let* g := Cursor.gt fuel image_w h b a in
  Ok (if g then b else a).

(** The loop [while node is not end] of [get_nodes_from_selection];
    [acc] holds the collected nodes, last first. *)
Fixpoint selection_loop (k : nat) (h : Heap) (i e : NodeId) (acc : list NodeId)
  : res (list NodeId) :=
  match k with
  | O => Raise OutOfFuel
  | S k' =>
      if Nat.eqb i e then Ok acc
      else
        let* n := get h i in
        if is_Magic n then
          let* r := match ast (symbol n) with
                    | Some r => Ok r
                    | None => Raise AttributeError
                    end in
          let* j := children_first h r in
          selection_loop k' h j e acc
        else
          let* magic :=
            (if is_EOS n then
               let* r := get_root h i in get_magicterminal h r
             else Ok None) in
          match magic with
          | Some m =>
              let* om := next_terminal h m in
              let* j := deref om in
              selection_loop k' h j e acc
          | None =>
              let* j := deref (next_term n) in
              selection_loop k' h j e (i :: acc)
          end
  end.

(** [TreeManager.get_nodes_from_selection]; [None] is the bare
    [return]. *)
Definition get_nodes_from_selection (tm : t)
  : res (option (list NodeId * Z * Z)) :=
  let h := heap tm in
  let* cur_start := cursor_min h (selection_start tm) (selection_end tm) in
  let* cur_end := cursor_max h (selection_start tm) (selection_end tm) in
  if Cursor.eq cur_start cur_end then Ok None
  else
    let start_node := Cursor.node cur_start in
    let* include_start := Cursor.inside h cur_start in
    let diff_start := if include_start then Cursor.pos cur_start else 0 in
    let end_node := Cursor.node cur_end in
    let* ne := get h end_node in
    let* end_inside := Cursor.inside h cur_end in
    let diff_end := if end_inside then Cursor.pos cur_end else Cursor.name_len ne in
    if Nat.eqb start_node end_node then Ok (Some ([start_node], diff_start, diff_end))
    else
      let* ns := get h start_node in
      if is_EOS ns then Ok (Some ([], 0, 0))
      else
        let* j := deref (next_term ns) in
        let* acc := selection_loop fuel h j end_node
                      (if include_start then [start_node] else []) in
        Ok (Some (rev (end_node :: acc), diff_start, diff_end)).

(** [TreeManager.delete_if_empty(node)] *)
Definition delete_if_empty (h : Heap) (i : NodeId) : res Heap :=
  let* n := get h i in
  if String.eqb (name (symbol n)) "" then remove_child h i else Ok h.

(** [for node in nodes: node.parent.remove_child(node)] *)
Fixpoint remove_all (h : Heap) (l : list NodeId) : res Heap :=
  match l with
  | [] => Ok h
  | i :: rest => let* h1 := remove_child h i in remove_all h1 rest
  end.

(** [l[1:-1]] *)
Definition interior {A} (l : list A) : list A :=
  take (length l - 2) (drop 1 l).

(** [TreeManager.deleteSelection] *)
Definition deleteSelection (tm : t) : res t :=
  let* sel := get_nodes_from_selection tm in
  let* '(nodes, diff_start, diff_end) :=
    match sel with
    | Some x => Ok x
    | None => Raise TypeError
    end in
  let h := heap tm in
  let* first := Py.index nodes 0 in
  let* nf := get h first in
  let repair_node := prev_term nf in
  let* h1 :=
    (if Nat.eqb (length nodes) 1 then
       let s := name (symbol nf) in
       let h' := set_node h first
                   (with_name nf (String.append (Py.str_to s diff_start)
                                                (Py.str_from s diff_end))) in
       delete_if_empty h' first
     else
       let h' := set_node h first (with_name nf (Py.str_to (name (symbol nf)) diff_start)) in
       let* last := Py.index nodes (-1) in
       let* nl := get h' last in
       let h'' := set_node h' last (with_name nl (Py.str_from (name (symbol nl)) diff_end)) in
       let* h3 := delete_if_empty h'' first in
       delete_if_empty h3 last) in
  let* h2 := remove_all h1 (interior nodes) in
  let* rn := deref repair_node in
  let* nrn := get h2 rn in
  let* rn' := deref (next_term nrn) in
  let* tm1 := relex (set_heap tm h2) rn' in
  let* cur_start := cursor_min (heap tm1) (selection_start tm1) (selection_end tm1) in
  let* cur_end := cursor_max (heap tm1) (selection_start tm1) (selection_end tm1) in
  let tm2 := set_cursor tm1 (Cursor.copy cur_start) in
  let tm3 := set_lines tm2
               (list_del_slice (lines tm2) (Cursor.line cur_start + 1)
                  (Cursor.line cur_end + 1)) in
  let tm4 := set_selection tm3 (Cursor.copy (cursor tm3)) (Cursor.copy (cursor tm3)) in
  Ok (set_changed tm4 true).

(** [TreeManager.unselect] *)
Definition unselect (tm : t) : t :=
  set_selection tm (Cursor.copy (cursor tm)) (Cursor.copy (cursor tm)).

(** [TreeManager.cursor_movement(key)] *)
Inductive Key : Set := KeyUp | KeyDown | KeyLeft | KeyRight.

Definition cursor_movement (tm : t) (key : Key) : res t :=
  let* c :=
    match key with
    | KeyUp => Cursor.up fuel image_w (heap tm) (cursor tm) (lines tm)
    | KeyDown => Cursor.down fuel image_w (heap tm) (cursor tm) (lines tm)
    | KeyLeft => Cursor.left fuel (heap tm) (cursor tm)
    | KeyRight => Cursor.right fuel (heap tm) (cursor tm)
    end in
  Ok (set_cursor tm c).

(** [TreeManager.key_cursors(key, mod_shift)] *)
Definition key_cursors (tm : t) (key : Key) (mod_shift : bool) : res t :=
  let tm1 := set_undomanager tm (UndoManager.finish (undomanager tm)) in
  let tm2 := set_edit_rightnode tm1 false in
  let* tm3 := cursor_movement tm2 key in
  if mod_shift
  then Ok (set_selection tm3 (selection_start tm3) (Cursor.copy (cursor tm3)))
  else Ok (unselect tm3).

(** *** Edits *)

(** [TreeManager.leave_languagebox] *)
Definition leave_languagebox (tm : t) : res t :=
  let h := heap tm in
  let c := cursor tm in
  let* n := get h (Cursor.node c) in
  let* j := deref (next_term n) in
  let* nj := get h j in
  let* e := (if is_Magic nj then Cursor.isend h c else Ok false) in
  if e then
    let* r := match ast (symbol nj) with
              | Some r => Ok r
              | None => Raise AttributeError
              end in
    let* b := children_first h r in
    Ok (set_cursor tm {| Cursor.node := b; Cursor.pos := 0; Cursor.line := Cursor.line c |})
  else
    let* lbox := get_languagebox tm (Cursor.node c) in
    match lbox with
    | Some l =>
        Ok (set_cursor tm {| Cursor.node := l; Cursor.pos := 0; Cursor.line := Cursor.line c |})
    | None => Ok tm
    end.

(** [self.undomanager.add(cmd, text, self.cursor.copy())] *)
Definition undo_add (tm : t) (c : UndoManager.Cmd) (txt : string) : res t :=
  let* x := Cursor.get_x fuel image_w (heap tm) (cursor tm) in
  let* um := UndoManager.add c txt x (Cursor.line (cursor tm)) (undomanager tm) in
  Ok (set_undomanager tm um).

(** The search, in [key_normal], for the node a fresh node goes
    after: past the indentation markers that follow [old]. *)
Definition skip_markers_after (h : Heap) (old : NodeId) : res NodeId :=
  let* n := get h old in
  match next_term n with
  | Some j =>
      let* i := skip_indentation fuel h j in
      let* ni := get h i in
      deref (prev_term ni)
  | None => Ok old
  end.

(** [TreeManager.key_normal(text, undo_mode)]; the result carries
    the returned [indentation]. *)
Definition key_normal (tm : t) (txt : string) (undo_mode : bool) : res (t * Z) :=
  let* tm := (if hasSelection tm then deleteSelection tm else Ok tm) in
  let* '(txt, indentation) :=
    (if String.eqb txt Py.cr then
       let* oi := get_indentation tm (Cursor.line (cursor tm)) in
       let indentation := match oi with Some v => v | None => 0 end in
       Ok (String.append txt (Py.spaces (Z.to_nat indentation)), indentation)
     else Ok (txt, 0)) in
  let* n0 := get (heap tm) (Cursor.node (cursor tm)) in
  let* tm := (if Cursor.shows_image n0 then leave_languagebox tm else Ok tm) in
  let node := Cursor.node (cursor tm) in
  let* n := get (heap tm) node in
  let* ins := Cursor.inside (heap tm) (cursor tm) in
  let* '(tm, node) :=
    (if ins then
       let* h1 := insert (heap tm) node txt (Cursor.pos (cursor tm)) in
       Ok (set_heap tm h1, node)
     else
       let* '(tm1, node1, p) :=
         (if Py.startswith_cr txt then
            let '(h0, newnode) := alloc (heap tm) (terminal_node "") in
            let* h1 := insert_after h0 node newnode in
            Ok (set_cursor (set_heap tm h1) (Cursor.with_pos (cursor tm) 0), newnode, 0)
          else if is_BOS n || is_return n || is_Magic n then
            let* old := skip_markers_after (heap tm) node in
            let '(h0, newnode) := alloc (heap tm) (terminal_node "") in
            let* h1 := insert_after h0 old newnode in
            Ok (set_cursor (set_heap tm h1) (Cursor.with_pos (cursor tm) 0), newnode, 0)
          else Ok (tm, node, Cursor.pos (cursor tm))) in
       let* h2 := insert (heap tm1) node1 txt p in
       Ok (set_cursor (set_heap tm1 h2) (Cursor.with_node (cursor tm1) node1), node1)) in
  let tm := set_cursor tm (Cursor.with_pos (cursor tm) (Cursor.pos (cursor tm) + Py.len txt)) in
  let* tm := relex tm node in
  let* c := Cursor.fix_ fuel (heap tm) (cursor tm) in
  let tm := set_cursor tm c in
  let* tm := post_keypress tm txt in
  let* tm := reparse tm node in
  let* tm := (if undo_mode then undo_add tm UndoManager.CmdInsert txt else Ok tm) in
  Ok (set_changed tm true, indentation).

(** The tail of [key_delete] shared by its two editing branches. *)
Definition key_delete_finish (tm : t) (repairnode : NodeId) (undo_mode : bool) : res t :=
  let* tm := post_keypress tm "" in
  let* tm := reparse tm repairnode in
  let* tm :=
    (if undo_mode then
       match last_delchar tm with
       | Some s => undo_add tm UndoManager.CmdDelete s
       | None => Raise AttributeError
       end
     else Ok tm) in
  Ok (set_changed tm true).

(** [TreeManager.key_delete(undo_mode)]; [k] bounds the depth of
    the recursive call made after [leave_languagebox]. *)
Fixpoint key_delete_rec (k : nat) (tm : t) (undo_mode : bool) : res t :=
  match k with
  | O => Raise OutOfFuel
  | S k' =>
      let node := Cursor.node (cursor tm) in
      if hasSelection tm then deleteSelection tm
      else
        let* ins := Cursor.inside (heap tm) (cursor tm) in
        if ins then
          let* '(h1, ch) := backspace (heap tm) node (Cursor.pos (cursor tm)) in
          let tm := set_last_delchar (set_heap tm h1) (Some ch) in
          let* tm := relex tm node in
          key_delete_finish tm node undo_mode
        else
          let* node := Cursor.find_next_visible fuel (heap tm) node in
          let* n := get (heap tm) node in
          let* onode :=
            (if is_EOS n then
               let* lbox := get_languagebox tm node in
               match lbox with
               | Some l => let* nl := get (heap tm) l in
                           let* j := deref (next_term nl) in Ok (Some j)
               | None => Ok None
               end
             else Ok (Some node)) in
          match onode with
          | None => Ok tm
          | Some node =>
              let* node := skip_indentation fuel (heap tm) node in
              let* n := get (heap tm) node in
              if is_Magic n then
                let* tm := leave_languagebox tm in
                key_delete_rec k' tm true
              else if Cursor.shows_image n then Ok tm
              else
                let* tm :=
                  (if is_return n then
                     let* '(tm1, _) := remove_indentation_nodes tm (next_term n) in
                     delete_linebreak tm1 (Cursor.line (cursor tm1)) node
                   else Ok tm) in
                let* '(h1, ch) := backspace (heap tm) node 0 in
                let tm := set_last_delchar (set_heap tm h1) (Some ch) in
                let* n := get (heap tm) node in
                let* '(tm, repairnode) :=
                  (if String.eqb (name (symbol n)) "" && negb (is_BOS n) then
                     let* repairnode := Cursor.find_previous_visible fuel (heap tm) node in
                     let* root := get_root (heap tm) node in
                     let* magic := get_magicterminal (heap tm) root in
                     let* next_node := next_terminal (heap tm) node in
                     let* previous_node := previous_terminal (heap tm) node in
                     let* next_is_eos :=
                       match next_node with
                       | Some j => let* nj := get (heap tm) j in Ok (is_EOS nj)
                       | None => Ok false
                       end in
                     let* prev_is_bos :=
                       match previous_node with
                       | Some j => let* nj := get (heap tm) j in Ok (is_BOS nj)
                       | None => Ok false
                       end in
                     match magic, previous_node with
                     | Some m, Some pn =>
                         if next_is_eos && prev_is_bos then
                           let* cn := Cursor.find_previous_visible fuel (heap tm) pn in
                           let* ncn := get (heap tm) cn in
                           let tm :=
                             set_cursor tm
                               {| Cursor.node := cn; Cursor.pos := Cursor.name_len ncn;
                                  Cursor.line := Cursor.line (cursor tm) |} in
                           let* h2 := remove_child (heap tm) m in
                           Ok (delete_parser (set_heap tm h2) root, cn)
                         else
                           let* h2 := remove_child (heap tm) node in
                           Ok (set_heap tm h2, repairnode)
                     | _, _ =>
                         let* h2 := remove_child (heap tm) node in
                         Ok (set_heap tm h2, repairnode)
                     end
                   else Ok (tm, node)) in
                let* nr := get (heap tm) repairnode in
                let* tm := (if negb (is_BOS nr) then relex tm repairnode else Ok tm) in
                key_delete_finish tm repairnode undo_mode
          end
  end.

Definition key_delete (tm : t) (undo_mode : bool) : res t :=
  key_delete_rec fuel tm undo_mode.

(** [TreeManager.key_backspace(undo_mode)] *)
Definition key_backspace (tm : t) (undo_mode : bool) : res t :=
  let node := Cursor.node (cursor tm) in
  let* mr := match mainroot tm with
             | Some r => Ok r
             | None => Raise AttributeError
             end in
  let* b := children_first (heap tm) mr in
  if Nat.eqb node b then Ok tm
  else
    let* n := get (heap tm) node in
    if image n && negb (plain_mode n) then Ok tm
    else
      let* c :=
        (if is_return n then
           let* p := Cursor.find_previous_visible fuel (heap tm) node in
           let* np := get (heap tm) p in
           Ok {| Cursor.node := p; Cursor.pos := Cursor.name_len np;
                 Cursor.line := Cursor.line (cursor tm) - 1 |}
         else Cursor.left fuel (heap tm) (cursor tm)) in
      key_delete (set_cursor tm c) undo_mode.

(** *** Parsers and language boxes *)

(** [TreeManager.add_parser(parser, lexer, language)] *)
Definition add_parser (tm : t) (b : Binding) : res t :=
  let tm1 := set_parsers tm (parsers tm ++ [b]) in
  let tm2 := set_heap tm1 (inc_parse b (heap tm1)) in
  if Nat.eqb (length (parsers tm2)) 1 then
    let* first := children_first (heap tm2) (parser_root b) in
    let c := {| Cursor.node := first; Cursor.pos := 0; Cursor.line := 0 |} in
    Ok {| heap := heap tm2; lines := lines tm2 ++ [Line.init first];
          mainroot := Some (parser_root b); cursor := c;
          selection_start := Cursor.copy c; selection_end := Cursor.copy c;
          parsers := parsers tm2; edit_rightnode := edit_rightnode tm2;
          undomanager := undomanager tm2; changed := changed tm2;
          last_search := last_search tm2; last_delchar := last_delchar tm2 |}
  else Ok tm2.

(** [TreeManager.create_languagebox(language)]; a language is known
    here by its name and by whether its lexer is indentation based. *)
Definition create_languagebox (tm : t) (lang : string) (indentation : bool)
  : res (t * NodeId) :=
  let magic := new_TextNode
                 {| sclass := MagicTerminal;
                    name := String.append "<" (String.append lang ">");
                    ast := None |} in
  let '(h1, lbox) := alloc (heap tm) magic in
  let '(h2, root) := init_ast h1 (Some lbox) in
  let* tm1 := add_parser (set_heap tm h2)
                {| parser_root := root; is_indentation_based := indentation;
                   language := lang |} in
  let* nl := get (heap tm1) lbox in
  Ok (set_heap tm1 (set_node (heap tm1) lbox (with_ast nl root)), lbox).

(** [TreeManager.add_languagebox(language)] *)
Definition add_languagebox (tm : t) (lang : string) (indentation : bool) : res t :=
  let node := Cursor.node (cursor tm) in
  let* '(tm, newnode) := create_languagebox tm lang indentation in
  let* ins := Cursor.inside (heap tm) (cursor tm) in
  let* tm :=
    (if negb ins then
       let* h1 := insert_after (heap tm) node newnode in
       Ok (set_heap tm h1)
     else
       let* n := get (heap tm) node in
       let internal_position := Cursor.pos (cursor tm) in
       let text1 := Py.str_to (name (symbol n)) internal_position in
       let text2 := Py.str_from (name (symbol n)) internal_position in
       let h1 := set_node (heap tm) node (with_name n text1) in
       let* h2 := insert_after h1 node newnode in
       let '(h3, node2) := alloc h2 (terminal_node text2) in
       let* h4 := insert_after h3 newnode node2 in
       let* tm := relex (set_heap tm h4) node in
       relex tm node2) in
  let tm := set_edit_rightnode tm true in
  let* nn := get (heap tm) newnode in
  let* r := match ast (symbol nn) with
            | Some r => Ok r
            | None => Raise AttributeError
            end in
  let* b := children_first (heap tm) r in
  let tm := set_cursor tm {| Cursor.node := b; Cursor.pos := 0;
                             Cursor.line := Cursor.line (cursor tm) |} in
  let* tm := reparse tm newnode in
  Ok (set_changed tm true).

(** [for y in range(len(self.lines)): self.repair_indentation(y)] *)
Fixpoint repair_all_loop (k : nat) (tm : t) (y : Z) : res t :=
  match k with
  | O => Ok tm
  | S k' =>
      let* tm1 := repair_indentation tm y in
      repair_all_loop k' tm1 (y + 1)
  end.

(** *** Undo and redo (class UndoManager, continued) *)

(** [UndoManager.undo_insert(tm, text)] *)
Fixpoint undo_insert (tm : t) (txt : string) : res t :=
  match txt with
  | EmptyString => Ok tm
  | String _ rest =>
      let* tm1 := key_backspace tm false in
      undo_insert tm1 rest
  end.

(** [for c in s: tm.key_normal(c, False)] *)
Fixpoint type_all (tm : t) (s : string) : res t :=
  match s with
  | EmptyString => Ok tm
  | String c rest =>
      let* '(tm1, _) := key_normal tm (String c EmptyString) false in
      type_all tm1 rest
  end.

(** [text[::-1]] *)
Definition reversed (s : string) : string :=
  string_of_list_ascii (rev (list_ascii_of_string s)).

(** [UndoManager.undo_delete(tm, text)] *)
Definition undo_delete (tm : t) (txt : string) : res t :=
  type_all tm (reversed txt).

(** [tm.cursor.line = l; tm.cursor.move_to_x(x, tm.lines)] *)
Definition place_cursor (tm : t) (l x : Z) : res t :=
  let* c := Cursor.move_to_x fuel image_w (heap tm)
              (Cursor.with_line (cursor tm) l) x (lines tm) in
  Ok (set_cursor tm c).

(** [UndoManager.redo_insert(tm, uo)], [redo_delete(tm, uo)] *)
Definition redo_insert (tm : t) (uo : UndoManager.UndoObject) : res t :=
  let* tm1 := place_cursor tm (UndoManager.line1 uo) (UndoManager.x1 uo) in
  type_all tm1 (UndoManager.text uo).

Definition redo_delete (tm : t) (uo : UndoManager.UndoObject) : res t :=
  let* tm1 := place_cursor tm (UndoManager.line1 uo) (UndoManager.x1 uo) in
  undo_insert tm1 (UndoManager.text uo).

(** [UndoManager.undo(tm)], run on [tm.undomanager] *)
Definition undo (tm : t) : res t :=
  let um := undomanager tm in
  let* tm1 :=
    (if (0 <? Z.of_nat (length (UndoManager.stack um))) && (-1 <? UndoManager.pos um) then
       let* uo := Py.index (UndoManager.stack um) (UndoManager.pos um) in
       let* tm1 := place_cursor tm (UndoManager.line2 uo) (UndoManager.x2 uo) in
       let* tm2 := match UndoManager.cmd uo with
                   | UndoManager.CmdInsert => undo_insert tm1 (UndoManager.text uo)
                   | UndoManager.CmdDelete => undo_delete tm1 (UndoManager.text uo)
                   end in
       Ok (set_undomanager tm2 (UndoManager.step_back (undomanager tm2)))
     else Ok tm) in
  Ok (set_undomanager tm1 (UndoManager.finish (undomanager tm1))).

(** [UndoManager.redo(tm)] *)
Definition redo (tm : t) : res t :=
  let um := undomanager tm in
  if (0 <? Z.of_nat (length (UndoManager.stack um)))
     && (UndoManager.pos um + 1 <? Z.of_nat (length (UndoManager.stack um))) then
    let um1 := UndoManager.step_forward um in
    let* uo := Py.index (UndoManager.stack um1) (UndoManager.pos um1) in
    let tm1 := set_undomanager tm um1 in
    match UndoManager.cmd uo with
    | UndoManager.CmdInsert => redo_insert tm1 uo
    | UndoManager.CmdDelete => redo_delete tm1 uo
    end
  else Ok tm.

(** [TreeManager.key_ctrl_z], [TreeManager.key_shift_ctrl_z] *)
Definition key_ctrl_z (tm : t) : res t :=
  let* tm1 := undo tm in Ok (set_changed tm1 true).
Definition key_shift_ctrl_z (tm : t) : res t :=
  let* tm1 := redo tm in Ok (set_changed tm1 true).

End Methods.

(** *** File operations *)

(** [text.replace("\r\n", "\r")] and [text.replace("\n", "\r")] *)
Definition LF : ascii := Ascii.ascii_of_nat 10.

(** The delimiter [export_unipycation] puts around a language box. *)
Definition triple_quote : string :=
  let q := Ascii.ascii_of_nat 34 in String q (String q (String q EmptyString)).

Fixpoint replace_crlf (s : string) : string :=
  match s with
  | EmptyString => EmptyString
  | String c rest =>
      match rest with
      | String d rest' =>
          if Ascii.eqb c Py.CR && Ascii.eqb d LF
          then String Py.CR (replace_crlf rest')
          else String c (replace_crlf rest)
      | EmptyString => String c EmptyString
      end
  end.

Fixpoint replace_lf (s : string) : string :=
  match s with
  | EmptyString => EmptyString
  | String c rest =>
      String (if Ascii.eqb c LF then Py.CR else c) (replace_lf rest)
  end.

Section FileOperations.

Variable fuel : nat.

(** [lexer.relex_import(node)] and [parser.inc_parse()] of the
    collaborators. *)
Variable lexer_relex_import : Binding -> NodeId -> Heap -> Heap.
Variable inc_parse : Binding -> Heap -> Heap.

(** [TreeManager.import_file(text)] *)
Definition import_file (tm : t) (txt : string) : res t :=
  let* b0 := get_bos tm in
  let tm := set_cursor tm {| Cursor.node := b0; Cursor.pos := 0; Cursor.line := 0 |} in
  let txt := replace_lf (replace_crlf txt) in
  let* main := Py.index (parsers tm) 0 in
  let* bos := children_first (heap tm) (parser_root main) in
  let '(h1, new) := alloc (heap tm) (terminal_node txt) in
  let* h2 := insert_after h1 bos new in
  let* _ := get_root h2 new in
  let tm := set_heap tm (lexer_relex_import main new h2) in
  let* tm := rescan_linebreaks fuel tm 0 in
  let* tm := repair_all_loop fuel (length (lines tm)) tm 0 in
  let* r := get_root (heap tm) bos in
  let* tm := match get_parser tm r with
             | Some parser => Ok (set_heap tm (inc_parse parser (heap tm)))
             | None => Raise AttributeError
             end in
  Ok (set_changed tm true).

(** The loop of [export_unipycation] that collects [output]. *)
Fixpoint export_loop (k : nat) (tm : t) (i : NodeId) : res (list string) :=
  match k with
  | O => Raise OutOfFuel
  | S k' =>
      let* n := get (heap tm) i in
      if is_Indentation n then
        let* j := deref (next_term n) in export_loop k' tm j
      else if is_Magic n then
        let* r := match ast (symbol n) with
                  | Some r => Ok r
                  | None => Raise AttributeError
                  end in
        let* b := children_first (heap tm) r in
        let* nb := get (heap tm) b in
        let* j := deref (next_term nb) in
        let* rest := export_loop k' tm j in
        Ok (triple_quote :: rest)
      else if is_EOS n then
        let* lbox := get_languagebox tm i in
        match lbox with
        | Some l =>
            let* nl := get (heap tm) l in
            let* j := deref (next_term nl) in
            let* rest := export_loop k' tm j in
            Ok (triple_quote :: rest)
        | None => Ok []
        end
      else
        let* j := deref (next_term n) in
        let* rest := export_loop k' tm j in
        Ok (name (symbol n) :: rest)
  end.

(** The text [export_unipycation] writes to its file:
    ["".join(output)]. *)
Definition export_output (tm : t) : res string :=
  let* l := Py.index (lines tm) 0 in
  let* out := export_loop fuel tm (Line.node l) in
  Ok (fold_right String.append EmptyString out).




End FileOperations.

(** [TreeManager.__init__]; the cursor and the selection exist only
    once the first parser is added, which overwrites the values given
    here. *)
Definition init (h : Heap) : t :=
  let c := {| Cursor.node := 0%nat; Cursor.pos := 0; Cursor.line := 0 |} in
  {| heap := h; lines := []; mainroot := None; cursor := c;
     selection_start := c; selection_end := c; parsers := [];
     edit_rightnode := false; undomanager := UndoManager.init; changed := false;
     last_search := ""; last_delchar := None |}.

(** *** Further keys, search and the clipboard *)

(** [s.find(sub)]: the lowest index where [sub] occurs in [s], or -1. *)
Definition str_find (s sub : string) : Z :=
  match String.index 0 sub s with
  | Some i => Z.of_nat i
  | None => -1
  end.

(** [s[a:b]] on strings. *)
Definition str_slice (s : string) (a b : Z) : string :=
  let i := Py.slice_index (String.length s) a in
  let j := Py.slice_index (String.length s) b in
  String.substring i (j - i) s.

(** [text.count("\r")] *)
Fixpoint count_cr (s : string) : Z :=
  match s with
  | EmptyString => 0
  | String c rest => (if Ascii.eqb c Py.CR then 1 else 0) + count_cr rest
  end.

Definition set_last_search (tm : t) (s : string) : t :=
  {| heap := heap tm; lines := lines tm; mainroot := mainroot tm; cursor := cursor tm;
     selection_start := selection_start tm; selection_end := selection_end tm;
     parsers := parsers tm; edit_rightnode := edit_rightnode tm;
     undomanager := undomanager tm; changed := changed tm;
     last_search := s; last_delchar := last_delchar tm |}.

(** [TreeManager.get_node_from_cursor], [get_selected_node] *)
Definition get_node_from_cursor (tm : t) : NodeId := Cursor.node (cursor tm).
Definition get_selected_node (tm : t) : NodeId := get_node_from_cursor tm.

(** [TreeManager.key_shift] *)
Definition key_shift (tm : t) : t :=
  set_selection tm (Cursor.copy (cursor tm)) (Cursor.copy (cursor tm)).

(** [TreeManager.key_escape] *)
Definition key_escape (tm : t) : res t :=
  let node := get_selected_node tm in
  let* n := get (heap tm) node in
  if plain_mode n
  then Ok (set_heap tm (set_node (heap tm) node (with_plain_mode n false)))
  else Ok tm.

(** [TreeManager.key_home(shift)] *)
Definition key_home (tm : t) (shift : bool) : res t :=
  let tm := unselect tm in
  let* l := Py.index (lines tm) (Cursor.line (cursor tm)) in
  let* n := get (heap tm) (Line.node l) in
  let c := {| Cursor.node := Line.node l; Cursor.pos := Cursor.name_len n;
              Cursor.line := Cursor.line (cursor tm) |} in
  let tm := set_cursor tm c in
  if shift
  then Ok (set_selection tm (selection_start tm) (Cursor.copy (cursor tm)))
  else Ok tm.

Section MoreMethods.

Variable fuel : nat.
Variable image_w : Node -> Z.
Variable lexer_relex : Binding -> NodeId -> Heap -> Heap.
Variable inc_parse : Binding -> Heap -> Heap.

(** [TreeManager.key_end(shift)] *)
Definition key_end (tm : t) (shift : bool) : res t :=
  let tm := unselect tm in
  let* anchor :=
    (if Cursor.line (cursor tm) <? Z.of_nat (length (lines tm)) - 1
     then let* l := Py.index (lines tm) (Cursor.line (cursor tm) + 1) in
          Ok (Line.node l)
     else let* mr := match mainroot tm with
                     | Some r => Ok r
                     | None => Raise AttributeError
                     end in
          children_last (heap tm) mr) in
  let* i := Cursor.find_previous_visible fuel (heap tm) anchor in
  let* n := get (heap tm) i in
  let c := {| Cursor.node := i; Cursor.pos := Cursor.name_len n;
              Cursor.line := Cursor.line (cursor tm) |} in
  let tm := set_cursor tm c in
  if shift
  then Ok (set_selection tm (selection_start tm) (Cursor.copy (cursor tm)))
  else Ok tm.

(** [TreeManager.cursor_reset] *)
Definition cursor_reset (tm : t) : res t :=
  let* c := Cursor.move_to_x fuel image_w (heap tm)
              (Cursor.with_line (cursor tm) 0) 0 (lines tm) in
  Ok (set_cursor tm c).

(** The loop [while node is not self.cursor.node] of [find_text];
    [Some (node, index, line)] is the exit by [break]. *)
Fixpoint find_text_loop (k : nat) (tm : t) (txt : string) (i : NodeId) (line : Z)
  : res (option (NodeId * Z * Z)) :=
  match k with
  | O => Raise OutOfFuel
  | S k' =>
      if Nat.eqb i (Cursor.node (cursor tm)) then Ok None
      else
        let* n := get (heap tm) i in
        let* '(i, n, line) :=
          (if is_EOS n
           then let* b := get_bos tm in
                let* nb := get (heap tm) b in
                Ok (b, nb, 0)
           else Ok (i, n, line)) in
        let index := str_find (name (symbol n)) txt in
        if -1 <? index then Ok (Some (i, index, line))
        else
          let line := if is_return n then line + 1 else line in
          let* j := deref (next_term n) in
          find_text_loop k' tm txt j line
  end.

(** [TreeManager.find_text(text)] *)
Definition find_text (tm : t) (txt : string) : res t :=
  let* n0 := get (heap tm) (Cursor.node (cursor tm)) in
  let* i := deref (next_term n0) in
  let* r := find_text_loop fuel tm txt i (Cursor.line (cursor tm)) in
  let tm1 :=
    match r with
    | Some (node, index, line) =>
        let c := {| Cursor.node := node; Cursor.pos := index; Cursor.line := line |} in
        let c2 := Cursor.with_pos c (index + Py.len txt) in
        set_selection (set_cursor tm c2) (Cursor.copy c) (Cursor.copy c2)
    | None => tm
    end in
  Ok (set_last_search tm1 txt).

(** [TreeManager.find_next] *)
Definition find_next (tm : t) : res t :=
  if negb (String.eqb (last_search tm) "") then find_text tm (last_search tm)
  else Ok tm.

(** [nodes.pop(0)] and [nodes.pop(-1)] *)
Definition pop_first {A} (l : list A) : res (A * list A) :=
  match l with
  | a :: l' => Ok (a, l')
  | [] => Raise IndexError
  end.
Definition pop_last {A} (l : list A) : res (A * list A) :=
  match rev l with
  | a :: l' => Ok (a, rev l')
  | [] => Raise IndexError
  end.

(** [[node.symbol.name for node in nodes]] *)
Fixpoint names_of (h : Heap) (l : list NodeId) : res (list string) :=
  match l with
  | [] => Ok []
  | i :: rest =>
      let* n := get h i in
      let* names := names_of h rest in
      Ok (name (symbol n) :: names)
  end.

(** The nodes of [l] that are no indentation markers. *)
Fixpoint without_markers (h : Heap) (l : list NodeId) : res (list NodeId) :=
  match l with
  | [] => Ok []
  | i :: rest =>
      let* n := get h i in
      let* rest' := without_markers h rest in
      Ok (if is_Indentation n then rest' else i :: rest')
  end.

(** [TreeManager.copySelection]; the result [None] is Python's. *)
Definition copySelection (tm : t) : res (option string) :=
  let* result := get_nodes_from_selection fuel image_w tm in
  match result with
  | None => Ok None
  | Some (nodes, diff_start, diff_end) =>
      if Nat.eqb (length nodes) 1 then
        let* first := Py.index nodes 0 in
        let* n := get (heap tm) first in
        Ok (Some (str_slice (name (symbol n)) diff_start diff_end))
      else
        let* nodes := without_markers (heap tm) nodes in
        let* '(start, nodes) := pop_first nodes in
        let* '(end_, nodes) := pop_last nodes in
        let* ns := get (heap tm) start in
        let* middle := names_of (heap tm) nodes in
        let* ne := get (heap tm) end_ in
        Ok (Some (fold_right String.append EmptyString
                    (Py.str_from (name (symbol ns)) diff_start :: middle
                     ++ [Py.str_to (name (symbol ne)) diff_end])))
  end.

(** [TreeManager.cutSelection] *)
Definition cutSelection (tm : t) : res (t * option string) :=
  if hasSelection tm then
    let* text := copySelection tm in
    let* tm1 := deleteSelection fuel image_w lexer_relex tm in
    Ok (set_changed tm1 true, text)
  else Ok (tm, None).

(** [TreeManager.pasteText(text)] *)
Definition pasteText (tm : t) (txt : string) : res t :=
  let* _ := Cursor.get_x fuel image_w (heap tm) (cursor tm) in
  let node := get_node_from_cursor tm in
  let* _ := get (heap tm) node in
  let* tm := (if hasSelection tm then deleteSelection fuel image_w lexer_relex tm
              else Ok tm) in
  let txt := replace_lf (replace_crlf txt) in
  let* ins := Cursor.inside (heap tm) (cursor tm) in
  let* '(tm, node) :=
    (if ins then
       let* h1 := insert (heap tm) node txt (Cursor.pos (cursor tm)) in
       Ok (set_cursor (set_heap tm h1)
             (Cursor.with_pos (cursor tm) (Cursor.pos (cursor tm) + Py.len txt)), node)
     else
       let* n := get (heap tm) node in
       let* '(tm1, node1, p) :=
         (if is_BOS n || is_return n || is_Magic n then
            let '(h0, newnode) := alloc (heap tm) (terminal_node "") in
            let* h1 := insert_after h0 node newnode in
            Ok (set_cursor (set_heap tm h1) (Cursor.with_pos (cursor tm) (Py.len txt)),
                newnode, 0)
          else
            Ok (set_cursor tm
                  (Cursor.with_pos (cursor tm) (Cursor.pos (cursor tm) + Py.len txt)),
                node, Cursor.name_len n)) in
       let* h2 := insert (heap tm1) node1 txt p in
       Ok (set_cursor (set_heap tm1 h2) (Cursor.with_node (cursor tm1) node1), node1)) in
  let* tm := relex lexer_relex tm node in
  let* tm := post_keypress fuel tm "" in
  let* tm := reparse inc_parse tm node in
  let* c := Cursor.fix_ fuel (heap tm) (cursor tm) in
  let tm := set_cursor tm (Cursor.with_line c (Cursor.line c + count_cr txt)) in
  Ok (set_changed tm true).

End MoreMethods.

End TreeManager.

(** ** A worked instance

    A concrete lexer and parser stand in for the collaborators, so that
    the editor can be run on small documents. *)

Module Demo.

(** A small lexer for the worked examples: a line break is a token of
    its own, a run of spaces is a whitespace token, any other run of
    characters is one token. *)
Inductive CharClass : Set := CReturn | CSpace | COther.

Definition classify (c : ascii) : CharClass :=
  if Ascii.eqb c Py.CR then CReturn
  else if Ascii.eqb c " " then CSpace else COther.

Definition same_run (a b : CharClass) : bool :=
  match a, b with
  | CSpace, CSpace | COther, COther => true
  | _, _ => false
  end.

Definition lookup_of (c : CharClass) : string :=
  match c with
  | CReturn => "<return>"
  | CSpace => "<ws>"
  | COther => ""
  end.

(** [tokenize s cur]: the tokens of [s], after the token [cur] that is
    being read. *)
Fixpoint tokenize (s : string) (cur : option (CharClass * string))
  : list (CharClass * string) :=
  match s with
  | EmptyString => match cur with Some t => [t] | None => [] end
  | String c rest =>
      let k := classify c in
      match cur with
      | Some (k', txt) =>
          if same_run k' k
          then tokenize rest (Some (k', String.append txt (String c EmptyString)))
          else (k', txt) :: tokenize rest (Some (k, String c EmptyString))
      | None => tokenize rest (Some (k, String c EmptyString))
      end
  end.

Definition with_token (n : Node) (t : CharClass * string) : Node :=
  {| nclass := nclass n;
     symbol := {| sclass := sclass (symbol n); name := snd t; ast := ast (symbol n) |};
     next_term := next_term n; prev_term := prev_term n; parent := parent n;
     lookup := lookup_of (fst t); image := image n; plain_mode := plain_mode n;
     deleted := deleted n |}.

(** The tokens after the first become new nodes, in order, after [i]. *)
Fixpoint insert_tokens (h : Heap) (i : NodeId) (ts : list (CharClass * string)) : Heap :=
  match ts with
  | [] => h
  | t :: rest =>
      let '(h1, j) := alloc h (with_token (TreeManager.terminal_node "") t) in
      match insert_after h1 i j with
      | Ok h2 => insert_tokens h2 j rest
      | Raise _ => h
      end
  end.

(** [lexer.relex(node)]: the text of the node is cut into tokens. *)
Definition relex (_ : TreeManager.Binding) (i : NodeId) (h : Heap) : Heap :=
  match nodes h !! i with
  | Some n =>
      if Cursor.is_visible n then
        match tokenize (name (symbol n)) None with
        | [] => h
        | t :: rest => insert_tokens (set_node h i (with_token n t)) i rest
        end
      else h
  | None => h
  end.

(** [parser.inc_parse()]: the chain is left as it is. *)
Definition inc_parse (_ : TreeManager.Binding) (h : Heap) : Heap := h.

Definition image_w (_ : Node) : Z := 0.

Definition fuel : nat := 40.

Definition python : TreeManager.Binding :=
  {| TreeManager.parser_root := 0%nat; TreeManager.is_indentation_based := true;
     TreeManager.language := "Python" |}.

(** An empty document in an indentation-based language. *)
Definition new_document : res TreeManager.t :=
  let '(h, _) := init_ast {| nodes := []; roots := [] |} None in
  TreeManager.add_parser inc_parse (TreeManager.init h) python.

Definition key_normal (txt : string) (tm : TreeManager.t) : res TreeManager.t :=
  let* '(tm', _) := TreeManager.key_normal fuel image_w relex inc_parse tm txt true in
  Ok tm'.
Definition key_backspace (tm : TreeManager.t) : res TreeManager.t :=
  TreeManager.key_backspace fuel image_w relex inc_parse tm true.
Definition key_delete (tm : TreeManager.t) : res TreeManager.t :=
  TreeManager.key_delete fuel image_w relex inc_parse tm true.
Definition undo (tm : TreeManager.t) : res TreeManager.t :=
  TreeManager.key_ctrl_z fuel image_w relex inc_parse tm.
Definition redo (tm : TreeManager.t) : res TreeManager.t :=
  TreeManager.key_shift_ctrl_z fuel image_w relex inc_parse tm.

Definition add_languagebox (lang : string) (tm : TreeManager.t) : res TreeManager.t :=
  TreeManager.add_languagebox relex inc_parse tm lang false.
Definition import_file (txt : string) (tm : TreeManager.t) : res TreeManager.t :=
  TreeManager.import_file fuel relex inc_parse tm txt.
Definition export_output (tm : TreeManager.t) : res string :=
  TreeManager.export_output fuel tm.

(** Typing a text, one key at a time. *)
Fixpoint type (s : string) (tm : TreeManager.t) : res TreeManager.t :=
  match s with
  | EmptyString => Ok tm
  | String c rest => let* tm1 := key_normal (String c EmptyString) tm in type rest tm1
  end.

Definition key_cursors (key : TreeManager.Key) (tm : TreeManager.t) : res TreeManager.t :=
  TreeManager.key_cursors fuel image_w tm key false.

(** The manager a run of the editor ends in. *)
Definition run (r : res TreeManager.t) : TreeManager.t :=
  match r with
  | Ok tm => tm
  | Raise _ => TreeManager.init {| nodes := []; roots := [] |}
  end.

(** The text ["ab"] typed into an empty document; the cursor is behind
    the [b]. *)
Definition doc_ab : TreeManager.t :=
  run (let* tm := new_document in type "ab" tm).

(** The same document with the cursor moved left twice, onto the
    start sentinel. *)
Definition doc_ab_home : TreeManager.t :=
  run (let* tm := key_cursors TreeManager.KeyLeft doc_ab in
       key_cursors TreeManager.KeyLeft tm).

(** An empty document that received a key press with an empty text:
    an empty text node sits between the sentinels. *)
Definition doc_empty_node : TreeManager.t :=
  run (let* tm := new_document in key_normal "" tm).

(** The text ["ab"], then a language box that holds the single
    character ["x"]; the cursor stands behind ["ab"], in front of the
    box. *)
Definition doc_box_x : TreeManager.t :=
  run (let* tm := add_languagebox "SQL" doc_ab in
       let* tm := type "x" tm in
       key_cursors TreeManager.KeyLeft tm).

(** A file of five lines with 0, 2, 0, 4 and 2 leading blanks, imported
    into an empty document. *)
Definition dedent_text : string :=
  let nl := String TreeManager.LF EmptyString in
  String.append "a" (String.append nl (String.append "  b" (String.append nl
    (String.append "c" (String.append nl (String.append "    d" (String.append nl
      "  e"))))))).

Definition doc_dedent : TreeManager.t :=
  run (let* tm := new_document in import_file dedent_text tm).



(** The text ["a"], and the text ["a "], typed into an empty
    document. *)
Definition doc_a : TreeManager.t := run (let* tm := new_document in type "a" tm).
Definition doc_a_space : TreeManager.t := run (type " " doc_a).

(** The undo log after typing ["a"] at the start of a document. *)
Definition typed_a : UndoManager.t :=
  {| UndoManager.stack := [UndoManager.UndoObject_init UndoManager.CmdInsert "a" 0 0];
     UndoManager.pos := 0;
     UndoManager.mode := UndoManager.ModeCmd UndoManager.CmdInsert |}.

(** The undo log after [n] spaces typed at the start of a document:
    each is an entry of its own. *)
Definition spaces_typed (n : nat) : UndoManager.t :=
  {| UndoManager.stack :=
       repeat (UndoManager.UndoObject_init UndoManager.CmdInsert " " 0 0) n;
     UndoManager.pos := Z.of_nat n - 1;
     UndoManager.mode :=
       match n with
       | O => UndoManager.ModeNew
       | S _ => UndoManager.ModeCmd UndoManager.CmdInsert
       end |}.

End Demo.

(** ** Predicates used in the statements *)

Module Statements.

(** The reference [i] denotes a node of the store. *)
Definition valid (h : Heap) (i : NodeId) : Prop := (i < length (nodes h))%nat.

(** A sentinel of a root that no language box embeds. *)
Definition outermost_sentinel (h : Heap) (j : NodeId) (n : Node) : Prop :=
  (is_BOS n = true \/ is_EOS n = true)
  /\ exists r, get_root h j = Ok r /\ get_magicterminal h r = Ok None.





(** Two managers with the same store whose line records are anchored
    at the same nodes. *)
Definition same_anchors (tm tm' : TreeManager.t) : Prop :=
  TreeManager.heap tm' = TreeManager.heap tm
  /\ map Line.node (TreeManager.lines tm') = map Line.node (TreeManager.lines tm).

(** Line [j] is anchored in root [r]. *)
Definition line_root (tm : TreeManager.t) (j : Z) (r : RootId) : Prop :=
  exists l, TreeManager.lines tm !! Z.to_nat j = Some l
            /\ get_root (TreeManager.heap tm) (Line.node l) = Ok r.

(** The backward scan for a line with [w] leading blanks passes line
    [i]: it is not logical, or it has more leading whitespace than
    [w]. *)
Definition passed (fuel : nat) (tm : TreeManager.t) (w i : Z) : Prop :=
  TreeManager.get_indentation fuel tm i = Ok None
  \/ exists v, TreeManager.get_indentation fuel tm i = Ok (Some v) /\ w < v.

(** No line strictly between [dy] and [y] is a logical line of root
    [root]: [dy] is the nearest one before [y]. *)
Definition none_between (fuel : nat) (tm : TreeManager.t) (root : RootId) (dy y : Z)
  : Prop :=
  forall j, dy < j < y ->
    exists rj bj, line_root tm j rj
                  /\ TreeManager.is_logical_line fuel tm j = Ok bj
                  /\ (bj = false \/ rj <> root).


(** The binding table and the cursor are the same in both managers. *)
Definition frame (tm tm' : TreeManager.t) : Prop :=
  TreeManager.parsers tm' = TreeManager.parsers tm
  /\ TreeManager.cursor tm' = TreeManager.cursor tm.

(** A burst of edits of one kind: [add] is called for each text in
    turn, with the column and the line of the cursor after that
    edit. *)
Fixpoint add_all (c : UndoManager.Cmd) (items : list (string * Z * Z))
    (um : UndoManager.t) : res UndoManager.t :=
  match items with
  | [] => Ok um
  | (txt, x, line) :: rest =>
      let* um1 := UndoManager.add c txt x line um in
      add_all c rest um1
  end.

(** The entry a burst leaves: the entry of its first edit, extended by
    each later one. *)
Definition burst_entry (c : UndoManager.Cmd) (txt : string) (x line : Z)
    (rest : list (string * Z * Z)) : UndoManager.UndoObject :=
  fold_left (fun uo '(t, x', l') => UndoManager.extend uo t x' l') rest
    (UndoManager.new_entry c txt x line).

(** What indentation repair does not write of a line record: its
    anchor, its height and its width. *)
Definition unrepaired (l : Line.t) : NodeId * Z * Z :=
  (Line.node l, Line.height l, Line.width l).

(** Between the two managers only the node store and the [indent] and
    [ws] of line records may differ: there are as many line records,
    each with the same anchor, height and width, and cursor, selection,
    table of parsers, main root, undo log, flags, last deleted
    character and last search are the same. *)
Definition only_repaired (tm tm' : TreeManager.t) : Prop :=
  map unrepaired (TreeManager.lines tm') = map unrepaired (TreeManager.lines tm)
  /\ TreeManager.parsers tm' = TreeManager.parsers tm
  /\ TreeManager.cursor tm' = TreeManager.cursor tm
  /\ TreeManager.selection_start tm' = TreeManager.selection_start tm
  /\ TreeManager.selection_end tm' = TreeManager.selection_end tm
  /\ TreeManager.mainroot tm' = TreeManager.mainroot tm
  /\ TreeManager.undomanager tm' = TreeManager.undomanager tm
  /\ TreeManager.changed tm' = TreeManager.changed tm
  /\ TreeManager.edit_rightnode tm' = TreeManager.edit_rightnode tm
  /\ TreeManager.last_delchar tm' = TreeManager.last_delchar tm
  /\ TreeManager.last_search tm' = TreeManager.last_search tm.

(** Where a cursor movement from [c] can end: on the same line, and
    either where it was, or on a visible node or a sentinel of a root
    that no language box embeds. *)
Definition landed (h : Heap) (c c' : Cursor.t) : Prop :=
  Cursor.line c' = Cursor.line c
  /\ (c' = c
      \/ exists n, get h (Cursor.node c') = Ok n
                   /\ (Cursor.is_visible n = true
                       \/ outermost_sentinel h (Cursor.node c') n)).

(** The length of the text of node [i], and of a run of nodes. *)
Definition text_len (h : Heap) (i : NodeId) : Z :=
  match nodes h !! i with
  | Some n => Cursor.name_len n
  | None => 0
  end.

Definition width (h : Heap) (ids : list NodeId) : Z :=
  foldr Z.add 0 (map (text_len h) ids).

(** A line of plain text: behind the anchor [a] of the line (a line
    break or a start sentinel) the visible nodes are [vs], in this
    order, each the next visible node of the one before and the
    other way round; none of them is a line break or shows an
    image. *)
Definition flat_line (fuel : nat) (h : Heap) (a : NodeId) (vs : list NodeId) : Prop :=
  (exists na, get h a = Ok na /\ is_return na || is_BOS na = true)
  /\ forall i u v,
       (a :: vs) !! i = Some u -> vs !! i = Some v ->
       Cursor.find_next_visible fuel h u = Ok v
       /\ Cursor.find_previous_visible fuel h v = Ok u
       /\ u <> v
       /\ exists nv, get h v = Ok nv
                     /\ is_return nv = false /\ is_BOS nv = false /\ is_EOS nv = false
                     /\ Cursor.shows_image nv = false.

(** The backward scan of [update_indentation_backwards] for a line of
    root [root] with leading whitespace [ws] steps over line [j]: the
    line is not logical, or it is anchored in another root, or (with
    [more]) it has more leading whitespace than [ws]. *)
Definition scan_skips (fuel : nat) (tm : TreeManager.t) (root : RootId)
    (ws : option Z) (more : bool) (j : Z) : Prop :=
  TreeManager.is_logical_line fuel tm j = Ok false
  \/ (exists lj rj,
        Py.index (TreeManager.lines tm) j = Ok lj
        /\ get_root (TreeManager.heap tm) (Line.node lj) = Ok rj /\ rj <> root)
  \/ (more = true
      /\ exists pj, TreeManager.get_indentation fuel tm j = Ok pj /\ Py.lt2 ws pj = true).

(** The links of node [i], when it is in the store. *)
Definition next_of (h : Heap) (i : NodeId) : option NodeId :=
  match nodes h !! i with
  | Some n => next_term n
  | None => None
  end.
Definition prev_of (h : Heap) (i : NodeId) : option NodeId :=
  match nodes h !! i with
  | Some n => prev_term n
  | None => None
  end.

(** Node [j] follows node [i] in the chain, and both links say so. *)
Definition linked (h : Heap) (i j : NodeId) : Prop :=
  next_of h i = Some j /\ prev_of h j = Some i.

(** The nodes of [l] follow each other in the chain. *)
Fixpoint chain (h : Heap) (l : list NodeId) : Prop :=
  match l with
  | i :: t => match t with
              | j :: _ => linked h i j /\ chain h t
              | [] => True
              end
  | [] => True
  end.

(** Node [m] is an indentation marker with the name [s]; node [i] is
    in the store and is no indentation marker. *)
Definition marker_named (h : Heap) (m : NodeId) (s : string) : Prop :=
  exists n, get h m = Ok n /\ is_Indentation n = true /\ name (symbol n) = s.
Definition no_marker (h : Heap) (i : NodeId) : Prop :=
  exists n, get h i = Ok n /\ is_Indentation n = false.

(** Behind node [i] the chain reads the indentation markers [ms], each
    met once, and then the node [stop], which is no marker. *)
Definition marker_run (h : Heap) (i : NodeId) (ms : list NodeId) (stop : NodeId) : Prop :=
  chain h (i :: ms ++ [stop])
  /\ List.NoDup (i :: ms ++ [stop])
  /\ (forall m, In m ms -> exists s, marker_named h m s)
  /\ no_marker h stop.

(** Behind node [i] the chain reads indentation markers with the names
    [names], in this order, and then the node [stop], which is no
    marker. *)
Definition markers_behind (h : Heap) (i : NodeId) (names : list string) (stop : NodeId)
  : Prop :=
  exists ms, marker_run h i ms stop /\ Forall2 (marker_named h) ms names.

(** The store [h'] has every node of [h], with the same class, symbol,
    token type and owner, and the same roots. *)
Definition same_kind (h h' : Heap) : Prop :=
  roots h' = roots h
  /\ forall i n, get h i = Ok n ->
       exists n', get h' i = Ok n' /\ nclass n' = nclass n /\ symbol n' = symbol n
                  /\ lookup n' = lookup n /\ parent n' = parent n.

(** The end of the chain of root [root], for the repair of its last
    line: the end sentinel [e], the markers [tail] before it and the
    node [p] before them, which is no marker; they are apart from the
    line break [nl] and the markers [old] behind it, and [e] is not
    the node [stop] behind those. *)
Definition tail_run (h : Heap) (root : RootId) (nl : NodeId) (old : list NodeId)
    (stop p : NodeId) (tail : list NodeId) (e : NodeId) : Prop :=
  children_last h root = Ok e
  /\ (exists ne, get h e = Ok ne /\ is_EOS ne = true)
  /\ marker_run h p tail e /\ no_marker h p
  /\ p <> nl /\ e <> nl /\ e <> stop /\ ~ In nl tail
  /\ (forall x, In x old -> ~ In x tail).

End Statements.

Import Statements.

(** * Properties *)

(** Case analysis on the outcome of one step of a computation in [res]. *)
Ltac step_res H :=
  match type of H with
  | Py.bind ?m _ = _ =>
      let E := fresh "E" in
      destruct m eqn:E; cbn [Py.bind] in H; [|discriminate H]
  end.

(** ** The undo log *)

Section UndoLog.

Import UndoManager.

Lemma index_last {A} (l : list A) (a : A) : Py.index (l ++ [a]) (-1) = Ok a.
Proof.
  unfold Py.index. rewrite length_app. cbn [length].
  replace (Z.of_nat (length l + 1) + -1) with (Z.of_nat (length l)) by lia.
  cbn [Z.ltb Z.compare].
  destruct (Z.ltb_spec (Z.of_nat (length l)) 0) as [H|H]; [lia|].
  rewrite Nat2Z.id.
  rewrite lookup_app_r by lia. now rewrite Nat.sub_diag.
Qed.

Lemma set_index_last {A} (l : list A) (a b : A) :
  Py.set_index (l ++ [a]) (-1) b = l ++ [b].
Proof.
  unfold Py.set_index. rewrite length_app. cbn [length].
  replace (Z.of_nat (length l + 1) + -1) with (Z.of_nat (length l)) by lia.
  cbn [Z.ltb Z.compare].
  destruct (Z.ltb_spec (Z.of_nat (length l)) 0) as [H|H]; [lia|].
  rewrite Nat2Z.id.
  rewrite insert_app_r_alt by lia. now rewrite Nat.sub_diag.
Qed.

Lemma slice_index_in_range (n : nat) (i : Z) :
  0 <= i <= Z.of_nat n -> Py.slice_index n i = Z.to_nat i.
Proof.
  intros H. unfold Py.slice_index.
  destruct (Z.ltb_spec i 0); [lia|]. f_equal. lia.
Qed.

Lemma mode_ne_false (m : Mode) (c : Cmd) : mode_ne m c = false <-> m = ModeCmd c.
Proof.
  destruct m as [|c']; cbn; [split; discriminate|].
  destruct c', c; cbn; split; intros; congruence.
Qed.

Lemma interrupts_false (txt : string) :
  interrupts txt = false <-> txt <> " "%string /\ Py.startswith_cr txt = false.
Proof.
  unfold interrupts. rewrite orb_false_iff.
  destruct (String.eqb_spec txt " "); intuition congruence.
Qed.

Lemma add_coalesce_eq um c txt x line init last :
  mode um = ModeCmd c -> interrupts txt = false ->
  stack um = init ++ [last] -> (length (stack um) <= 100)%nat ->
  add c txt x line um
  = Ok {| stack := init ++ [extend last txt x line]; pos := pos um; mode := mode um |}.
Proof.
  intros Hm Hi Hs Hl. unfold add. rewrite Hi.
  assert (mode_ne (mode um) c = false) as -> by now apply mode_ne_false.
  unfold add_coalesce. rewrite Hs, index_last. cbn [Py.bind].
  rewrite set_index_last. unfold keep_small. cbn [stack].
  rewrite Hs in Hl. rewrite length_app in *. cbn [length] in *.
  destruct (Z.ltb_spec 100 (Z.of_nat (length init + 1))); [lia|reflexivity].
Qed.

Lemma add_new_eq um c txt x line :
  (mode um = ModeCmd c /\ interrupts txt = false -> False) ->
  -1 <= pos um < Z.of_nat (length (stack um)) ->
  add c txt x line um
  = Ok (keep_small {| stack := take (Z.to_nat (pos um + 1)) (stack um)
                                ++ [new_entry c txt x line];
                      pos := pos um + 1; mode := ModeCmd c |}).
Proof.
  intros Hn Hp. unfold add.
  destruct (interrupts txt) eqn:Hi.
  - cbn [mode mode_ne Py.bind]. unfold add_new. cbn [stack pos].
    rewrite slice_index_in_range by lia. reflexivity.
  - destruct (mode_ne (mode um) c) eqn:Hm.
    + cbn [Py.bind]. unfold add_new. rewrite slice_index_in_range by lia. reflexivity.
    + apply mode_ne_false in Hm. exfalso. auto.
Qed.

Lemma wf_init : wf init.
Proof. unfold wf, init; cbn. split; [lia|]. split; [lia|]. congruence. Qed.

Lemma wf_nonempty um c :
  wf um -> mode um = ModeCmd c -> exists init last, stack um = init ++ [last].
Proof.
  intros (Hl & Hp & Hm) Hc.
  assert (mode um <> ModeNew) as Hne by congruence.
  specialize (Hm Hne).
  destruct (stack um) as [|a l] eqn:Hs using rev_ind.
  - cbn in *. lia.
  - eauto.
Qed.

Lemma wf_pushed um c txt x line :
  wf um ->
  wf (keep_small {| stack := take (Z.to_nat (pos um + 1)) (stack um)
                             ++ [new_entry c txt x line];
                    pos := pos um + 1; mode := ModeCmd c |}).
Proof.
  intros (Hl & Hp & _). unfold keep_small. cbn [stack pos mode].
  rewrite length_app, length_take. cbn [length].
  destruct (Z.ltb_spec 100 (Z.of_nat (Z.to_nat (pos um + 1) `min` length (stack um) + 1)));
    unfold wf; cbn [stack pos mode];
    rewrite ?length_drop, ?length_app, ?length_take; cbn [length].
  - split; [lia|]. split; [lia|]. intros _. lia.
  - split; [lia|]. split; [lia|]. intros _. lia.
Qed.

Lemma wf_add um c txt x line um' :
  wf um -> add c txt x line um = Ok um' -> wf um'.
Proof.
  intros Hwf Hadd.
  destruct (mode_ne (mode um) c) eqn:Hm; [|destruct (interrupts txt) eqn:Hi].
  - rewrite add_new_eq in Hadd.
    + inversion Hadd. now apply wf_pushed.
    + intros [H1 _]. apply mode_ne_false in H1. congruence.
    + apply Hwf.
  - rewrite add_new_eq in Hadd.
    + inversion Hadd. now apply wf_pushed.
    + intros [_ H2]. congruence.
    + apply Hwf.
  - apply mode_ne_false in Hm.
    destruct (wf_nonempty _ _ Hwf Hm) as (init & last & Hs).
    destruct Hwf as (Hl & Hp & Hmode).
    rewrite (add_coalesce_eq um c txt x line init last) in Hadd by auto.
    inversion Hadd; subst um'; clear Hadd. unfold wf; cbn [stack pos mode].
    rewrite Hs in *. rewrite !length_app in *. cbn [length] in *.
    split; [lia|]. split; [lia|]. exact Hmode.
Qed.

Lemma reachable_wf um : reachable um -> wf um.
Proof.
  induction 1 as [|um c txt x line um' _ IH Hadd|um _ IH|um _ IH Hp|um _ IH Hp].
  - apply wf_init.
  - eapply wf_add; eauto.
  - destruct IH as (Hl & Hp & _). unfold wf, finish; cbn [stack pos mode].
    split; [lia|]. split; [lia|]. congruence.
  - destruct IH as (Hl & Hq & _). unfold wf, finish, step_back; cbn [stack pos mode].
    split; [lia|]. split; [lia|]. congruence.
  - destruct IH as (Hl & Hq & Hm). unfold wf, step_forward; cbn [stack pos mode].
    split; [lia|]. split; [lia|]. intros H. specialize (Hm H). lia.
Qed.

(** C5.  From a fresh manager, every [add] returns with at most 100
    entries on the stack.  When the stack is full, the position is on
    its top and the edit starts a new entry, the front entry goes: the
    stack is the old one without its first entry, followed by the new
    entry, the position is incremented and decremented again, and the
    outcome is the same whatever the dropped entry was, so nothing kept
    by the manager can bring it back. *)
Theorem add_keeps_stack_small um c txt x line :
  reachable um ->
  exists um',
    add c txt x line um = Ok um'
    /\ (length (stack um') <= 100)%nat
    /\ ((length (stack um) = 100)%nat -> pos um = 99 ->
        (mode um = ModeCmd c /\ interrupts txt = false -> False) ->
        stack um' = drop 1 (stack um) ++ [new_entry c txt x line]
        /\ pos um' = pos um + 1 - 1
        /\ forall old old' rest,
             stack um = old :: rest ->
             add c txt x line {| stack := old' :: rest; pos := pos um; mode := mode um |}
             = Ok um').
Proof.
  intros Hr. pose proof (reachable_wf _ Hr) as Hwf.
  assert (exists um', add c txt x line um = Ok um') as [um' Hadd].
  { destruct (mode_ne (mode um) c) eqn:Hm; [|destruct (interrupts txt) eqn:Hi].
    - eexists. apply add_new_eq; [|apply Hwf].
      intros [H1 _]. apply mode_ne_false in H1. congruence.
    - eexists. apply add_new_eq; [|apply Hwf]. intros [_ H2]. congruence.
    - apply mode_ne_false in Hm.
      destruct (wf_nonempty _ _ Hwf Hm) as (init & last & Hs).
      eexists. apply (add_coalesce_eq um c txt x line init last); auto. apply Hwf. }
  exists um'. split; [exact Hadd|]. split; [apply (wf_add _ _ _ _ _ _ Hwf Hadd)|].
  intros Hfull Hpos Hnew.
  assert (forall st, (length st = 100)%nat ->
            add c txt x line {| stack := st; pos := pos um; mode := mode um |}
            = Ok {| stack := drop 1 st ++ [new_entry c txt x line];
                    pos := pos um + 1 - 1; mode := ModeCmd c |}) as Hgen.
  { intros st Hst. rewrite add_new_eq; cbn [stack pos mode]; [|exact Hnew|lia].
    unfold keep_small. cbn [stack pos mode].
    rewrite Hpos. change (Z.to_nat (99 + 1)) with 100%nat.
    rewrite take_ge by lia. rewrite length_app, Hst. cbn [length].
    change (100 <? Z.of_nat (100 + 1)) with true. cbn iota.
    rewrite drop_app_le by lia. reflexivity. }
  assert (um = {| stack := stack um; pos := pos um; mode := mode um |}) as Hum
    by now destruct um.
  rewrite Hum, (Hgen _ Hfull) in Hadd. inversion Hadd; subst um'; clear Hadd.
  cbn [stack pos]. split; [reflexivity|]. split; [reflexivity|].
  intros old old' rest Hs. rewrite Hgen.
  - rewrite Hs. reflexivity.
  - rewrite Hs in Hfull. exact Hfull.
Qed.

Lemma reachable_spaces_typed (n : nat) :
  (n <= 100)%nat -> reachable (Demo.spaces_typed n).
Proof.
  induction n as [|n IH]; intros Hn.
  - apply reach_init.
  - apply (reach_add (Demo.spaces_typed n) CmdInsert " " 1 0); [apply IH; lia|].
    rewrite add_new_eq.
    + unfold Demo.spaces_typed, keep_small. cbn [stack pos mode].
      replace (Z.to_nat (Z.of_nat n - 1 + 1)) with n by lia.
      rewrite take_ge by (rewrite repeat_length; lia).
      rewrite length_app, repeat_length. cbn [length].
      destruct (Z.ltb_spec 100 (Z.of_nat (n + 1))); [lia|].
      f_equal. f_equal; [|lia].
      change [new_entry CmdInsert " " 1 0]
        with (repeat (UndoObject_init CmdInsert " " 0 0) 1).
      rewrite <- repeat_app. f_equal. lia.
    + intros [_ H]. discriminate H.
    + unfold Demo.spaces_typed. cbn [stack pos]. rewrite repeat_length. lia.
Qed.

Lemma add_keeps_stack_small_witness :
  reachable (Demo.spaces_typed 100)
  /\ exists um',
      add CmdInsert " " 1 0 (Demo.spaces_typed 100) = Ok um'
      /\ (length (stack um') <= 100)%nat
      /\ stack um' = drop 1 (stack (Demo.spaces_typed 100)) ++ [new_entry CmdInsert " " 1 0]
      /\ pos um' = 99.
Proof.
  split; [apply reachable_spaces_typed; lia|].
  destruct (add_keeps_stack_small (Demo.spaces_typed 100) CmdInsert " " 1 0)
    as (um' & Hadd & Hlen & Hcap); [apply reachable_spaces_typed; lia|].
  exists um'. split; [exact Hadd|]. split; [exact Hlen|].
  destruct Hcap as (Hs & Hp & _).
  - cbn [Demo.spaces_typed stack]. apply repeat_length.
  - reflexivity.
  - intros [_ H]. discriminate H.
  - split; [exact Hs|]. rewrite Hp. reflexivity.
Defined.

(** C6.  An edit of kind [cmd] with text [t] coalesces into the last
    entry of the stack exactly when [cmd] is the current mode and [t]
    is neither a single space nor starts with a line break.  Coalescing
    replaces the last entry by one with the same command and start
    coordinates, the text followed by [t], and the cursor's column and
    line as end coordinates; the entries below, the position and the
    mode stay.  In every other case the entries after the stack
    position are deleted and a new entry is pushed on what is kept: its
    text is [t], its start column the cursor's column less (insert) or
    plus (delete) the length of [t], its end column the length of [t],
    both its lines the cursor's line; the position goes up by one, the
    mode becomes [cmd], and with more than 100 entries the first one is
    dropped and the position taken back. *)
Theorem add_coalesces_iff um c txt x line :
  reachable um ->
  (mode um = ModeCmd c /\ txt <> " "%string /\ Py.startswith_cr txt = false ->
     exists init last,
       stack um = init ++ [last]
       /\ add c txt x line um
          = Ok {| stack := init ++ [{| cmd := cmd last;
                                       text := String.append (text last) txt;
                                       x1 := x1 last; line1 := line1 last;
                                       x2 := x; line2 := line |}];
                  pos := pos um; mode := mode um |})
  /\ (~ (mode um = ModeCmd c /\ txt <> " "%string /\ Py.startswith_cr txt = false) ->
        let kept := take (Z.to_nat (pos um + 1)) (stack um) in
        let entry := {| cmd := c; text := txt;
                        x1 := match c with
                              | CmdInsert => x - Py.len txt
                              | CmdDelete => x + Py.len txt
                              end;
                        line1 := line; x2 := Py.len txt; line2 := line |} in
        add c txt x line um
        = Ok (if 100 <? Z.of_nat (length (kept ++ [entry]))
              then {| stack := drop 1 (kept ++ [entry]); pos := pos um + 1 - 1;
                      mode := ModeCmd c |}
              else {| stack := kept ++ [entry]; pos := pos um + 1;
                      mode := ModeCmd c |})).
Proof.
  intros Hr. pose proof (reachable_wf _ Hr) as Hwf. split.
  - intros (Hm & Hsp & Hcr).
    destruct (wf_nonempty _ _ Hwf Hm) as (init & last & Hs).
    exists init, last. split; [exact Hs|].
    rewrite (add_coalesce_eq um c txt x line init last); auto; [|apply Hwf].
    apply interrupts_false. auto.
  - intros Hn kept entry. rewrite add_new_eq; [|
      intros [Hm Hi]; apply Hn; apply interrupts_false in Hi; tauto | apply Hwf].
    unfold keep_small. cbn [stack pos mode].
    change (new_entry c txt x line) with entry. fold kept.
    destruct (100 <? Z.of_nat (length (kept ++ [entry]))); reflexivity.
Qed.

Lemma reachable_typed_a : reachable Demo.typed_a.
Proof. apply (reach_add init CmdInsert "a" 1 0); [apply reach_init|reflexivity]. Qed.

Lemma add_coalesces_iff_witness :
  reachable Demo.typed_a
  /\ add CmdInsert "b" 2 0 Demo.typed_a
     = Ok {| stack := [{| cmd := CmdInsert; text := "ab"; x1 := 0; line1 := 0;
                          x2 := 2; line2 := 0 |}];
             pos := 0; mode := ModeCmd CmdInsert |}
  /\ add CmdDelete "b" 0 0 Demo.typed_a
     = Ok {| stack := [{| cmd := CmdInsert; text := "a"; x1 := 0; line1 := 0;
                          x2 := 1; line2 := 0 |};
                       {| cmd := CmdDelete; text := "b"; x1 := 1; line1 := 0;
                          x2 := 1; line2 := 0 |}];
             pos := 1; mode := ModeCmd CmdDelete |}.
Proof.
  split; [apply reachable_typed_a|]. split.
  - destruct (add_coalesces_iff Demo.typed_a CmdInsert "b" 2 0 reachable_typed_a)
      as [Hco _].
    destruct Hco as (init & last & Hs & Hadd).
    + split; [reflexivity|]. split; [discriminate|reflexivity].
    + rewrite Hadd.
      change (stack Demo.typed_a) with ([] ++ [UndoObject_init CmdInsert "a" 0 0]) in Hs.
      apply app_inj_tail in Hs. destruct Hs as [<- <-]. reflexivity.
  - destruct (add_coalesces_iff Demo.typed_a CmdDelete "b" 0 0 reachable_typed_a)
      as [_ Hnew].
    rewrite Hnew; [reflexivity|].
    intros [Hm _]. discriminate Hm.
Defined.

End UndoLog.

(** ** Early returns of the delete keys *)

Section EarlyReturns.

Import TreeManager.

Variable fuel : nat.
Variable image_w : Node -> Z.
Variable lexer_relex : Binding -> NodeId -> Heap -> Heap.
Variable inc_parse : Binding -> Heap -> Heap.

(** C7.  With the cursor on the start sentinel of the main root,
    [key_backspace] returns the manager it was given: node store, line
    records and undo log are the ones before the call. *)
Theorem key_backspace_at_document_start tm undo_mode r b :
  mainroot tm = Some r ->
  children_first (heap tm) r = Ok b ->
  Cursor.node (cursor tm) = b ->
  key_backspace fuel image_w lexer_relex inc_parse tm undo_mode = Ok tm.
Proof.
  intros Hr Hb Hc. unfold key_backspace.
  rewrite Hr. cbn [Py.bind]. rewrite Hb. cbn [Py.bind].
  rewrite Hc, Nat.eqb_refl. reflexivity.
Qed.

Lemma find_next_visible_fuel h i e :
  Cursor.find_next_visible fuel h i = Ok e -> exists k, fuel = S k.
Proof.
  destruct fuel as [|k]; [|eauto]. unfold Cursor.find_next_visible. intros H.
  step_res H. step_res H. discriminate H.
Qed.

(** C10.  With no selection and the cursor at a node boundary from
    which the next visible node is an end sentinel whose root has no
    enclosing language box, [key_delete] returns the manager it was
    given. *)
Theorem key_delete_at_document_end tm undo_mode e ne :
  hasSelection tm = false ->
  Cursor.inside (heap tm) (cursor tm) = Ok false ->
  Cursor.find_next_visible fuel (heap tm) (Cursor.node (cursor tm)) = Ok e ->
  get (heap tm) e = Ok ne ->
  is_EOS ne = true ->
  get_languagebox tm e = Ok None ->
  key_delete fuel image_w lexer_relex inc_parse tm undo_mode = Ok tm.
Proof.
  intros Hsel Hin Hnext He Heos Hbox.
  destruct (find_next_visible_fuel _ _ _ Hnext) as [k Hk].
  unfold key_delete. rewrite Hk. cbn [key_delete_rec]. rewrite <- Hk.
  rewrite Hsel, Hin. cbn [Py.bind]. rewrite Hnext. cbn [Py.bind].
  rewrite He. cbn [Py.bind]. rewrite Heos, Hbox. reflexivity.
Qed.

End EarlyReturns.

Lemma key_backspace_at_document_start_witness :
  TreeManager.mainroot Demo.doc_ab_home = Some 0%nat
  /\ children_first (TreeManager.heap Demo.doc_ab_home) 0%nat = Ok 0%nat
  /\ Cursor.node (TreeManager.cursor Demo.doc_ab_home) = 0%nat
  /\ TreeManager.key_backspace Demo.fuel Demo.image_w Demo.relex Demo.inc_parse
       Demo.doc_ab_home true = Ok Demo.doc_ab_home.
Proof.
  split; [vm_compute; reflexivity|]. split; [vm_compute; reflexivity|]. split; [vm_compute; reflexivity|].
  apply (key_backspace_at_document_start Demo.fuel Demo.image_w Demo.relex Demo.inc_parse
           Demo.doc_ab_home true 0%nat 0%nat); vm_compute; reflexivity.
Defined.

Lemma key_delete_at_document_end_witness :
  TreeManager.hasSelection Demo.doc_ab = false
  /\ Cursor.inside (TreeManager.heap Demo.doc_ab) (TreeManager.cursor Demo.doc_ab) = Ok false
  /\ Cursor.find_next_visible Demo.fuel (TreeManager.heap Demo.doc_ab)
       (Cursor.node (TreeManager.cursor Demo.doc_ab)) = Ok 1%nat
  /\ TreeManager.key_delete Demo.fuel Demo.image_w Demo.relex Demo.inc_parse
       Demo.doc_ab true = Ok Demo.doc_ab.
Proof.
  split; [vm_compute; reflexivity|]. split; [vm_compute; reflexivity|]. split; [vm_compute; reflexivity|].
  eapply (key_delete_at_document_end Demo.fuel Demo.image_w Demo.relex Demo.inc_parse
            Demo.doc_ab true 1%nat); vm_compute; reflexivity.
Defined.

(** ** Visibility and the order of cursors *)

Section Cursors.

Import Cursor.

Variable fuel : nat.
Variable image_w : Node -> Z.
Variable h : Heap.

Lemma find_next_visible_loop_result k i j :
  find_next_visible_loop h k i = Ok j ->
  exists n, get h j = Ok n /\ (is_visible n = true \/ outermost_sentinel h j n).
Proof.
  revert i. induction k as [|k IH]; intros i H; [discriminate H|].
  cbn [find_next_visible_loop] in H. step_res H.
  destruct (is_visible a) eqn:Hv.
  { inversion H; subst j. eauto. }
  destruct (is_EOS a) eqn:He.
  { step_res H. step_res H. destruct a1 as [l|].
    - step_res H. step_res H. eauto.
    - inversion H; subst j. exists a. split; [assumption|]. right.
      split; [now right|]. eauto. }
  destruct (is_Magic a) eqn:Hm.
  { step_res H. step_res H. eauto. }
  step_res H. eauto.
Qed.

Lemma find_previous_visible_loop_result k i j :
  find_previous_visible_loop h k i = Ok j ->
  exists n, get h j = Ok n /\ (is_visible n = true \/ outermost_sentinel h j n).
Proof.
  revert i. induction k as [|k IH]; intros i H; [discriminate H|].
  cbn [find_previous_visible_loop] in H. step_res H.
  destruct (is_visible a) eqn:Hv.
  { inversion H; subst j. eauto. }
  destruct (is_BOS a) eqn:He.
  { step_res H. step_res H. destruct a1 as [l|].
    - step_res H. step_res H. eauto.
    - inversion H; subst j. exists a. split; [assumption|]. right.
      split; [now left|]. eauto. }
  destruct (is_Magic a) eqn:Hm.
  { step_res H. step_res H. eauto. }
  step_res H. eauto.
Qed.

Lemma find_next_visible_result i j :
  find_next_visible fuel h i = Ok j ->
  exists n, get h j = Ok n /\ (is_visible n = true \/ outermost_sentinel h j n).
Proof.
  intros H. unfold find_next_visible in H. step_res H. step_res H.
  eapply find_next_visible_loop_result; eauto.
Qed.

Lemma find_previous_visible_result i j :
  find_previous_visible fuel h i = Ok j ->
  exists n, get h j = Ok n /\ (is_visible n = true \/ outermost_sentinel h j n).
Proof.
  intros H. unfold find_previous_visible in H. step_res H. step_res H.
  eapply find_previous_visible_loop_result; eauto.
Qed.

(** C8, as amended.  Visibility is decided by the kind of a node and
    never by its text: exactly the indentation markers, the sentinels
    and the boundary tokens are not visible, so an ordinary node with
    empty text is visible.  What [find_next_visible] and
    [find_previous_visible] return is a visible node, or the sentinel
    of a root that no language box embeds. *)
Theorem visible_by_kind :
  (forall n, is_visible n
             = negb (is_Indentation n || is_BOS n || is_EOS n || is_Magic n))
  /\ (forall s, is_visible (TreeManager.terminal_node s) = true)
  /\ (forall i j,
        find_next_visible fuel h i = Ok j \/ find_previous_visible fuel h i = Ok j ->
        exists n, get h j = Ok n /\ (is_visible n = true \/ outermost_sentinel h j n)).
Proof.
  split; [|split].
  - intros n. unfold is_visible.
    destruct (is_Indentation n), (is_BOS n), (is_EOS n), (is_Magic n); reflexivity.
  - reflexivity.
  - intros i j [H|H].
    + eapply find_next_visible_result; eauto.
    + eapply find_previous_visible_result; eauto.
Qed.

Lemma get_x_same_place a b :
  node a = node b -> pos a = pos b ->
  get_x fuel image_w h a = get_x fuel image_w h b.
Proof. intros Hn Hp. unfold get_x. rewrite Hn, Hp. reflexivity. Qed.

Lemma eq_spec a b : eq a b = true <-> node a = node b /\ pos a = pos b.
Proof.
  unfold eq. rewrite andb_true_iff, Nat.eqb_eq, Z.eqb_eq. reflexivity.
Qed.

(** C9, as amended.  When the columns of both cursors can be computed,
    [a > b] holds exactly when (line, column) of [a] is
    lexicographically above that of [b]; [a == b] exactly when both
    have the same node and the same offset; and exactly one of [a < b],
    [a == b], [a > b] holds provided the two cursors do not stand on
    the same node and offset with a greater line number in [a]. *)
Theorem cursor_order a b xa xb :
  get_x fuel image_w h a = Ok xa ->
  get_x fuel image_w h b = Ok xb ->
  (gt fuel image_w h a b = Ok true
   <-> line b < line a \/ (line a = line b /\ xb < xa))
  /\ (eq a b = true <-> node a = node b /\ pos a = pos b)
  /\ (~ (eq a b = true /\ line b < line a) ->
      exists g l,
        gt fuel image_w h a b = Ok g /\ lt fuel image_w h a b = Ok l
        /\ ((g = true /\ eq a b = false /\ l = false)
            \/ (g = false /\ eq a b = true /\ l = false)
            \/ (g = false /\ eq a b = false /\ l = true))).
Proof.
  intros Ha Hb.
  assert (gt fuel image_w h a b
          = Ok ((line b <? line a) || ((line a =? line b) && (xb <? xa)))) as Hgt.
  { unfold gt. rewrite Ha, Hb. cbn [Py.bind].
    destruct (Z.ltb_spec (line b) (line a)); [reflexivity|].
    destruct (Z.ltb_spec (line a) (line b)).
    - destruct (Z.eqb_spec (line a) (line b)); [lia|reflexivity].
    - destruct (Z.eqb_spec (line a) (line b)); [reflexivity|lia]. }
  split; [|split].
  - rewrite Hgt. split.
    + intros H. inversion H as [H1]. apply orb_true_iff in H1.
      destruct H1 as [H1|H1]; [left; lia|].
      apply andb_true_iff in H1. right. lia.
    + intros [H|[H1 H2]]; f_equal; apply orb_true_iff.
      * left. lia.
      * right. apply andb_true_iff. lia.
  - apply eq_spec.
  - intros Hcons. unfold lt. rewrite Hgt. cbn [Py.bind].
    eexists _, _. split; [reflexivity|]. split; [reflexivity|].
    destruct (eq a b) eqn:Heq.
    + apply eq_spec in Heq. destruct Heq as [Hn Hp].
      rewrite (get_x_same_place a b Hn Hp), Hb in Ha. inversion Ha; subst xa.
      assert (~ line b < line a) as Hl by (intros Hl; apply Hcons; auto).
      right. left.
      destruct (Z.ltb_spec (line b) (line a)); [lia|].
      rewrite Z.ltb_irrefl, andb_false_r. auto.
    + destruct ((line b <? line a) || ((line a =? line b) && (xb <? xa))); auto.
Qed.

End Cursors.

(** C8 fails as stated: the empty text node of [Demo.doc_empty_node] is
    visible, and [find_next_visible] returns it from the start
    sentinel. *)
Lemma empty_node_is_visible :
  exists n,
    get (TreeManager.heap Demo.doc_empty_node) 2%nat = Ok n
    /\ name (symbol n) = ""%string
    /\ Cursor.is_visible n = true
    /\ Cursor.find_next_visible Demo.fuel (TreeManager.heap Demo.doc_empty_node) 0%nat
       = Ok 2%nat.
Proof.
  eexists. split; [vm_compute; reflexivity|].
  split; [vm_compute; reflexivity|]. split; vm_compute; reflexivity.
Qed.

Lemma visible_by_kind_witness :
  Cursor.find_next_visible Demo.fuel (TreeManager.heap Demo.doc_ab_home) 0%nat = Ok 2%nat
  /\ exists n, get (TreeManager.heap Demo.doc_ab_home) 2%nat = Ok n
             /\ (Cursor.is_visible n = true
                 \/ outermost_sentinel (TreeManager.heap Demo.doc_ab_home) 2%nat n).
Proof.
  split; [vm_compute; reflexivity|].
  apply (proj2 (proj2 (visible_by_kind Demo.fuel (TreeManager.heap Demo.doc_ab_home)))
           0%nat 2%nat).
  left. vm_compute; reflexivity.
Defined.

(** C9 fails as stated: two cursors on the same node and offset that
    carry different line numbers are equal, and one is greater than the
    other. *)
Lemma cursor_trichotomy_fails :
  let h := TreeManager.heap Demo.doc_ab in
  let a := {| Cursor.node := 2%nat; Cursor.pos := 1; Cursor.line := 1 |} in
  let b := {| Cursor.node := 2%nat; Cursor.pos := 1; Cursor.line := 0 |} in
  Cursor.gt Demo.fuel Demo.image_w h a b = Ok true
  /\ Cursor.eq a b = true
  /\ Cursor.lt Demo.fuel Demo.image_w h a b = Ok false.
Proof.
  cbv zeta. split; [vm_compute; reflexivity|]. split; vm_compute; reflexivity.
Qed.

Lemma cursor_order_witness :
  let h := TreeManager.heap Demo.doc_ab in
  let a := {| Cursor.node := 2%nat; Cursor.pos := 2; Cursor.line := 0 |} in
  let b := {| Cursor.node := 2%nat; Cursor.pos := 1; Cursor.line := 0 |} in
  Cursor.get_x Demo.fuel Demo.image_w h a = Ok 2
  /\ Cursor.get_x Demo.fuel Demo.image_w h b = Ok 1
  /\ Cursor.gt Demo.fuel Demo.image_w h a b = Ok true
  /\ Cursor.eq a b = false.
Proof.
  intros h a b.
  destruct (cursor_order Demo.fuel Demo.image_w h a b 2 1) as (Hgt & Heq & Htri);
    [vm_compute; reflexivity | vm_compute; reflexivity |].
  split; [vm_compute; reflexivity|]. split; [vm_compute; reflexivity|]. split.
  - apply Hgt. right. split; [vm_compute; reflexivity|lia].
  - vm_compute; reflexivity.
Defined.

(** ** What the repair steps leave alone *)

(** Case splits on every computation in [res] that is known to succeed. *)
Ltac res_cases :=
  repeat match goal with
    | H : Py.bind ?m _ = Ok _ |- _ =>
        let E := fresh "E" in
        destruct m eqn:E; cbn [Py.bind] in H; [|discriminate H]
    | H : Ok _ = Ok _ |- _ => inversion H; clear H; subst
    | H : Raise _ = Ok _ |- _ => discriminate H
    | H : (if ?b then _ else _) = Ok _ |- _ => let E := fresh "E" in destruct b eqn:E
    | H : (match ?o with _ => _ end) = Ok _ |- _ => let E := fresh "E" in destruct o eqn:E
    end.

Section Frame.

Import TreeManager.

Variable fuel : nat.
Variable image_w : Node -> Z.
Variable lexer_relex : Binding -> NodeId -> Heap -> Heap.
Variable inc_parse : Binding -> Heap -> Heap.

(** Turn the facts at hand into equations and conclude. *)
Ltac frame_close :=
  unfold frame in *;
  cbn [parsers cursor set_heap set_lines set_line set_undomanager set_changed] in *;
  repeat match goal with H : _ /\ _ |- _ => destruct H end;
  split; congruence.

Ltac frame_with known :=
  res_cases;
  repeat match goal with
    | IH : (forall _, _), E : _ = Ok _ |- _ => apply IH in E
    | E : _ = Ok _ |- _ => known E
    end;
  frame_close.

Ltac known0 E := fail.

Lemma frame_set_indent tm y v tm' : set_indent tm y v = Ok tm' -> frame tm tm'.
Proof. unfold set_indent. intros H. frame_with known0. Qed.

Ltac known1 E := apply frame_set_indent in E.

Lemma frame_remove_indentation_nodes tm o tm' o' :
  remove_indentation_nodes fuel tm o = Ok (tm', o') -> frame tm tm'.
Proof. unfold remove_indentation_nodes. intros H. frame_with known1. Qed.

Ltac known2 E := first [known1 E | apply frame_remove_indentation_nodes in E].

Lemma frame_rescan_linebreaks tm y tm' :
  rescan_linebreaks fuel tm y = Ok tm' -> frame tm tm'.
Proof. unfold rescan_linebreaks. intros H. frame_with known2. Qed.

Lemma frame_update_indentation_backwards_loop k tm y root ws fs tm' :
  update_indentation_backwards_loop fuel k tm y root ws fs = Ok tm' -> frame tm tm'.
Proof.
  revert fs. induction k as [|k IH]; intros fs H;
    cbn [update_indentation_backwards_loop] in H; frame_with known2.
Qed.

Lemma frame_update_indentation_backwards tm y tm' :
  update_indentation_backwards fuel tm y = Ok tm' -> frame tm tm'.
Proof.
  unfold update_indentation_backwards. intros H.
  frame_with ltac:(fun E => apply frame_update_indentation_backwards_loop in E).
Qed.

Ltac known3 E :=
  first [known2 E | apply frame_rescan_linebreaks in E
         | apply frame_update_indentation_backwards in E].

Lemma frame_new_indent_nodes tm y tm' l :
  new_indent_nodes fuel tm y = Ok (tm', l) -> frame tm tm'.
Proof. unfold new_indent_nodes. intros H. frame_with known3. Qed.

Ltac known4 E := first [known3 E | apply frame_new_indent_nodes in E].

Lemma frame_repair_indentation tm y tm' :
  repair_indentation fuel tm y = Ok tm' -> frame tm tm'.
Proof. unfold repair_indentation. intros H. frame_with known4. Qed.

Ltac known5 E := first [known4 E | apply frame_repair_indentation in E].

Lemma frame_rescan_following_loop k tm i th cw ci tm' :
  rescan_following_loop fuel k tm i th cw ci = Ok tm' -> frame tm tm'.
Proof.
  revert tm i cw ci. induction k as [|k IH]; intros tm i cw ci H;
    cbn [rescan_following_loop] in H; frame_with known5.
Qed.

Ltac known6 E := first [known5 E | apply frame_rescan_following_loop in E].

Lemma frame_rescan_indentations tm y tm' :
  rescan_indentations fuel tm y = Ok tm' -> frame tm tm'.
Proof. unfold rescan_indentations. intros H. frame_with known6. Qed.

Ltac known7 E := first [known6 E | apply frame_rescan_indentations in E].

Lemma frame_post_keypress_loop k tm i tm' :
  post_keypress_loop fuel k tm i = Ok tm' -> frame tm tm'.
Proof.
  revert tm i. induction k as [|k IH]; intros tm i H;
    cbn [post_keypress_loop] in H; frame_with known7.
Qed.

Ltac known8 E := first [known7 E | apply frame_post_keypress_loop in E].

Lemma frame_post_keypress tm tm' :
  post_keypress fuel tm "" = Ok tm' -> frame tm tm'.
Proof.
  unfold post_keypress. cbn [Py.startswith_cr]. intros H. frame_with known8.
Qed.






End Frame.

(** ** The node store *)

Section Store.

Lemma get_Ok h i n : get h i = Ok n <-> nodes h !! i = Some n.
Proof.
  unfold get. destruct (nodes h !! i); split; intros H; inversion H; reflexivity.
Qed.

Lemma get_valid h i : valid h i -> exists n, get h i = Ok n.
Proof.
  intros H. apply lookup_lt_is_Some_2 in H. destruct H as [n H].
  exists n. now apply get_Ok.
Qed.

Lemma get_is_valid h i n : get h i = Ok n -> valid h i.
Proof. intros H. apply get_Ok in H. eapply lookup_lt_Some; eauto. Qed.


Lemma get_set_node h (i : nat) n (j : nat) :
  get (set_node h i n) j
  = if decide (i = j /\ (i < length (nodes h))%nat) then Ok n else get h j.
Proof.
  unfold get, set_node. cbn [nodes]. rewrite list_lookup_insert.
  destruct (decide _); reflexivity.
Qed.

Lemma get_set_node_eq h i n : valid h i -> get (set_node h i n) i = Ok n.
Proof. intros H. rewrite get_set_node. now rewrite decide_True. Qed.

Lemma get_set_node_ne h i n j : i <> j -> get (set_node h i n) j = get h j.
Proof. intros H. rewrite get_set_node. rewrite decide_False; [reflexivity|tauto]. Qed.


End Store.

(** ** The binding table *)

Section Bindings.

Import TreeManager.

Lemma Binding_eqb_eq a b : Binding_eqb a b = true -> a = b.
Proof.
  unfold Binding_eqb. rewrite !andb_true_iff. intros [[H1 H2] H3].
  apply Nat.eqb_eq in H1. apply Bool.eqb_prop in H2. apply String.eqb_eq in H3.
  destruct a, b; cbn in *; congruence.
Qed.

Lemma find_binding_None ps r :
  (forall p, In p ps -> parser_root p <> r) -> find_binding ps r = None.
Proof.
  induction ps as [|q ps IH]; intros H; [reflexivity|]. cbn [find_binding].
  destruct (Nat.eqb_spec (parser_root q) r) as [E|E].
  - exfalso. apply (H q); [now left|exact E].
  - apply IH. intros p Hp. apply H. now right.
Qed.

Lemma list_remove_incl p ps q : In q (list_remove p ps) -> In q ps.
Proof.
  induction ps as [|a ps IH]; cbn [list_remove]; [tauto|].
  destruct (Binding_eqb a p); cbn; intuition.
Qed.

Lemma list_remove_unique p ps :
  List.NoDup (map parser_root ps) -> In p ps ->
  List.NoDup (map parser_root (list_remove p ps))
  /\ forall q, In q (list_remove p ps) -> parser_root q <> parser_root p.
Proof.
  induction ps as [|a ps IH]; intros Hnd Hin; [destruct Hin|].
  cbn [map] in Hnd. inversion Hnd as [|x l Hnot Hnd']; subst. cbn [list_remove].
  destruct (Binding_eqb a p) eqn:E.
  - apply Binding_eqb_eq in E. subst a. split; [exact Hnd'|].
    intros q Hq Heq. apply Hnot. rewrite <- Heq. now apply in_map.
  - destruct Hin as [->|Hin].
    { assert (Binding_eqb p p = true) as Hpp.
      { unfold Binding_eqb. now rewrite Nat.eqb_refl, Bool.eqb_reflx, String.eqb_refl. }
      congruence. }
    destruct (IH Hnd' Hin) as [IH1 IH2]. split.
    + cbn [map]. constructor; [|exact IH1]. intros Hc. apply Hnot.
      apply in_map_iff in Hc. destruct Hc as (q & Hq1 & Hq2).
      rewrite <- Hq1. apply in_map. eapply list_remove_incl; eauto.
    + intros q [<-|Hq]; [|now apply IH2].
      intros Heq. apply Hnot. rewrite Heq. now apply in_map.
Qed.

Lemma delete_parser_loop_removes k i ps r :
  List.NoDup (map parser_root ps) ->
  (forall j p, (j < i)%nat -> ps !! j = Some p -> parser_root p <> r) ->
  (length ps <= i + k)%nat ->
  find_binding (delete_parser_loop k i ps r) r = None.
Proof.
  revert i ps. induction k as [|k IH]; intros i ps Hnd Hpre Hlen.
  - cbn [delete_parser_loop]. apply find_binding_None. intros p Hp.
    apply list_elem_of_In, list_elem_of_lookup in Hp. destruct Hp as [j Hj].
    apply (Hpre j); [|exact Hj]. apply lookup_lt_Some in Hj. lia.
  - cbn [delete_parser_loop]. destruct (ps !! i) as [p|] eqn:Hi.
    + destruct (Nat.eqb_spec (parser_root p) r) as [E|E].
      * assert (In p ps) as Hin
          by (apply list_elem_of_In, list_elem_of_lookup; eauto).
        destruct (list_remove_unique p ps Hnd Hin) as [Hnd' Hno].
        assert (forall q, In q (list_remove p ps) -> parser_root q <> r) as Hno'
          by (intros q Hq; rewrite <- E; now apply Hno).
        assert (forall k' i', delete_parser_loop k' i' (list_remove p ps) r
                              = list_remove p ps) as Hsame.
        { induction k' as [|k' IHk]; intros i'; [reflexivity|].
          cbn [delete_parser_loop]. destruct (list_remove p ps !! i') as [q|] eqn:Hq;
            [|reflexivity].
          assert (In q (list_remove p ps)) as Hq'
            by (apply list_elem_of_In, list_elem_of_lookup; eauto).
          destruct (Nat.eqb_spec (parser_root q) r) as [E'|E']; [|apply IHk].
          exfalso. now apply (Hno' q). }
        rewrite Hsame. now apply find_binding_None.
      * apply IH; [exact Hnd| |lia].
        intros j q Hj Hq. destruct (Nat.eq_dec j i) as [->|Hne].
        -- rewrite Hi in Hq. inversion Hq; subst q. exact E.
        -- apply (Hpre j); [lia|exact Hq].
    + apply find_binding_None. intros p Hp.
      apply list_elem_of_In, list_elem_of_lookup in Hp. destruct Hp as [j Hj].
      apply (Hpre j); [|exact Hj].
      apply lookup_lt_Some in Hj. apply lookup_ge_None in Hi. lia.
Qed.

(** With at most one parser per root, [delete_parser] leaves no
    binding for the root. *)
Lemma delete_parser_removes tm r :
  List.NoDup (map parser_root (parsers tm)) ->
  get_parser (delete_parser tm r) r = None
  /\ get_lexer (delete_parser tm r) r = None.
Proof.
  intros Hnd. unfold get_parser, get_lexer, delete_parser. cbn [parsers set_parsers].
  split; apply delete_parser_loop_removes; auto; intros j p Hj; lia.
Qed.

End Bindings.

(** ** Deleting the only character of a language box *)

Section BoxDeletion.

Import TreeManager.

Variable fuel : nat.
Variable image_w : Node -> Z.
Variable lexer_relex : Binding -> NodeId -> Heap -> Heap.
Variable inc_parse : Binding -> Heap -> Heap.









End BoxDeletion.


(** ** Indentation markers *)

Section Indentation.

Import TreeManager.

Variable fuel : nat.

Lemma index_nonneg' {A} (l : list A) (i : Z) (a : A) :
  0 <= i -> l !! Z.to_nat i = Some a -> Py.index l i = Ok a.
Proof.
  intros Hi Hl. unfold Py.index.
  destruct (Z.ltb_spec i 0); [lia|]. destruct (Z.ltb_spec i 0); [lia|].
  now rewrite Hl.
Qed.

Lemma index_lookup {A} (l : list A) (i : Z) (a : A) :
  0 <= i -> Py.index l i = Ok a -> l !! Z.to_nat i = Some a.
Proof.
  intros Hi. unfold Py.index.
  destruct (Z.ltb_spec i 0); [lia|]. destruct (Z.ltb_spec i 0); [lia|].
  destruct (l !! Z.to_nat i); intros Hx; inversion Hx; reflexivity.
Qed.

(** Setting an attribute of line [y]. *)
Lemma lines_set_line tm y l :
  0 <= y -> lines (set_line tm y l) = <[Z.to_nat y := l]> (lines tm).
Proof.
  intros Hy. unfold set_line, Py.set_index. cbn [lines set_lines].
  destruct (Z.ltb_spec y 0); [lia|]. destruct (Z.ltb_spec y 0); [lia|]. reflexivity.
Qed.

Lemma heap_set_line tm y l : heap (set_line tm y l) = heap tm.
Proof. reflexivity. Qed.

Lemma same_anchors_set_line tm y ly l :
  0 <= y -> lines tm !! Z.to_nat y = Some ly -> Line.node l = Line.node ly ->
  same_anchors tm (set_line tm y l).
Proof.
  intros Hy Hl Hn. split; [reflexivity|]. rewrite lines_set_line by assumption.
  rewrite list_fmap_insert. rewrite Hn. apply list_insert_id.
  rewrite list_lookup_fmap, Hl. reflexivity.
Qed.

Lemma same_anchors_trans tm1 tm2 tm3 :
  same_anchors tm1 tm2 -> same_anchors tm2 tm3 -> same_anchors tm1 tm3.
Proof. intros [H1 H2] [H3 H4]. split; congruence. Qed.

Lemma index_same_anchors {B} (ls ls' : list Line.t) (i : Z) (k : NodeId -> res B) :
  map Line.node ls' = map Line.node ls ->
  (let* l := Py.index ls' i in k (Line.node l)) = (let* l := Py.index ls i in k (Line.node l)).
Proof.
  intros Hm. unfold Py.index.
  assert (length ls' = length ls) as Hlen
    by (rewrite <- (length_map Line.node ls'), Hm; apply length_map).
  rewrite Hlen.
  destruct (_ <? 0); [reflexivity|].
  set (j := Z.to_nat _).
  assert (Line.node <$> (ls' !! j) = Line.node <$> (ls !! j)) as Hj
    by (rewrite <- !list_lookup_fmap; f_equal; exact Hm).
  destruct (ls' !! j), (ls !! j); cbn in Hj; try discriminate; cbn [Py.bind];
    [inversion Hj; congruence|reflexivity].
Qed.

Lemma is_logical_line_same tm tm' y :
  same_anchors tm tm' -> is_logical_line fuel tm' y = is_logical_line fuel tm y.
Proof.
  intros [Hh Hl]. unfold is_logical_line. rewrite Hh.
  apply (index_same_anchors (lines tm) (lines tm') y
           (fun i => let* n := get (heap tm) i in
                     let* j := deref (next_term n) in
                     is_logical_line_loop fuel (heap tm) j) Hl).
Qed.

Lemma get_indentation_same tm tm' y :
  same_anchors tm tm' -> get_indentation fuel tm' y = get_indentation fuel tm y.
Proof.
  intros Hs. unfold get_indentation. rewrite (is_logical_line_same _ _ _ Hs).
  destruct Hs as [Hh Hl]. destruct (is_logical_line fuel tm y) as [b|]; [|reflexivity].
  cbn [Py.bind]. destruct (negb b); [reflexivity|]. rewrite Hh.
  apply (index_same_anchors (lines tm) (lines tm') y
           (fun i => let* n := get (heap tm) i in
                     let* j := deref (next_term n) in
                     let* i := skip_indentation fuel (heap tm) j in
                     let* ni := get (heap tm) i in
                     if String.eqb (lookup ni) "<ws>" then Ok (Some (Cursor.name_len ni))
                     else Ok (Some 0)) Hl).
Qed.

Lemma get_indentation_logical tm y w :
  get_indentation fuel tm y = Ok (Some w) -> is_logical_line fuel tm y = Ok true.
Proof.
  unfold get_indentation. intros H. step_res H. destruct a; [reflexivity|].
  cbn in H. discriminate H.
Qed.

Lemma line_root_index tm tm' j r :
  same_anchors tm tm' -> 0 <= j -> line_root tm j r ->
  forall B (k : RootId -> res B),
    (let* l := Py.index (lines tm') j in
     let* o := get_root (heap tm') (Line.node l) in k o) = k r.
Proof.
  intros [Hh Hl] Hj (l & Hlk & Hr) B k. rewrite Hh.
  rewrite (index_same_anchors (lines tm) (lines tm') j
             (fun i => let* o := get_root (heap tm) i in k o) Hl).
  rewrite (index_nonneg' _ _ _ Hj Hlk). cbn [Py.bind]. rewrite Hr. reflexivity.
Qed.

Lemma previous_line_loop_finds tm tm' root dy y :
  same_anchors tm tm' -> 0 <= dy ->
  line_root tm dy root -> is_logical_line fuel tm dy = Ok true ->
  none_between fuel tm root dy y ->
  forall d k j other,
    j = dy + Z.of_nat d -> j < y -> (d < k)%nat -> line_root tm j other ->
    previous_line_loop fuel k tm' root j other = Ok dy.
Proof.
  intros Hs Hdy Hroot Hlog Hbetween.
  induction d as [|d IH]; intros k j other Hj Hjy Hk Hother;
    (destruct k as [|k]; [lia|]); cbn [previous_line_loop].
  - assert (j = dy) as -> by lia.
    rewrite (is_logical_line_same _ _ _ Hs), Hlog. cbn [Py.bind].
    destruct Hroot as (l & Hl & Hr), Hother as (l' & Hl' & Hr').
    rewrite Hl in Hl'. inversion Hl'; subst l'. rewrite Hr in Hr'. inversion Hr'; subst other.
    unfold is_same_language. rewrite Nat.eqb_refl. reflexivity.
  - destruct (Hbetween j) as (rj & bj & Hrj & Hbj & Hno); [lia|].
    rewrite (is_logical_line_same _ _ _ Hs), Hbj. cbn [Py.bind].
    assert (other = rj) as ->.
    { destruct Hrj as (l & Hl & Hr), Hother as (l' & Hl' & Hr').
      rewrite Hl in Hl'. inversion Hl'; subst l'. congruence. }
    assert (negb bj || negb (is_same_language root rj) = true) as ->.
    { destruct Hno as [->|Hne]; [reflexivity|].
      unfold is_same_language. destruct (Nat.eqb_spec root rj); [congruence|].
      now rewrite orb_true_r. }
    assert (exists r', line_root tm (j - 1) r') as [r' Hr'].
    { destruct (Z.eq_dec (j - 1) dy) as [->|Hne]; [eauto|].
      destruct (Hbetween (j - 1)) as (r' & _ & Hr' & _); [lia|eauto]. }
    rewrite (line_root_index tm tm' (j - 1) r' Hs ltac:(lia) Hr').
    apply IH; [lia|lia|lia|exact Hr'].
Qed.

Lemma find_indentation_loop_found tm' w (j : nat) lj :
  get_indentation fuel tm' (Z.of_nat j) = Ok (Some w) ->
  lines tm' !! j = Some lj ->
  forall k, (j < k)%nat ->
    (forall i, Z.of_nat j < i < Z.of_nat k -> passed fuel tm' w i) ->
    find_indentation_loop fuel k tm' (Some w) = Ok (Some (Line.indent lj)).
Proof.
  intros Hw Hl. induction k as [|k IH]; intros Hk Hpass; [lia|].
  cbn [find_indentation_loop].
  destruct (Nat.eq_dec k j) as [->|Hne].
  - rewrite Hw. cbn [Py.bind Py.eq2]. rewrite Z.eqb_refl.
    rewrite (index_nonneg' _ (Z.of_nat j) lj) by (rewrite ?Nat2Z.id; auto; lia).
    reflexivity.
  - destruct (Hpass (Z.of_nat k)) as [Hn|(v & Hv & Hlt)]; [lia| |].
    + rewrite Hn. cbn [Py.bind]. apply IH; [lia|]. intros i Hi. apply Hpass. lia.
    + rewrite Hv. cbn [Py.bind Py.eq2 Py.lt2].
      destruct (Z.eqb_spec v w); [lia|]. destruct (Z.ltb_spec v w); [lia|].
      apply IH; [lia|]. intros i Hi. apply Hpass. lia.
Qed.

Lemma find_indentation_loop_none tm' w :
  forall k,
    (forall i, 0 <= i < Z.of_nat k -> passed fuel tm' w i) ->
    find_indentation_loop fuel k tm' (Some w) = Ok None.
Proof.
  induction k as [|k IH]; intros Hpass; [reflexivity|].
  cbn [find_indentation_loop].
  destruct (Hpass (Z.of_nat k)) as [Hn|(v & Hv & Hlt)]; [lia| |].
  - rewrite Hn. cbn [Py.bind]. apply IH. intros i Hi. apply Hpass. lia.
  - rewrite Hv. cbn [Py.bind Py.eq2 Py.lt2].
    destruct (Z.eqb_spec v w); [lia|]. destruct (Z.ltb_spec v w); [lia|].
    apply IH. intros i Hi. apply Hpass. lia.
Qed.

Lemma find_indentation_loop_smaller tm' w v (j : nat) :
  get_indentation fuel tm' (Z.of_nat j) = Ok (Some v) -> v < w ->
  forall k, (j < k)%nat ->
    (forall i, Z.of_nat j < i < Z.of_nat k -> passed fuel tm' w i) ->
    find_indentation_loop fuel k tm' (Some w) = Ok None.
Proof.
  intros Hv Hlt. induction k as [|k IH]; intros Hk Hpass; [lia|].
  cbn [find_indentation_loop].
  destruct (Nat.eq_dec k j) as [->|Hne].
  - rewrite Hv. cbn [Py.bind Py.eq2 Py.lt2].
    destruct (Z.eqb_spec v w); [lia|]. destruct (Z.ltb_spec v w); [|lia]. reflexivity.
  - destruct (Hpass (Z.of_nat k)) as [Hn|(v' & Hv' & Hlt')]; [lia| |].
    + rewrite Hn. cbn [Py.bind]. apply IH; [lia|]. intros i Hi. apply Hpass. lia.
    + rewrite Hv'. cbn [Py.bind Py.eq2 Py.lt2].
      destruct (Z.eqb_spec v' w); [lia|]. destruct (Z.ltb_spec v' w); [lia|].
      apply IH; [lia|]. intros i Hi. apply Hpass. lia.
Qed.

Lemma passed_same tm tm' w i :
  same_anchors tm tm' -> passed fuel tm w i -> passed fuel tm' w i.
Proof.
  intros Hs [H|(v & H & Hv)]; [left|right; exists v; split; [|exact Hv]];
    now rewrite (get_indentation_same _ _ _ Hs).
Qed.

(** The markers that [repair_indentation] computes for a logical line
    [y > 0] with [w] leading blanks, where [dy] is the nearest logical
    line of the same root before it, with [pw] leading blanks: for
    [pw = w] the marker NEWLINE, with the indent level of [dy]; for
    [pw < w] the markers INDENT, NEWLINE, with that level plus one; for
    [pw > w] the earlier lines are scanned backwards past every line
    that is not logical or has more than [w] leading blanks: when the
    scan stops at a line with exactly [w] blanks, its level [v] becomes
    the level of [y] and the markers are DEDENT, (level of [dy]) - [v]
    times, then NEWLINE; when it stops at a line with fewer blanks, or
    finds no line, the single marker UNBALANCED is computed and the
    level of [y] is left alone. *)
Lemma new_indent_nodes_cases tm y dy w pw ly ldy root :
  0 <= dy < y -> y - dy <= Z.of_nat fuel ->
  lines tm !! Z.to_nat y = Some ly -> lines tm !! Z.to_nat dy = Some ldy ->
  get_root (heap tm) (Line.node ly) = Ok root ->
  get_root (heap tm) (Line.node ldy) = Ok root ->
  get_indentation fuel tm y = Ok (Some w) ->
  get_indentation fuel tm dy = Ok (Some pw) ->
  none_between fuel tm root dy y ->
  let at_level v :=
    set_line (set_line tm y (Line.with_ws ly w)) y
      (Line.with_indent (Line.with_ws ly w) v) in
  (pw = w ->
     new_indent_nodes fuel tm y
     = Ok (at_level (Line.indent ldy), [indentation_node "NEWLINE"]))
  /\ (pw < w ->
        new_indent_nodes fuel tm y
        = Ok (at_level (Line.indent ldy + 1),
              [indentation_node "INDENT"; indentation_node "NEWLINE"]))
  /\ (w < pw ->
        (forall j lj,
            0 <= j < y -> lines tm !! Z.to_nat j = Some lj ->
            get_indentation fuel tm j = Ok (Some w) ->
            (forall i, j < i < y -> passed fuel tm w i) ->
            new_indent_nodes fuel tm y
            = Ok (at_level (Line.indent lj),
                  repeat (indentation_node "DEDENT")
                    (Z.to_nat (Line.indent ldy - Line.indent lj))
                  ++ [indentation_node "NEWLINE"]))
        /\ ((forall i, 0 <= i < y -> passed fuel tm w i)
             \/ (exists j v, 0 <= j < y /\ get_indentation fuel tm j = Ok (Some v)
                              /\ v < w /\ forall i, j < i < y -> passed fuel tm w i) ->
            new_indent_nodes fuel tm y
            = Ok (set_line tm y (Line.with_ws ly w), [indentation_node "UNBALANCED"]))).
Proof.
  intros Hdy Hfuel Hly Hldy Hry Hrdy Hw Hpw Hbetween at_level.
  set (tm1 := set_line tm y (Line.with_ws ly w)).
  assert (0 <= y) as Hy by lia.
  assert (same_anchors tm tm1) as Hs
    by (apply (same_anchors_set_line tm y ly); auto).
  assert (lines tm1 !! Z.to_nat y = Some (Line.with_ws ly w)) as Hly1.
  { unfold tm1. rewrite lines_set_line by assumption.
    apply list_lookup_insert_eq. eapply lookup_lt_Some; eauto. }
  assert (forall j, 0 <= j -> j <> y -> lines tm1 !! Z.to_nat j = lines tm !! Z.to_nat j)
    as Hother.
  { intros j Hj Hne. unfold tm1. rewrite lines_set_line by assumption.
    apply list_lookup_insert_ne. lia. }
  assert (forall v, set_indent tm1 y v = Ok (at_level v)) as Hset.
  { intros v. unfold set_indent. rewrite (index_nonneg' _ _ _ Hy Hly1). reflexivity. }
  assert (find_indentation fuel tm1 y
          = find_indentation_loop fuel (Z.to_nat y) tm1 (Some w)) as Hfind.
  { unfold find_indentation. rewrite (get_indentation_same _ _ _ Hs), Hw. reflexivity. }
  assert (new_indent_nodes fuel tm y
          = (if pw =? w then Ok (at_level (Line.indent ldy), [indentation_node "NEWLINE"])
             else if pw <? w
             then Ok (at_level (Line.indent ldy + 1),
                      [indentation_node "INDENT"; indentation_node "NEWLINE"])
             else if w <? pw
             then let* this_indent := find_indentation_loop fuel (Z.to_nat y) tm1 (Some w) in
                  match this_indent with
                  | None => Ok (tm1, [indentation_node "UNBALANCED"])
                  | Some v =>
                      Ok (at_level v,
                          repeat (indentation_node "DEDENT") (Z.to_nat (Line.indent ldy - v))
                          ++ [indentation_node "NEWLINE"])
                  end
             else Ok (tm1, []))) as Heq.
  { unfold new_indent_nodes.
    destruct (Z.eqb_spec y 0); [lia|].
    rewrite (get_indentation_logical _ _ _ Hw). cbn [Py.bind negb].
    rewrite Hw. cbn [Py.bind]. rewrite (index_nonneg' _ _ _ Hy Hly). cbn [Py.bind].
    fold tm1. rewrite (index_nonneg' _ _ _ Hy Hly1). cbn [Py.bind].
    change (heap tm1) with (heap tm). cbn [Line.with_ws Line.node]. rewrite Hry.
    cbn [Py.bind].
    assert (exists r', line_root tm (y - 1) r') as [r' Hr'].
    { destruct (Z.eq_dec (y - 1) dy) as [->|Hne]; [exists root, ldy; auto|].
      destruct (Hbetween (y - 1)) as (r' & _ & Hr' & _); [lia|eauto]. }
    change (heap tm) with (heap tm1) at 1.
    rewrite (line_root_index tm tm1 (y - 1) r' Hs ltac:(lia) Hr').
    rewrite (previous_line_loop_finds tm tm1 root dy y Hs ltac:(lia)
               ltac:(exists ldy; auto) (get_indentation_logical _ _ _ Hpw) Hbetween
               (Z.to_nat (y - 1 - dy)) fuel (y - 1) r' ltac:(lia) ltac:(lia) ltac:(lia) Hr').
    cbn [Py.bind]. rewrite (get_indentation_same _ _ _ Hs), Hpw. cbn [Py.bind].
    rewrite (index_nonneg' (lines tm1) dy ldy) by (try lia; rewrite Hother; auto; lia).
    cbn [Py.bind Py.eq2 Py.lt2 Py.gt2].
    rewrite !Hset. cbn [Py.bind]. rewrite Hfind.
    destruct (pw =? w); [reflexivity|]. destruct (pw <? w); [reflexivity|].
    destruct (w <? pw); [|reflexivity].
    destruct (find_indentation_loop fuel (Z.to_nat y) tm1 (Some w)) as [[v|]|];
      cbn [Py.bind]; try reflexivity.
    rewrite Hset. cbn [Py.bind].
    rewrite (index_nonneg' (lines (at_level v)) dy ldy); [reflexivity|lia|].
    unfold at_level. rewrite lines_set_line by assumption.
    rewrite list_lookup_insert_ne by lia. rewrite Hother; auto; lia. }
  rewrite Heq. split; [|split].
  - intros ->. now rewrite Z.eqb_refl.
  - intros Hlt. destruct (Z.eqb_spec pw w); [lia|]. destruct (Z.ltb_spec pw w); [|lia].
    reflexivity.
  - intros Hgt. destruct (Z.eqb_spec pw w); [lia|]. destruct (Z.ltb_spec pw w); [lia|].
    destruct (Z.ltb_spec w pw); [|lia]. split.
    + intros j lj Hj Hlj Hwj Hpass.
      rewrite (find_indentation_loop_found tm1 w (Z.to_nat j) lj).
      * reflexivity.
      * rewrite Z2Nat.id by lia. now rewrite (get_indentation_same _ _ _ Hs).
      * rewrite Hother; auto; lia.
      * lia.
      * intros i Hi. apply (passed_same tm); auto. apply Hpass. lia.
    + intros [Hall|(j & v & Hj & Hv & Hlt & Hpass)].
      * rewrite (find_indentation_loop_none tm1 w); [reflexivity|].
        intros i Hi. apply (passed_same tm); auto. apply Hall. lia.
      * rewrite (find_indentation_loop_smaller tm1 w v (Z.to_nat j)).
        -- reflexivity.
        -- rewrite Z2Nat.id by lia. now rewrite (get_indentation_same _ _ _ Hs).
        -- exact Hlt.
        -- lia.
        -- intros i Hi. apply (passed_same tm); auto. apply Hpass. lia.
Qed.

End Indentation.

(** ** The line index *)


Section LineIndex.

Import TreeManager.

Variable fuel : nat.





End LineIndex.



(** ** Undo after a single-character entry *)

(** C1 fails on the code: a fresh entry of the undo log gets the length
    of its text as end column, whatever the column of the edit (the
    branch that extends an entry stores the column of the cursor).
    After ["a"] and a space are typed into an empty document the log has
    two entries; the second lies at column 1 and its end column is 1,
    not 2.  Undoing it puts the cursor behind the ["a"] and deletes the
    ["a"]: the document reads [" "], not ["a"]; redoing then yields two
    spaces, not ["a "]. *)
Theorem undo_deletes_the_wrong_character :
  (forall c txt x line,
      UndoManager.x2 (UndoManager.new_entry c txt x line) = Py.len txt)
  /\ (forall uo txt x line, UndoManager.x2 (UndoManager.extend uo txt x line) = x)
  /\ Demo.export_output Demo.doc_a = Ok "a"%string
  /\ Demo.export_output Demo.doc_a_space = Ok "a "%string
  /\ UndoManager.stack (TreeManager.undomanager Demo.doc_a_space)
     = [UndoManager.UndoObject_init UndoManager.CmdInsert "a" 0 0;
        UndoManager.UndoObject_init UndoManager.CmdInsert " " 1 0]
  /\ Cursor.get_x Demo.fuel Demo.image_w (TreeManager.heap Demo.doc_a_space)
       (TreeManager.cursor Demo.doc_a_space) = Ok 2
  /\ exists tm1 tm2,
      Demo.undo Demo.doc_a_space = Ok tm1
      /\ Demo.export_output tm1 = Ok " "%string
      /\ Demo.redo tm1 = Ok tm2
      /\ Demo.export_output tm2 = Ok "  "%string.
Proof.
  split; [reflexivity|]. split; [reflexivity|].
  split; [vm_compute; reflexivity|]. split; [vm_compute; reflexivity|].
  split; [vm_compute; reflexivity|]. split; [vm_compute; reflexivity|].
  exists (Demo.run (Demo.undo Demo.doc_a_space)),
         (Demo.run (Demo.redo (Demo.run (Demo.undo Demo.doc_a_space)))).
  split; [vm_compute; reflexivity|]. split; [vm_compute; reflexivity|].
  split; vm_compute; reflexivity.
Qed.

(** * Further properties *)

(** ** The undo log: bursts and the redo tail *)

Section UndoLogMore.

Import UndoManager.

Lemma keep_small_top um :
  pos um = Z.of_nat (length (stack um)) - 1 -> stack um <> [] ->
  pos (keep_small um) = Z.of_nat (length (stack (keep_small um))) - 1
  /\ mode (keep_small um) = mode um
  /\ stack (keep_small um) <> [].
Proof.
  intros Hp Hs. unfold keep_small.
  destruct (Z.ltb_spec 100 (Z.of_nat (length (stack um)))) as [H|H];
    cbn [stack pos mode]; [|auto].
  rewrite length_drop. split; [lia|]. split; [reflexivity|].
  intros Hnil. apply (f_equal (@length _)) in Hnil.
  rewrite length_drop in Hnil. cbn [length] in Hnil. lia.
Qed.

Lemma add_on_top um c txt x line :
  wf um ->
  exists um', add c txt x line um = Ok um'
              /\ pos um' = Z.of_nat (length (stack um')) - 1
              /\ mode um' = ModeCmd c
              /\ stack um' <> [].
Proof.
  intros Hwf.
  assert (mode um = ModeCmd c /\ interrupts txt = false
          \/ (mode um = ModeCmd c /\ interrupts txt = false -> False)) as [[Hm Hi]|Hn].
  { destruct (interrupts txt); [right; intros [_ ?]; discriminate|].
    destruct (mode_ne (mode um) c) eqn:Hm.
    - right. intros [Hc _]. apply mode_ne_false in Hc. congruence.
    - left. split; [now apply mode_ne_false|reflexivity]. }
  - destruct (wf_nonempty um c Hwf Hm) as (ini & last & Hs).
    destruct Hwf as (Hl & Hp & Hmode).
    eexists. split; [eapply add_coalesce_eq; eauto|].
    cbn [pos stack mode]. rewrite length_app. cbn [length].
    assert (mode um <> ModeNew) as Hne by congruence.
    destruct (Hmode Hne) as [_ Hpos]. rewrite Hpos, Hs, length_app. cbn [length].
    split; [lia|]. split; [assumption|]. now destruct ini.
  - destruct Hwf as (Hl & Hp & Hmode).
    eexists. split; [now apply add_new_eq|].
    apply keep_small_top; cbn [stack pos mode].
    + rewrite length_app, length_take. cbn [length]. lia.
    + now destruct (take (Z.to_nat (pos um + 1)) (stack um)).
Qed.

(** X1.  On every log that the manager's own methods produce, [add]
    returns (the entry [stack[-1]] of the coalescing branch exists),
    and afterwards the position is on the last entry of the stack and
    the mode is the kind of the edit: nothing is left to redo. *)
Theorem add_succeeds_on_top um c txt x line :
  reachable um ->
  exists um', add c txt x line um = Ok um'
              /\ pos um' = Z.of_nat (length (stack um')) - 1
              /\ mode um' = ModeCmd c
              /\ stack um' <> [].
Proof. intros H. apply add_on_top. now apply reachable_wf. Qed.

Lemma last_cons {A} (l : list A) (a d : A) : List.last (a :: l) d = List.last l a.
Proof.
  revert a d. induction l as [|b l IH]; intros a d; [reflexivity|].
  change (List.last (a :: b :: l) d) with (List.last (b :: l) d).
  rewrite IH. symmetry. apply IH.
Qed.

Lemma coalesce_all c rest : forall um ini last,
  mode um = ModeCmd c -> stack um = ini ++ [last] ->
  (length (stack um) <= 100)%nat ->
  Forall (fun it => interrupts (fst (fst it)) = false) rest ->
  add_all c rest um
  = Ok {| stack := ini ++ [fold_left (fun uo '(t, x', l') => extend uo t x' l') rest last];
          pos := pos um; mode := mode um |}.
Proof.
  induction rest as [|[[t x'] l'] rest IH]; intros um ini last Hm Hs Hl Hf.
  - cbn. rewrite <- Hs. now destruct um.
  - inversion Hf as [|? ? Hi Hf']; subst. cbn [fst] in Hi.
    cbn [add_all fold_left].
    rewrite (add_coalesce_eq um c t x' l' ini last Hm Hi Hs Hl). cbn [Py.bind].
    rewrite (IH _ ini (extend last t x' l')); cbn [stack pos mode]; auto.
    rewrite length_app. cbn [length]. rewrite Hs, length_app in Hl. exact Hl.
Qed.

Lemma keep_small_last um ini e :
  stack um = ini ++ [e] ->
  exists ini', stack (keep_small um) = ini' ++ [e]
               /\ (length (stack um) <= 101 -> length (stack (keep_small um)) <= 100)%nat
               /\ forall e', keep_small {| stack := ini ++ [e']; pos := pos um; mode := mode um |}
                             = {| stack := ini' ++ [e']; pos := pos (keep_small um);
                                  mode := mode (keep_small um) |}.
Proof.
  intros Hs. unfold keep_small. cbn [stack pos mode]. rewrite Hs, !length_app. cbn [length].
  destruct (Z.ltb_spec 100 (Z.of_nat (length ini + 1))) as [H|H]; cbn [stack pos mode].
  - destruct ini as [|a ini]; [cbn in H; lia|].
    exists ini. cbn [drop app]. rewrite drop_0.
    split; [reflexivity|]. split; [cbn [length]; rewrite !length_app; cbn [length]; lia|].
    intros e'. cbn [length] in *. rewrite length_app. cbn [length].
    destruct (Z.ltb_spec 100 (Z.of_nat (S (length ini + 1)))); [|lia].
    now rewrite drop_0.
  - exists ini. split; [exact Hs|]. split; [rewrite Hs, length_app; cbn [length]; lia|].
    intros e'. rewrite length_app. cbn [length].
    destruct (Z.ltb_spec 100 (Z.of_nat (length ini + 1))); [lia|reflexivity].
Qed.

(** X2.  A burst of edits of one kind is one entry of the log.  When
    the first edit opens an entry (the mode is another one, or its
    text is a blank or starts with a line break) and no later text
    interrupts, the burst leaves the entries up to the position, then
    a single entry: it has the start of the first edit, the texts of
    all edits joined in order, and the end column and line of the last
    one. *)
Theorem burst_is_one_entry um c txt x line rest :
  reachable um ->
  (mode um = ModeCmd c /\ interrupts txt = false -> False) ->
  Forall (fun it => interrupts (fst (fst it)) = false) rest ->
  add_all c ((txt, x, line) :: rest) um
  = Ok (keep_small {| stack := take (Z.to_nat (pos um + 1)) (stack um)
                                ++ [burst_entry c txt x line rest];
                      pos := pos um + 1; mode := ModeCmd c |})
  /\ cmd (burst_entry c txt x line rest) = c
  /\ text (burst_entry c txt x line rest)
     = fold_left String.append (map (fun it => fst (fst it)) rest) txt
  /\ x1 (burst_entry c txt x line rest) = x1 (new_entry c txt x line)
  /\ line1 (burst_entry c txt x line rest) = line
  /\ (x2 (burst_entry c txt x line rest), line2 (burst_entry c txt x line rest))
     = List.last (map (fun it => (snd (fst it), snd it)) rest) (Py.len txt, line).
Proof.
  intros Hr Hn Hf. pose proof (reachable_wf um Hr) as (Hl & Hp & Hmode).
  split.
  - cbn [add_all]. rewrite (add_new_eq um c txt x line Hn Hp). cbn [Py.bind].
    set (um0 := {| stack := take (Z.to_nat (pos um + 1)) (stack um) ++ [new_entry c txt x line];
                   pos := pos um + 1; mode := ModeCmd c |}).
    destruct (keep_small_last um0 _ _ eq_refl) as (ini' & Hs' & Hlen & Hk).
    rewrite (coalesce_all c rest (keep_small um0) ini' (new_entry c txt x line)); auto.
    + f_equal. unfold burst_entry. rewrite Hk. reflexivity.
    + unfold keep_small. now destruct (100 <? _).
    + apply Hlen. unfold um0. cbn [stack]. rewrite length_app, length_take. cbn [length]. lia.
  - unfold burst_entry.
    assert (forall e, cmd (fold_left (fun uo '(t, x', l') => extend uo t x' l') rest e) = cmd e
                      /\ text (fold_left (fun uo '(t, x', l') => extend uo t x' l') rest e)
                         = fold_left String.append (map (fun it => fst (fst it)) rest) (text e)
                      /\ x1 (fold_left (fun uo '(t, x', l') => extend uo t x' l') rest e) = x1 e
                      /\ line1 (fold_left (fun uo '(t, x', l') => extend uo t x' l') rest e) = line1 e
                      /\ (x2 (fold_left (fun uo '(t, x', l') => extend uo t x' l') rest e),
                          line2 (fold_left (fun uo '(t, x', l') => extend uo t x' l') rest e))
                         = List.last (map (fun it => (snd (fst it), snd it)) rest) (x2 e, line2 e))
      as Hfold.
    { clear. induction rest as [|[[t x'] l'] rest IH]; intros e; [cbn; auto|].
      cbn [fold_left map fst snd]. destruct (IH (extend e t x' l')) as (H1 & H2 & H3 & H4 & H5).
      rewrite H1, H2, H3, H4, H5. cbn [extend cmd text x1 line1 x2 line2].
      repeat split; try reflexivity.
      symmetry. apply last_cons. }
    destruct (Hfold (new_entry c txt x line)) as (H1 & H2 & H3 & H4 & H5).
    rewrite H1, H2, H3, H4, H5. repeat split; reflexivity.
Qed.

End UndoLogMore.

Lemma add_succeeds_on_top_witness :
  exists um', UndoManager.add UndoManager.CmdDelete "b" 0 0 Demo.typed_a = Ok um'
              /\ UndoManager.pos um' = Z.of_nat (length (UndoManager.stack um')) - 1
              /\ UndoManager.mode um' = UndoManager.ModeCmd UndoManager.CmdDelete
              /\ UndoManager.stack um' <> [].
Proof. apply add_succeeds_on_top. exact reachable_typed_a. Defined.

Lemma burst_is_one_entry_witness :
  add_all UndoManager.CmdInsert [(" ", 1, 0); ("i", 2, 0); ("f", 3, 0)] Demo.typed_a
  = Ok {| UndoManager.stack :=
            [UndoManager.UndoObject_init UndoManager.CmdInsert "a" 0 0;
             {| UndoManager.cmd := UndoManager.CmdInsert; UndoManager.text := " if";
                UndoManager.x1 := 0; UndoManager.line1 := 0;
                UndoManager.x2 := 3; UndoManager.line2 := 0 |}];
          UndoManager.pos := 1;
          UndoManager.mode := UndoManager.ModeCmd UndoManager.CmdInsert |}.
Proof.
  destruct (burst_is_one_entry Demo.typed_a UndoManager.CmdInsert " " 1 0
              [("i", 2, 0); ("f", 3, 0)]) as (Hrun & _).
  - exact reachable_typed_a.
  - intros [_ H]. vm_compute in H. discriminate H.
  - repeat constructor.
  - rewrite Hrun. vm_compute. reflexivity.
Defined.

Section UndoRedoEdges.

Import TreeManager.

Variable fuel : nat.
Variable image_w : Node -> Z.
Variable lexer_relex : Binding -> NodeId -> Heap -> Heap.
Variable inc_parse : Binding -> Heap -> Heap.

(** X3.  Right after an edit is logged there is nothing to redo:
    [redo] returns the manager as it is, whatever was undone before
    the edit. *)
Theorem redo_after_edit_is_noop tm c txt tm' :
  UndoManager.reachable (undomanager tm) ->
  undo_add fuel image_w tm c txt = Ok tm' ->
  redo fuel image_w lexer_relex inc_parse tm' = Ok tm'.
Proof.
  intros Hr H. unfold undo_add in H. step_res H. step_res H.
  inversion H; subst tm'; clear H.
  destruct (add_on_top (undomanager tm) c txt a (Cursor.line (cursor tm))
              (reachable_wf _ Hr)) as (um' & Hadd & Hpos & _).
  rewrite Hadd in E0. inversion E0; subst a0.
  unfold redo. cbn [undomanager set_undomanager]. rewrite Hpos.
  destruct (Z.ltb_spec (Z.of_nat (length (UndoManager.stack um')) - 1 + 1)
              (Z.of_nat (length (UndoManager.stack um')))); [lia|].
  now rewrite andb_false_r.
Qed.

End UndoRedoEdges.

Lemma redo_after_edit_is_noop_witness :
  exists tm',
    TreeManager.undo_add Demo.fuel Demo.image_w Demo.doc_a UndoManager.CmdInsert "b" = Ok tm'
    /\ TreeManager.redo Demo.fuel Demo.image_w Demo.relex Demo.inc_parse tm' = Ok tm'.
Proof.
  set (tm' := Demo.run (TreeManager.undo_add Demo.fuel Demo.image_w Demo.doc_a
                          UndoManager.CmdInsert "b")).
  assert (TreeManager.undo_add Demo.fuel Demo.image_w Demo.doc_a UndoManager.CmdInsert "b"
          = Ok tm') as Hrun by (vm_compute; reflexivity).
  exists tm'. split; [exact Hrun|].
  apply (redo_after_edit_is_noop Demo.fuel Demo.image_w Demo.relex Demo.inc_parse
           Demo.doc_a UndoManager.CmdInsert "b" tm'); [|exact Hrun].
  replace (TreeManager.undomanager Demo.doc_a) with Demo.typed_a by (vm_compute; reflexivity).
  exact reachable_typed_a.
Defined.

(** ** Line endings of imported text *)

Section LineEndings.

Import TreeManager.

Lemma replace_lf_no_lf s : ~ In LF (list_ascii_of_string (replace_lf s)).
Proof.
  induction s as [|c s IH]; cbn [replace_lf list_ascii_of_string]; [tauto|].
  intros [H|H]; [|tauto].
  destruct (Ascii.eqb_spec c LF) as [E|E]; [discriminate H|auto].
Qed.

Lemma replace_lf_length s : String.length (replace_lf s) = String.length s.
Proof. induction s as [|c s IH]; cbn [replace_lf String.length]; congruence. Qed.

Lemma replace_lf_id s : ~ In LF (list_ascii_of_string s) -> replace_lf s = s.
Proof.
  induction s as [|c s IH]; cbn [replace_lf list_ascii_of_string]; [reflexivity|].
  intros H. destruct (Ascii.eqb_spec c LF) as [E|E].
  - exfalso. apply H. now left.
  - f_equal. apply IH. intros Hs. apply H. now right.
Qed.

Lemma replace_crlf_step c d s :
  replace_crlf (String c (String d s))
  = if Ascii.eqb c CR && Ascii.eqb d LF
    then String CR (replace_crlf s)
    else String c (replace_crlf (String d s)).
Proof. reflexivity. Qed.

Lemma replace_crlf_facts n : forall s, (String.length s <= n)%nat ->
  (String.length (replace_crlf s) <= String.length s)%nat
  /\ (~ In LF (list_ascii_of_string s) -> replace_crlf s = s).
Proof.
  induction n as [|n IH]; intros s Hn.
  - destruct s; [cbn; split; [lia|reflexivity]|cbn in Hn; lia].
  - destruct s as [|c [|d s]]; [cbn; split; [lia|reflexivity]..|].
    rewrite replace_crlf_step. cbn [String.length] in Hn.
    destruct (Ascii.eqb c CR && Ascii.eqb d LF) eqn:E.
    + assert (String.length s <= n)%nat as Hs by lia.
      destruct (IH s Hs) as [H1 _]. split; [cbn [String.length]; lia|].
      intros H. exfalso. apply H. apply andb_true_iff in E. destruct E as [_ E].
      apply Ascii.eqb_eq in E. subst d. right. now left.
    + assert (String.length (String d s) <= n)%nat as Hs by (cbn [String.length]; lia).
      destruct (IH (String d s) Hs) as [H1 H2]. split.
      * cbn [String.length] in *. lia.
      * intros H. f_equal. apply H2. intros Hin. apply H. now right.
Qed.

(** X4.  The conversion of line endings that [import_file] applies to
    its text (["\r\n"] and then ["\n"] become ["\r"]) leaves no line
    feed in the text, never makes it longer, and returns a text that
    holds no line feed as it is. *)
Theorem import_line_endings s :
  ~ In LF (list_ascii_of_string (replace_lf (replace_crlf s)))
  /\ (String.length (replace_lf (replace_crlf s)) <= String.length s)%nat
  /\ (~ In LF (list_ascii_of_string s) -> replace_lf (replace_crlf s) = s).
Proof.
  destruct (replace_crlf_facts (String.length s) s (le_n _)) as [H1 H2].
  split; [apply replace_lf_no_lf|]. split; [now rewrite replace_lf_length|].
  intros H. rewrite (H2 H). now apply replace_lf_id.
Qed.

End LineEndings.

(** ** The table of parsers *)

Section BindingTable.

Import TreeManager.

Variable inc_parse : Binding -> Heap -> Heap.

Lemma find_binding_app ps b r :
  find_binding (ps ++ [b]) r
  = match find_binding ps r with
    | Some p => Some p
    | None => if Nat.eqb (parser_root b) r then Some b else None
    end.
Proof.
  induction ps as [|q ps IH]; cbn [app find_binding]; [reflexivity|].
  destruct (Nat.eqb (parser_root q) r); [reflexivity|exact IH].
Qed.

(** X5.  [add_parser] appends its triple to the table.  Every root
    that had a binding keeps it, a root without one is bound to the
    new triple, and only the first parser of a manager sets up the
    document: it becomes the main root and gets the first line record
    and the cursor, with an empty selection; a later parser leaves
    lines, cursor, selection and main root untouched. *)
Theorem add_parser_binds tm b tm' :
  add_parser inc_parse tm b = Ok tm' ->
  parsers tm' = parsers tm ++ [b]
  /\ (forall r p, get_parser tm r = Some p -> get_parser tm' r = Some p)
  /\ (get_parser tm (parser_root b) = None -> get_parser tm' (parser_root b) = Some b)
  /\ (parsers tm <> [] ->
      lines tm' = lines tm /\ cursor tm' = cursor tm /\ mainroot tm' = mainroot tm
      /\ selection_start tm' = selection_start tm /\ selection_end tm' = selection_end tm)
  /\ (parsers tm = [] ->
      mainroot tm' = Some (parser_root b)
      /\ (exists first, children_first (heap tm') (parser_root b) = Ok first
                        /\ lines tm' = lines tm ++ [Line.init first]
                        /\ cursor tm' = {| Cursor.node := first; Cursor.pos := 0;
                                           Cursor.line := 0 |})
      /\ hasSelection tm' = false).
Proof.
  unfold add_parser. cbn [parsers set_parsers set_heap heap].
  rewrite length_app. cbn [length].
  intros H.
  assert (parsers tm' = parsers tm ++ [b]) as Hp.
  { destruct (Nat.eqb (length (parsers tm) + 1) 1); [step_res H|];
      inversion H; reflexivity. }
  split; [exact Hp|]. unfold get_parser. rewrite Hp.
  split; [intros r p Hr; now rewrite find_binding_app, Hr|].
  split; [intros Hr; now rewrite find_binding_app, Hr, Nat.eqb_refl|].
  split.
  - intros Hne. destruct (Nat.eqb_spec (length (parsers tm) + 1) 1) as [E|E].
    + destruct (parsers tm); [congruence|cbn in E; lia].
    + inversion H; subst tm'. cbn. auto.
  - intros Hnil. rewrite Hnil in H. cbn [length Nat.add Nat.eqb] in H.
    step_res H. inversion H; subst tm'; clear H.
    cbn [mainroot heap lines cursor hasSelection selection_start selection_end].
    split; [reflexivity|]. split.
    + exists a. cbn [app]. auto.
    + unfold hasSelection, Cursor.ne, Cursor.eq, Cursor.copy.
      cbn [selection_start selection_end Cursor.node Cursor.pos].
      now rewrite Nat.eqb_refl.
Qed.

Lemma find_binding_list_remove p ps r :
  parser_root p <> r -> find_binding (list_remove p ps) r = find_binding ps r.
Proof.
  intros Hp. induction ps as [|a ps IH]; [reflexivity|]. cbn [list_remove].
  destruct (Binding_eqb a p) eqn:E.
  - apply Binding_eqb_eq in E. subst a. cbn [find_binding].
    destruct (Nat.eqb_spec (parser_root p) r); [contradiction|reflexivity].
  - cbn [find_binding]. now rewrite IH.
Qed.

Lemma delete_parser_loop_others k : forall i ps r r',
  r' <> r -> find_binding (delete_parser_loop k i ps r) r' = find_binding ps r'.
Proof.
  induction k as [|k IH]; intros i ps r r' Hne; [reflexivity|].
  cbn [delete_parser_loop]. destruct (ps !! i) as [p|]; [|reflexivity].
  destruct (Nat.eqb_spec (parser_root p) r) as [E|E]; [|now apply IH].
  rewrite IH by assumption. apply find_binding_list_remove. congruence.
Qed.

(** X6.  [delete_parser(root)] changes the table of parsers only: the
    binding of every other root is found as before, and when no root
    has two parsers, no parser, lexer or language is found for [root]
    afterwards. *)
Theorem delete_parser_forgets_root tm r :
  List.NoDup (map parser_root (parsers tm)) ->
  get_parser (delete_parser tm r) r = None
  /\ get_lexer (delete_parser tm r) r = None
  /\ get_language (delete_parser tm r) r = None
  /\ (forall r', r' <> r ->
        get_parser (delete_parser tm r) r' = get_parser tm r'
        /\ get_lexer (delete_parser tm r) r' = get_lexer tm r'
        /\ get_language (delete_parser tm r) r' = get_language tm r')
  /\ heap (delete_parser tm r) = heap tm
  /\ lines (delete_parser tm r) = lines tm
  /\ cursor (delete_parser tm r) = cursor tm.
Proof.
  intros Hnd. destruct (delete_parser_removes tm r Hnd) as [H1 H2].
  split; [exact H1|]. split; [exact H2|].
  split; [unfold get_language; unfold get_parser in H1; now rewrite H1|].
  split; [|cbn; auto].
  intros r' Hne. unfold get_parser, get_lexer, get_language, delete_parser.
  cbn [parsers set_parsers]. now rewrite delete_parser_loop_others.
Qed.

End BindingTable.

Lemma add_parser_binds_witness :
  exists tm',
    Demo.new_document = Ok tm'
    /\ TreeManager.parsers tm' = [Demo.python]
    /\ TreeManager.mainroot tm' = Some 0%nat
    /\ TreeManager.get_parser tm' 0%nat = Some Demo.python.
Proof.
  set (tm' := Demo.run Demo.new_document).
  assert (Demo.new_document = Ok tm') as Hrun by (vm_compute; reflexivity).
  exists tm'. split; [exact Hrun|].
  destruct (add_parser_binds Demo.inc_parse _ Demo.python tm' Hrun)
    as (Hp & _ & Hnew & _ & Hfirst).
  split; [exact Hp|]. split.
  - now destruct (Hfirst eq_refl) as [Hm _].
  - apply Hnew. reflexivity.
Defined.

Lemma delete_parser_forgets_root_witness :
  TreeManager.get_parser (TreeManager.delete_parser Demo.doc_box_x 1%nat) 1%nat = None
  /\ TreeManager.get_parser (TreeManager.delete_parser Demo.doc_box_x 1%nat) 0%nat
     = Some Demo.python.
Proof.
  destruct (delete_parser_forgets_root Demo.doc_box_x 1%nat) as (H1 & _ & _ & Ho & _).
  - vm_compute. repeat constructor; cbn; intuition discriminate.
  - split; [exact H1|]. destruct (Ho 0%nat ltac:(discriminate)) as [-> _].
    vm_compute. reflexivity.
Defined.

(** ** What indentation repair leaves alone *)

Section RepairFrame.

Import TreeManager.

Variable fuel : nat.

Lemma only_repaired_refl tm : only_repaired tm tm.
Proof. unfold only_repaired. tauto. Qed.

Lemma only_repaired_trans tm1 tm2 tm3 :
  only_repaired tm1 tm2 -> only_repaired tm2 tm3 -> only_repaired tm1 tm3.
Proof. unfold only_repaired. intuition congruence. Qed.

Lemma only_repaired_set_heap tm h : only_repaired tm (set_heap tm h).
Proof. unfold only_repaired. cbn. tauto. Qed.

Lemma map_set_index {A B} (f : A -> B) (l : list A) (i : Z) (a b : A) :
  Py.index l i = Ok a -> f b = f a -> map f (Py.set_index l i b) = map f l.
Proof.
  unfold Py.index, Py.set_index. intros H Hf.
  destruct (_ <? 0); [discriminate H|].
  destruct (l !! Z.to_nat _) as [a'|] eqn:E; [|discriminate H].
  inversion H; subst a'. rewrite list_fmap_insert, Hf.
  apply list_insert_id. now rewrite list_lookup_fmap, E.
Qed.

Lemma only_repaired_set_line tm y ly l :
  Py.index (lines tm) y = Ok ly -> unrepaired l = unrepaired ly ->
  only_repaired tm (set_line tm y l).
Proof.
  intros H Hn. unfold only_repaired, set_line. cbn [lines set_lines parsers cursor
    selection_start selection_end mainroot undomanager changed edit_rightnode last_delchar
    last_search].
  split; [|tauto]. eapply map_set_index; eauto.
Qed.

Lemma only_repaired_set_indent tm y v tm' :
  set_indent tm y v = Ok tm' -> only_repaired tm tm'.
Proof.
  unfold set_indent. intros H. step_res H. inversion H; subst tm'.
  eapply only_repaired_set_line; eauto.
Qed.

(** Chain the facts at hand, from the last manager backwards. *)
Ltac rep_solve :=
  first
    [ apply only_repaired_refl
    | assumption
    | match goal with
      | H : only_repaired ?b ?c |- only_repaired ?a ?c =>
          apply (only_repaired_trans a b c); [clear H; rep_solve | exact H]
      end
    | match goal with
      | |- only_repaired ?a (set_heap ?b ?h) =>
          apply (only_repaired_trans a b); [rep_solve | apply only_repaired_set_heap]
      | H : Py.index (lines ?b) ?y = Ok ?ly |- only_repaired ?a (set_line ?b ?y ?l) =>
          apply (only_repaired_trans a b);
          [rep_solve | apply (only_repaired_set_line b y ly l H); reflexivity]
      end ].

Ltac rep_with known :=
  res_cases;
  repeat match goal with
    | IH : (forall _, _), E : _ = Ok _ |- _ => apply IH in E
    | E : _ = Ok _ |- _ => known E
    end;
  rep_solve.

Ltac rknown1 E := apply only_repaired_set_indent in E.

Lemma only_repaired_remove_indentation_nodes tm o tm' o' :
  remove_indentation_nodes fuel tm o = Ok (tm', o') -> only_repaired tm tm'.
Proof. unfold remove_indentation_nodes. intros H. rep_with rknown1. Qed.

Ltac rknown2 E := first [rknown1 E | apply only_repaired_remove_indentation_nodes in E].

Lemma only_repaired_update_indentation_backwards_loop k tm y root ws fs tm' :
  update_indentation_backwards_loop fuel k tm y root ws fs = Ok tm' -> only_repaired tm tm'.
Proof.
  revert fs. induction k as [|k IH]; intros fs H;
    cbn [update_indentation_backwards_loop] in H; rep_with rknown2.
Qed.

Lemma only_repaired_update_indentation_backwards tm y tm' :
  update_indentation_backwards fuel tm y = Ok tm' -> only_repaired tm tm'.
Proof.
  unfold update_indentation_backwards. intros H.
  rep_with ltac:(fun E => apply only_repaired_update_indentation_backwards_loop in E).
Qed.

Ltac rknown3 E :=
  first [rknown2 E | apply only_repaired_update_indentation_backwards in E].

Lemma only_repaired_new_indent_nodes tm y tm' l :
  new_indent_nodes fuel tm y = Ok (tm', l) -> only_repaired tm tm'.
Proof. unfold new_indent_nodes. intros H. rep_with rknown3. Qed.

Ltac rknown4 E := first [rknown3 E | apply only_repaired_new_indent_nodes in E].

Lemma only_repaired_repair_indentation tm y tm' :
  repair_indentation fuel tm y = Ok tm' -> only_repaired tm tm'.
Proof. unfold repair_indentation. intros H. rep_with rknown4. Qed.

Ltac rknown5 E := first [rknown4 E | apply only_repaired_repair_indentation in E].

Lemma only_repaired_rescan_following_loop k tm i th cw ci tm' :
  rescan_following_loop fuel k tm i th cw ci = Ok tm' -> only_repaired tm tm'.
Proof.
  revert tm i cw ci. induction k as [|k IH]; intros tm i cw ci H;
    cbn [rescan_following_loop] in H; rep_with rknown5.
Qed.

Ltac rknown6 E := first [rknown5 E | apply only_repaired_rescan_following_loop in E].

Lemma only_repaired_rescan_indentations tm y tm' :
  rescan_indentations fuel tm y = Ok tm' -> only_repaired tm tm'.
Proof. unfold rescan_indentations. intros H. rep_with rknown6. Qed.

Lemma only_repaired_repair_all_loop k : forall tm y tm',
  repair_all_loop fuel k tm y = Ok tm' -> only_repaired tm tm'.
Proof.
  induction k as [|k IH]; intros tm y tm' H; cbn [repair_all_loop] in H; rep_with rknown5.
Qed.

(** X7.  Indentation repair never re-indexes the document.  Each of
    [update_indentation_backwards], [repair_indentation] and
    [rescan_indentations] (and the repair of all lines that
    [import_file] runs) leaves the line records in the same number and
    order, each with its anchor, height and width, and leaves cursor,
    selection, table of parsers, main root, undo log, flags, last
    deleted character and last search as they were: only the node
    store and the [indent] and [ws] of line records can change. *)
Theorem indentation_repair_keeps_index tm y tm' :
  update_indentation_backwards fuel tm y = Ok tm'
  \/ repair_indentation fuel tm y = Ok tm'
  \/ rescan_indentations fuel tm y = Ok tm'
  \/ repair_all_loop fuel (length (lines tm)) tm y = Ok tm' ->
  only_repaired tm tm'.
Proof.
  intros [H|[H|[H|H]]].
  - eapply only_repaired_update_indentation_backwards; eauto.
  - eapply only_repaired_repair_indentation; eauto.
  - eapply only_repaired_rescan_indentations; eauto.
  - eapply only_repaired_repair_all_loop; eauto.
Qed.

Lemma get_indentation_of_logical tm y pw :
  is_logical_line fuel tm y = Ok true -> get_indentation fuel tm y = Ok pw ->
  exists p, pw = Some p.
Proof.
  unfold get_indentation. intros Hl H. rewrite Hl in H. cbn [Py.bind negb] in H.
  res_cases; eauto.
Qed.

Lemma scan_skips_weaken tm root ws j :
  scan_skips fuel tm root ws false j -> scan_skips fuel tm root ws true j.
Proof. intros [H|[H|[H _]]]; [now left|right; now left|discriminate]. Qed.

Lemma update_indentation_backwards_loop_result k : forall tm y root ws fs tm',
  update_indentation_backwards_loop fuel k tm y root ws fs = Ok tm' ->
  tm' = tm
  \/ exists (dy : nat) ly ldy p,
       (dy < k)%nat
       /\ Py.index (lines tm) y = Ok ly
       /\ Py.index (lines tm) (Z.of_nat dy) = Ok ldy
       /\ get_root (heap tm) (Line.node ldy) = Ok root
       /\ is_logical_line fuel tm (Z.of_nat dy) = Ok true
       /\ get_indentation fuel tm (Z.of_nat dy) = Ok (Some p)
       /\ (Py.eq2 ws (Some p) = true
           /\ (forall j, Z.of_nat dy < j < Z.of_nat k -> scan_skips fuel tm root ws true j)
           /\ tm' = set_line tm y (Line.with_indent ly (Line.indent ldy))
           \/ Py.gt2 ws (Some p) = true
              /\ fs = false
              /\ (forall j, Z.of_nat dy < j < Z.of_nat k -> scan_skips fuel tm root ws false j)
              /\ tm' = set_line tm y (Line.with_indent ly (Line.indent ldy + 1))).
Proof.
  induction k as [|k IH]; intros tm y root ws fs tm' H;
    cbn [update_indentation_backwards_loop] in H.
  { left. now inversion H. }
  assert (forall fs' : bool,
            scan_skips fuel tm root ws fs' (Z.of_nat k) ->
            (fs = true -> fs' = true) ->
            update_indentation_backwards_loop fuel k tm y root ws fs' = Ok tm' ->
            tm' = tm
            \/ exists (dy : nat) ly ldy p,
                 (dy < S k)%nat
                 /\ Py.index (lines tm) y = Ok ly
                 /\ Py.index (lines tm) (Z.of_nat dy) = Ok ldy
                 /\ get_root (heap tm) (Line.node ldy) = Ok root
                 /\ is_logical_line fuel tm (Z.of_nat dy) = Ok true
                 /\ get_indentation fuel tm (Z.of_nat dy) = Ok (Some p)
                 /\ (Py.eq2 ws (Some p) = true
                     /\ (forall j, Z.of_nat dy < j < Z.of_nat (S k) ->
                                   scan_skips fuel tm root ws true j)
                     /\ tm' = set_line tm y (Line.with_indent ly (Line.indent ldy))
                     \/ Py.gt2 ws (Some p) = true
                        /\ fs = false
                        /\ (forall j, Z.of_nat dy < j < Z.of_nat (S k) ->
                                      scan_skips fuel tm root ws false j)
                        /\ tm' = set_line tm y (Line.with_indent ly (Line.indent ldy + 1))))
    as Hrec.
  { intros fs' Hk Hfs H'.
    destruct (IH _ _ _ _ _ _ H')
      as [->|(dy & ly & ldy & p & Hlt & Hly & Hldy & Hr & Hlog & Hp & Hcase)];
      [now left|right].
    exists dy, ly, ldy, p. repeat (split; [first [assumption|lia]|]).
    destruct Hcase as [(Heq & Hbetween & ->)|(Hgt & -> & Hbetween & ->)]; [left|right].
    - split; [exact Heq|]. split; [|reflexivity].
      intros j Hj. destruct (Z.eq_dec j (Z.of_nat k)) as [->|Hne].
      + destruct fs'; [exact Hk|now apply scan_skips_weaken].
      + apply Hbetween. lia.
    - split; [exact Hgt|]. split; [destruct fs; [now specialize (Hfs eq_refl)|reflexivity]|].
      split; [|reflexivity].
      intros j Hj. destruct (Z.eq_dec j (Z.of_nat k)) as [->|Hne]; [exact Hk|].
      apply Hbetween. lia. }
  step_res H. destruct a.
  2:{ cbn [negb] in H. apply (Hrec fs); auto.
      destruct fs; now left. }
  cbn [negb] in H.
  step_res H. step_res H. unfold is_same_language in H.
  destruct (Nat.eqb_spec root a0) as [<-|Hne]; cbn [negb] in H.
  2:{ apply (Hrec fs); auto.
      assert (scan_skips fuel tm root ws false (Z.of_nat k)) as Hs
        by (right; left; exists a, a0; auto).
      destruct fs; [now apply scan_skips_weaken|exact Hs]. }
  step_res H.
  destruct (get_indentation_of_logical _ _ _ E E2) as [p ->].
  destruct (Py.lt2 ws (Some p)) eqn:Hlt.
  { apply (Hrec true); auto. right; right. split; [reflexivity|]. eauto. }
  destruct (Py.eq2 ws (Some p)) eqn:Heq.
  - unfold set_indent in H. step_res H. inversion H; subst tm'.
    right. exists k, a0, a, p. repeat (split; [first [assumption|reflexivity|lia]|]).
    left. split; [first [assumption|reflexivity]|]. split; [intros j Hj; lia|reflexivity].
  - destruct (Py.gt2 ws (Some p)) eqn:Hgt.
    + destruct fs; cbn [negb] in H; [left; now inversion H|].
      unfold set_indent in H. step_res H. inversion H; subst tm'.
      right. exists k, a0, a, p. repeat (split; [first [assumption|reflexivity|lia]|]).
      right. split; [first [assumption|reflexivity]|]. split; [reflexivity|].
      split; [intros j Hj; lia|reflexivity].
    + exfalso. unfold Py.gt2 in Hgt. destruct ws as [w|]; cbn in Hlt, Heq, Hgt; [|discriminate].
      destruct (Z.ltb_spec w p); [discriminate|].
      destruct (Z.eqb_spec w p); [discriminate|].
      destruct (Z.ltb_spec p w); [discriminate|lia].
Qed.

(** X8.  [update_indentation_backwards(y)] changes at most the
    [indent] of line [y], and nothing else of the manager.  When it
    sets the level, it does so from an earlier logical line [dy] of the
    same root: either [dy] has the same leading whitespace as [y] and
    every line between them is not logical, of another root or has
    more leading whitespace, and [y] gets the level of [dy]; or [dy]
    has less leading whitespace and every line between them is not
    logical or of another root, and [y] gets the level of [dy] plus
    one. *)
Theorem update_indentation_backwards_sets_one_level tm y tm' :
  update_indentation_backwards fuel tm y = Ok tm' ->
  tm' = tm
  \/ exists (dy : nat) ly ldy root ws p,
       Z.of_nat dy < y
       /\ Py.index (lines tm) y = Ok ly
       /\ Py.index (lines tm) (Z.of_nat dy) = Ok ldy
       /\ get_root (heap tm) (Line.node ly) = Ok root
       /\ get_root (heap tm) (Line.node ldy) = Ok root
       /\ is_logical_line fuel tm (Z.of_nat dy) = Ok true
       /\ get_indentation fuel tm y = Ok ws
       /\ get_indentation fuel tm (Z.of_nat dy) = Ok (Some p)
       /\ (Py.eq2 ws (Some p) = true
           /\ (forall j, Z.of_nat dy < j < y -> scan_skips fuel tm root ws true j)
           /\ tm' = set_line tm y (Line.with_indent ly (Line.indent ldy))
           \/ Py.gt2 ws (Some p) = true
              /\ (forall j, Z.of_nat dy < j < y -> scan_skips fuel tm root ws false j)
              /\ tm' = set_line tm y (Line.with_indent ly (Line.indent ldy + 1))).
Proof.
  unfold update_indentation_backwards. intros H.
  step_res H. step_res H. step_res H.
  destruct (update_indentation_backwards_loop_result _ _ _ _ _ _ _ H)
    as [->|(dy & ly & ldy & p & Hlt & Hly & Hldy & Hr & Hlog & Hp & Hcase)];
    [now left|right].
  assert (ly = a) as -> by congruence.
  exists dy, a, ldy, a0, a1, p.
  repeat (split; [first [assumption | reflexivity | lia]|]).
  destruct Hcase as [(Heq & Hb & ->)|(Hgt & _ & Hb & ->)]; [left|right];
    (split; [assumption|]); (split; [|reflexivity]);
    intros j Hj; apply Hb; lia.
Qed.

Ltac rknown7 E := first [rknown6 E | apply only_repaired_rescan_indentations in E].

Lemma only_repaired_post_keypress_loop k : forall tm i tm',
  post_keypress_loop fuel k tm i = Ok tm' -> only_repaired tm tm'.
Proof.
  induction k as [|k IH]; intros tm i tm' H; cbn [post_keypress_loop] in H;
    rep_with rknown7.
Qed.

Lemma length_list_insert_at {A} (l : list A) (i : Z) (a : A) :
  length (list_insert_at l i a) = S (length l).
Proof.
  unfold list_insert_at. rewrite length_app. cbn [length].
  rewrite length_take, length_drop. lia.
Qed.

Lemma rescan_linebreaks_loop_grows h next k : forall ls y current ls',
  rescan_linebreaks_loop k h ls y current next = Ok ls' ->
  (length ls <= length ls')%nat.
Proof.
  induction k as [|k IH]; intros ls y current ls' H; [discriminate H|].
  cbn [rescan_linebreaks_loop] in H.
  destruct (Nat.eqb current next); [inversion H; lia|].
  step_res H.
  assert (forall y1 ls1 : _, (length ls <= length ls1)%nat ->
            (if is_Magic a
             then let* r := match ast (symbol a) with
                            | Some r => Ok r
                            | None => Raise AttributeError
                            end in
                  let* j := children_first h r in
                  rescan_linebreaks_loop k h ls1 y1 j next
             else if is_EOS a
                  then let* r := get_root h current in
                       let* lbox := get_magicterminal h r in
                       match lbox with
                       | Some l =>
                           let* nl := get h l in
                           let* j := deref (next_term nl) in
                           rescan_linebreaks_loop k h ls1 y1 j next
                       | None => rescan_linebreaks_loop k h ls1 y1 current next
                       end
                  else let* j := deref (next_term a) in
                       rescan_linebreaks_loop k h ls1 y1 j next) = Ok ls' ->
            (length ls <= length ls')%nat) as Hstep.
  { intros y1 ls1 Hle H1. res_cases;
      match goal with E : rescan_linebreaks_loop _ _ _ _ _ _ = Ok _ |- _ =>
        apply IH in E; lia end. }
  destruct (is_return a).
  - eapply Hstep; [|exact H]. rewrite length_list_insert_at. lia.
  - eapply Hstep; [|exact H]. lia.
Qed.

(** X9.  [post_keypress(text)] rescans line breaks and indentation
    without touching the place of the cursor, the selection, the
    table of parsers or the undo log; it never removes a line record;
    and it moves the cursor one line down exactly when the text starts
    with a line break. *)
Theorem post_keypress_moves_line tm txt tm' :
  post_keypress fuel tm txt = Ok tm' ->
  cursor tm'
  = (if Py.startswith_cr txt
     then Cursor.with_line (cursor tm) (Cursor.line (cursor tm) + 1)
     else cursor tm)
  /\ (length (lines tm) <= length (lines tm'))%nat
  /\ parsers tm' = parsers tm
  /\ selection_start tm' = selection_start tm
  /\ selection_end tm' = selection_end tm
  /\ undomanager tm' = undomanager tm.
Proof.
  unfold post_keypress. intros H. step_res H. step_res H.
  apply only_repaired_post_keypress_loop in E0.
  unfold rescan_linebreaks in E. step_res E. step_res E. step_res E. step_res E.
  step_res E. inversion E; subst a; clear E.
  apply rescan_linebreaks_loop_grows in E5.
  destruct E0 as (Hl & Hp & Hc & Hs & He & _ & Hu & _).
  cbn [lines set_lines parsers cursor selection_start selection_end undomanager] in *.
  assert (length (lines a0) = length a5) as Hlen
    by (apply (f_equal (@length _)) in Hl; now rewrite !length_map in Hl).
  destruct (Py.startswith_cr txt); inversion H; subst tm';
    cbn [lines set_cursor parsers cursor selection_start selection_end undomanager];
    rewrite Hc; repeat (split; [first [reflexivity | assumption | lia]|]); assumption.
Qed.

End RepairFrame.

Lemma indentation_repair_keeps_index_witness :
  exists tm',
    TreeManager.rescan_indentations Demo.fuel Demo.doc_dedent 1 = Ok tm'
    /\ only_repaired Demo.doc_dedent tm'.
Proof.
  set (tm' := Demo.run (TreeManager.rescan_indentations Demo.fuel Demo.doc_dedent 1)).
  assert (TreeManager.rescan_indentations Demo.fuel Demo.doc_dedent 1 = Ok tm') as Hrun
    by (vm_compute; reflexivity).
  exists tm'. split; [exact Hrun|].
  apply (indentation_repair_keeps_index Demo.fuel Demo.doc_dedent 1 tm').
  right. right. left. exact Hrun.
Defined.

Lemma update_indentation_backwards_sets_one_level_witness :
  exists tm',
    TreeManager.update_indentation_backwards Demo.fuel Demo.doc_dedent 1 = Ok tm'
    /\ map Line.indent (TreeManager.lines tm') = [0; 1; 0; 1; 0]
    /\ (tm' = Demo.doc_dedent
        \/ exists (dy : nat) ly ldy root ws p,
             Z.of_nat dy < 1
             /\ Py.index (TreeManager.lines Demo.doc_dedent) 1 = Ok ly
             /\ Py.index (TreeManager.lines Demo.doc_dedent) (Z.of_nat dy) = Ok ldy
             /\ get_root (TreeManager.heap Demo.doc_dedent) (Line.node ly) = Ok root
             /\ get_root (TreeManager.heap Demo.doc_dedent) (Line.node ldy) = Ok root
             /\ TreeManager.is_logical_line Demo.fuel Demo.doc_dedent (Z.of_nat dy) = Ok true
             /\ TreeManager.get_indentation Demo.fuel Demo.doc_dedent 1 = Ok ws
             /\ TreeManager.get_indentation Demo.fuel Demo.doc_dedent (Z.of_nat dy)
                = Ok (Some p)
             /\ (Py.eq2 ws (Some p) = true
                 /\ (forall j, Z.of_nat dy < j < 1 ->
                        scan_skips Demo.fuel Demo.doc_dedent root ws true j)
                 /\ tm' = TreeManager.set_line Demo.doc_dedent 1
                            (Line.with_indent ly (Line.indent ldy))
                 \/ Py.gt2 ws (Some p) = true
                    /\ (forall j, Z.of_nat dy < j < 1 ->
                           scan_skips Demo.fuel Demo.doc_dedent root ws false j)
                    /\ tm' = TreeManager.set_line Demo.doc_dedent 1
                               (Line.with_indent ly (Line.indent ldy + 1)))).
Proof.
  set (tm' := Demo.run (TreeManager.update_indentation_backwards Demo.fuel Demo.doc_dedent 1)).
  assert (TreeManager.update_indentation_backwards Demo.fuel Demo.doc_dedent 1 = Ok tm')
    as Hrun by (vm_compute; reflexivity).
  exists tm'. split; [exact Hrun|]. split; [vm_compute; reflexivity|].
  exact (update_indentation_backwards_sets_one_level Demo.fuel Demo.doc_dedent 1 tm' Hrun).
Defined.

Lemma post_keypress_moves_line_witness :
  exists tm',
    TreeManager.post_keypress Demo.fuel Demo.doc_dedent Py.cr = Ok tm'
    /\ Cursor.line (TreeManager.cursor tm') = 1
    /\ TreeManager.parsers tm' = TreeManager.parsers Demo.doc_dedent.
Proof.
  set (tm' := Demo.run (TreeManager.post_keypress Demo.fuel Demo.doc_dedent Py.cr)).
  assert (TreeManager.post_keypress Demo.fuel Demo.doc_dedent Py.cr = Ok tm') as Hrun
    by (vm_compute; reflexivity).
  exists tm'. split; [exact Hrun|].
  destruct (post_keypress_moves_line Demo.fuel Demo.doc_dedent Py.cr tm' Hrun)
    as (Hc & _ & Hp & _).
  split; [rewrite Hc; vm_compute; reflexivity|exact Hp].
Defined.

(** ** Cursor movement *)

Section CursorMoves.

Import Cursor.

Variable fuel : nat.
Variable image_w : Node -> Z.
Variable h : Heap.

Lemma left_lands c c' : left fuel h c = Ok c' -> landed h c c'.
Proof.
  unfold left, landed. intros H. step_res H. rename a into n0.
  assert (exists i, (if negb (is_visible n0) then find_previous_visible fuel h (node c)
                     else Ok (node c)) = Ok i
                    /\ exists n, get h i = Ok n
                                 /\ (is_visible n = true \/ outermost_sentinel h i n))
    as (i & Hi & Hland).
  { step_res H. exists a. split; [reflexivity|].
    destruct (is_visible n0) eqn:Hv; cbn [negb] in E0.
    - inversion E0; subst a. exists n0. auto.
    - eapply find_previous_visible_result; eauto. }
  rewrite Hi in H. cbn [Py.bind] in H. destruct Hland as (ni & Hni & Hvis).
  rewrite Hni in H. cbn [Py.bind] in H.
  destruct (is_return ni); [inversion H; auto|].
  destruct (is_BOS ni); [inversion H; auto|].
  destruct ((1 <? _) && _).
  - inversion H; subst c'. destruct (negb (i =? node c)%nat) eqn:Hn;
      cbn [with_pos line node]; (split; [reflexivity|]); right; [now exists ni|].
    apply negb_false_iff, Nat.eqb_eq in Hn. subst i. now exists ni.
  - step_res H. step_res H. inversion H; subst c'. cbn [line node].
    split; [now destruct (negb _)|]. right. eapply find_previous_visible_result; eauto.
Qed.

Lemma right_lands c c' : right fuel h c = Ok c' -> landed h c c'.
Proof.
  unfold right, landed. intros H. step_res H. rename a into n0.
  assert (exists i, (if negb (is_visible n0) then find_next_visible fuel h (node c)
                     else Ok (node c)) = Ok i
                    /\ exists n, get h i = Ok n
                                 /\ (is_visible n = true \/ outermost_sentinel h i n))
    as (i & Hi & Hland).
  { step_res H. exists a. split; [reflexivity|].
    destruct (is_visible n0) eqn:Hv; cbn [negb] in E0.
    - inversion E0; subst a. exists n0. auto.
    - eapply find_next_visible_result; eauto. }
  rewrite Hi in H. cbn [Py.bind] in H. destruct Hland as (ni & Hni & Hvis).
  rewrite Hni in H. cbn [Py.bind] in H.
  destruct (is_EOS ni); [inversion H; auto|].
  assert (line (if negb (i =? node c)%nat
                then {| node := i; pos := 0; line := line c |} else c) = line c) as Hline
    by now destruct (negb _).
  fold (landed h c c').
  set (c1 := if negb (i =? node c)%nat
             then {| node := i; pos := 0; line := line c |} else c) in *.
  assert (exists n1, get h (node c1) = Ok n1
                     /\ (is_visible n1 = true \/ outermost_sentinel h (node c1) n1))
    as (n1 & Hn1 & Hvis1).
  { unfold c1. destruct (negb (i =? node c)%nat) eqn:Hn; cbn [node]; [now exists ni|].
    apply negb_false_iff, Nat.eqb_eq in Hn. subst i. now exists ni. }
  assert (landed h c c1) as Hland1.
  { split; [exact Hline|]. right. now exists n1. }
  rewrite Hn1 in H. cbn [Py.bind] in H.
  destruct (_ <? _).
  - inversion H; subst c'. cbn [with_pos line node]. split; [exact Hline|].
    right. now exists n1.
  - step_res H. step_res H.
    destruct (is_return a0); [inversion H; subst c'; exact Hland1|].
    destruct (is_EOS a0); [inversion H; subst c'; exact Hland1|].
    inversion H; subst c'. cbn [line node]. split; [exact Hline|]. right.
    eapply find_next_visible_result; eauto.
Qed.

(** X10.  A cursor that [left] or [right] has moved stands on a
    visible node, or on a sentinel of a root that no language box
    embeds: never on an indentation marker, a boundary token or a
    sentinel of a language box.  Neither method changes the line of
    the cursor. *)
Theorem left_right_land_on_visible c c' :
  left fuel h c = Ok c' \/ right fuel h c = Ok c' -> landed h c c'.
Proof. intros [H|H]; [now apply left_lands|now apply right_lands]. Qed.

End CursorMoves.

Lemma left_right_land_on_visible_witness :
  exists c',
    Cursor.left Demo.fuel (TreeManager.heap Demo.doc_box_x)
      {| Cursor.node := 7%nat; Cursor.pos := 0; Cursor.line := 0 |} = Ok c'
    /\ Cursor.node c' = 2%nat
    /\ landed (TreeManager.heap Demo.doc_box_x)
         {| Cursor.node := 7%nat; Cursor.pos := 0; Cursor.line := 0 |} c'.
Proof.
  eexists. split; [vm_compute; reflexivity|]. split; [reflexivity|].
  apply (left_right_land_on_visible Demo.fuel). left. vm_compute. reflexivity.
Defined.

Section CursorRepair.

Import Cursor.

Variable fuel : nat.
Variable image_w : Node -> Z.
Variable h : Heap.

Lemma left_keeps_line c c' : left fuel h c = Ok c' -> line c' = line c.
Proof. intros H. now destruct (left_lands fuel h c c' H). Qed.

Lemma fix_deleted_loop_result k : forall c c',
  fix_deleted_loop fuel h k c = Ok c' ->
  line c' = line c
  /\ (exists n, get h (node c') = Ok n /\ deleted n = false)
  /\ (forall n, get h (node c) = Ok n -> deleted n = false -> c' = c).
Proof.
  induction k as [|k IH]; intros c c' H; [discriminate H|].
  cbn [fix_deleted_loop] in H. step_res H. destruct (deleted a) eqn:Hd.
  - step_res H. destruct (IH _ _ H) as (Hl & Hn & _).
    apply left_keeps_line in E0. cbn [with_pos line] in E0.
    split; [congruence|]. split; [exact Hn|]. intros n Hg. congruence.
  - inversion H; subst c'. split; [reflexivity|]. split; [eauto|]. reflexivity.
Qed.

Lemma fix_overflow_loop_result k : forall c c',
  fix_overflow_loop h k c = Ok c' ->
  line c' = line c
  /\ (exists n, get h (node c') = Ok n /\ pos c' <= name_len n)
  /\ (forall n, get h (node c) = Ok n -> pos c <= name_len n -> c' = c).
Proof.
  induction k as [|k IH]; intros c c' H; [discriminate H|].
  cbn [fix_overflow_loop] in H. step_res H.
  destruct (Z.ltb_spec (name_len a) (pos c)) as [Hlt|Hge].
  - step_res H. destruct (IH _ _ H) as (Hl & Hn & _). cbn [line] in Hl.
    split; [exact Hl|]. split; [exact Hn|]. intros n Hg Hp.
    assert (n = a) by congruence. subst n. lia.
  - inversion H; subst c'. split; [reflexivity|]. split; [eauto|]. reflexivity.
Qed.

(** X11.  After [Cursor.fix] the offset of the cursor does not exceed
    the length of the text of its node; the line of the cursor is
    unchanged; and a cursor on a node that is not deleted, with an
    offset inside the text, is left as it is. *)
Theorem fix_puts_offset_in_node c c' :
  fix_ fuel h c = Ok c' ->
  line c' = line c
  /\ (exists n, get h (node c') = Ok n /\ pos c' <= name_len n)
  /\ (forall n, get h (node c) = Ok n -> deleted n = false -> pos c <= name_len n ->
        c' = c).
Proof.
  unfold fix_. intros H. step_res H.
  destruct (fix_deleted_loop_result _ _ _ E) as (Hl1 & _ & Hid1).
  destruct (fix_overflow_loop_result _ _ _ H) as (Hl2 & Hn & Hid2).
  split; [congruence|]. split; [exact Hn|].
  intros n Hg Hd Hp. specialize (Hid1 n Hg Hd). subst a. eauto.
Qed.

End CursorRepair.

Lemma fix_puts_offset_in_node_witness :
  exists c',
    Cursor.fix_ Demo.fuel (TreeManager.heap Demo.doc_box_x)
      {| Cursor.node := 2%nat; Cursor.pos := 3; Cursor.line := 0 |} = Ok c'
    /\ Cursor.line c' = 0
    /\ exists n, get (TreeManager.heap Demo.doc_box_x) (Cursor.node c') = Ok n
                 /\ Cursor.pos c' <= Cursor.name_len n.
Proof.
  set (c := {| Cursor.node := 2%nat; Cursor.pos := 3; Cursor.line := 0 |}).
  set (c' := match Cursor.fix_ Demo.fuel (TreeManager.heap Demo.doc_box_x) c with
             | Ok x => x | Raise _ => c end).
  assert (Cursor.fix_ Demo.fuel (TreeManager.heap Demo.doc_box_x) c = Ok c') as Hrun
    by (vm_compute; reflexivity).
  exists c'. split; [exact Hrun|].
  destruct (fix_puts_offset_in_node Demo.fuel _ c c' Hrun) as (Hl & Hn & _).
  split; [exact Hl|exact Hn].
Defined.

(** ** Cursor keys *)

Section CursorKeys.

Import TreeManager.

Variable fuel : nat.
Variable image_w : Node -> Z.

Lemma move_to_x_loop_line h k : forall c x i c',
  Cursor.move_to_x_loop fuel image_w h k c x i = Ok c' -> Cursor.line c' = Cursor.line c.
Proof.
  induction k as [|k IH]; intros c x i c' H; [discriminate H|].
  cbn [Cursor.move_to_x_loop] in H. res_cases; try reflexivity.
  eapply IH; eauto.
Qed.

Lemma move_to_x_line h c x ls c' :
  Cursor.move_to_x fuel image_w h c x ls = Ok c' -> Cursor.line c' = Cursor.line c.
Proof.
  unfold Cursor.move_to_x. intros H. step_res H. eapply move_to_x_loop_line; eauto.
Qed.

Lemma cursor_movement_line tm key tm' :
  cursor_movement fuel image_w tm key = Ok tm' ->
  heap tm' = heap tm /\ lines tm' = lines tm /\ parsers tm' = parsers tm
  /\ undomanager tm' = undomanager tm /\ edit_rightnode tm' = edit_rightnode tm
  /\ selection_start tm' = selection_start tm /\ selection_end tm' = selection_end tm
  /\ Z.abs (Cursor.line (cursor tm') - Cursor.line (cursor tm)) <= 1
  /\ (0 <= Cursor.line (cursor tm) < Z.of_nat (length (lines tm)) ->
      0 <= Cursor.line (cursor tm') < Z.of_nat (length (lines tm))).
Proof.
  unfold cursor_movement. intros H. step_res H. inversion H; subst tm'; clear H.
  cbn [heap lines parsers undomanager edit_rightnode selection_start selection_end
       cursor set_cursor].
  repeat (split; [reflexivity|]).
  destruct key.
  - unfold Cursor.up in E. destruct (Z.ltb_spec 0 (Cursor.line (cursor tm))).
    + step_res E. apply move_to_x_line in E. cbn [Cursor.with_line Cursor.line] in E. lia.
    + inversion E; subst a. lia.
  - unfold Cursor.down in E.
    destruct (Z.ltb_spec (Cursor.line (cursor tm)) (Z.of_nat (length (lines tm)) - 1)).
    + step_res E. apply move_to_x_line in E. cbn [Cursor.with_line Cursor.line] in E. lia.
    + inversion E; subst a. lia.
  - apply left_keeps_line in E. lia.
  - apply right_lands in E. destruct E as [E _]. lia.
Qed.

(** X12.  A cursor key does not edit: [key_cursors] leaves the node
    store, the line index, the table of parsers and the entries of
    the undo log as they are.  It ends the running burst of the undo
    log (the next edit opens a new entry), clears [edit_rightnode],
    moves the cursor by at most one line and keeps its line inside
    the line index; without shift no selection is left, with shift
    the selection runs from its old start to the cursor. *)
Theorem key_cursors_only_moves tm key mod_shift tm' :
  key_cursors fuel image_w tm key mod_shift = Ok tm' ->
  heap tm' = heap tm /\ lines tm' = lines tm /\ parsers tm' = parsers tm
  /\ undomanager tm' = UndoManager.finish (undomanager tm)
  /\ edit_rightnode tm' = false
  /\ (if mod_shift
      then selection_start tm' = selection_start tm /\ selection_end tm' = cursor tm'
      else hasSelection tm' = false)
  /\ Z.abs (Cursor.line (cursor tm') - Cursor.line (cursor tm)) <= 1
  /\ (0 <= Cursor.line (cursor tm) < Z.of_nat (length (lines tm)) ->
      0 <= Cursor.line (cursor tm') < Z.of_nat (length (lines tm))).
Proof.
  unfold key_cursors. intros H. step_res H.
  apply cursor_movement_line in E.
  cbn [heap lines parsers undomanager edit_rightnode selection_start selection_end
       cursor set_undomanager set_edit_rightnode] in E.
  destruct E as (Hh & Hl & Hp & Hu & He & Hs & Hse & Habs & Hrange).
  destruct mod_shift; inversion H; subst tm'; clear H;
    unfold unselect, hasSelection, Cursor.ne, Cursor.eq, Cursor.copy;
    cbn [heap lines parsers undomanager edit_rightnode selection_start selection_end
         cursor set_selection];
    rewrite ?Nat.eqb_refl, ?Z.eqb_refl; auto 12.
Qed.

End CursorKeys.

Lemma key_cursors_only_moves_witness :
  exists tm',
    TreeManager.key_cursors Demo.fuel Demo.image_w Demo.doc_dedent TreeManager.KeyDown false
    = Ok tm'
    /\ Cursor.line (TreeManager.cursor tm') = 1
    /\ TreeManager.heap tm' = TreeManager.heap Demo.doc_dedent
    /\ TreeManager.hasSelection tm' = false.
Proof.
  set (tm' := Demo.run (TreeManager.key_cursors Demo.fuel Demo.image_w Demo.doc_dedent
                          TreeManager.KeyDown false)).
  assert (TreeManager.key_cursors Demo.fuel Demo.image_w Demo.doc_dedent
            TreeManager.KeyDown false = Ok tm') as Hrun by (vm_compute; reflexivity).
  exists tm'. split; [exact Hrun|]. split; [vm_compute; reflexivity|].
  destruct (key_cursors_only_moves Demo.fuel Demo.image_w Demo.doc_dedent
              TreeManager.KeyDown false tm' Hrun) as (Hh & _ & _ & _ & _ & Hsel & _).
  split; [exact Hh|exact Hsel].
Defined.

(** ** Selections *)

Section Selections.

Import TreeManager.

Variable fuel : nat.
Variable image_w : Node -> Z.
Variable lexer_relex : Binding -> NodeId -> Heap -> Heap.

Lemma cursor_eq_sym a b : Cursor.eq a b = Cursor.eq b a.
Proof. unfold Cursor.eq. now rewrite Nat.eqb_sym, Z.eqb_sym. Qed.

Lemma cursor_eq_refl a : Cursor.eq a a = true.
Proof. unfold Cursor.eq. now rewrite Nat.eqb_refl, Z.eqb_refl. Qed.

Lemma cursor_min_cases h a b c :
  cursor_min fuel image_w h a b = Ok c -> c = a \/ c = b.
Proof.
  unfold cursor_min. intros H. step_res H. inversion H. destruct a0; auto.
Qed.

Lemma cursor_max_cases h a b c :
  cursor_max fuel image_w h a b = Ok c -> c = a \/ c = b.
Proof.
  unfold cursor_max. intros H. step_res H. inversion H. destruct a0; auto.
Qed.

(** X13.  With an empty selection (start and end on the same node and
    offset) whose cursors can be compared, [get_nodes_from_selection]
    returns [None], and [deleteSelection], which unpacks that result,
    raises [TypeError] before it changes anything. *)
Theorem deleteSelection_needs_selection tm g :
  hasSelection tm = false ->
  Cursor.gt fuel image_w (heap tm) (selection_end tm) (selection_start tm) = Ok g ->
  get_nodes_from_selection fuel image_w tm = Ok None
  /\ deleteSelection fuel image_w lexer_relex tm = Raise TypeError.
Proof.
  intros Hs Hg. unfold hasSelection, Cursor.ne in Hs. apply negb_false_iff in Hs.
  assert (get_nodes_from_selection fuel image_w tm = Ok None) as Hnone.
  { unfold get_nodes_from_selection, cursor_min, cursor_max, Cursor.lt.
    rewrite Hg. cbn [Py.bind]. rewrite (cursor_eq_sym (selection_end tm)), Hs.
    rewrite orb_true_r. cbn [negb Py.bind].
    destruct g; [now rewrite Hs|now rewrite cursor_eq_refl]. }
  split; [exact Hnone|]. unfold deleteSelection. now rewrite Hnone.
Qed.

(** X14.  When [deleteSelection] returns, no selection is left, the
    document is marked as changed, the cursor stands where the
    selection started or ended, no line record has been added, and
    the table of parsers and the undo log are as before. *)
Theorem deleteSelection_clears_selection tm tm' :
  deleteSelection fuel image_w lexer_relex tm = Ok tm' ->
  hasSelection tm' = false
  /\ changed tm' = true
  /\ (cursor tm' = selection_start tm \/ cursor tm' = selection_end tm)
  /\ (length (lines tm') <= length (lines tm))%nat
  /\ parsers tm' = parsers tm
  /\ undomanager tm' = undomanager tm.
Proof.
  unfold deleteSelection, relex. intros H. res_cases.
  all: cbn [heap lines parsers undomanager cursor selection_start selection_end changed
            set_heap set_cursor set_lines set_selection set_changed] in *.
  all: unfold hasSelection, Cursor.ne, Cursor.copy;
    cbn [selection_start selection_end]; rewrite cursor_eq_refl.
  all: (split; [reflexivity|]); (split; [reflexivity|]).
  all: split; [match goal with
               | E : cursor_min _ _ _ _ _ = Ok _ |- _ =>
                   apply cursor_min_cases in E; exact E
               end|].
  all: split; [|auto].
  all: unfold list_del_slice;
    match goal with |- context [(?a <? ?b)%nat] => destruct (Nat.ltb_spec a b) end;
    [rewrite length_app, length_take, length_drop; lia|lia].
Qed.

End Selections.

Lemma deleteSelection_needs_selection_witness :
  TreeManager.get_nodes_from_selection Demo.fuel Demo.image_w Demo.doc_ab = Ok None
  /\ TreeManager.deleteSelection Demo.fuel Demo.image_w Demo.relex Demo.doc_ab
     = Raise TypeError.
Proof.
  apply (deleteSelection_needs_selection Demo.fuel Demo.image_w Demo.relex Demo.doc_ab false);
    vm_compute; reflexivity.
Defined.

Lemma deleteSelection_clears_selection_witness :
  exists tm',
    TreeManager.deleteSelection Demo.fuel Demo.image_w Demo.relex
      (TreeManager.set_selection Demo.doc_ab
         {| Cursor.node := 2%nat; Cursor.pos := 1; Cursor.line := 0 |}
         {| Cursor.node := 2%nat; Cursor.pos := 2; Cursor.line := 0 |}) = Ok tm'
    /\ Demo.export_output tm' = Ok "a"%string
    /\ TreeManager.hasSelection tm' = false
    /\ TreeManager.changed tm' = true.
Proof.
  set (tm := TreeManager.set_selection Demo.doc_ab
               {| Cursor.node := 2%nat; Cursor.pos := 1; Cursor.line := 0 |}
               {| Cursor.node := 2%nat; Cursor.pos := 2; Cursor.line := 0 |}).
  set (tm' := Demo.run (TreeManager.deleteSelection Demo.fuel Demo.image_w Demo.relex tm)).
  assert (TreeManager.deleteSelection Demo.fuel Demo.image_w Demo.relex tm = Ok tm') as Hrun
    by (vm_compute; reflexivity).
  exists tm'. split; [exact Hrun|]. split; [vm_compute; reflexivity|].
  destruct (deleteSelection_clears_selection Demo.fuel Demo.image_w Demo.relex tm tm' Hrun)
    as (H1 & H2 & _).
  split; [exact H1|exact H2].
Defined.

(** ** Typing *)

Section Typing.

Import TreeManager.

Variable fuel : nat.
Variable image_w : Node -> Z.
Variable lexer_relex : Binding -> NodeId -> Heap -> Heap.
Variable inc_parse : Binding -> Heap -> Heap.

Lemma fix_keeps_line h c c' : Cursor.fix_ fuel h c = Ok c' -> Cursor.line c' = Cursor.line c.
Proof.
  unfold Cursor.fix_. intros H. step_res H.
  destruct (fix_deleted_loop_result _ _ _ _ _ E) as (H1 & _).
  destruct (fix_overflow_loop_result _ _ _ _ H) as (H2 & _). congruence.
Qed.

Lemma post_keypress_keeps tm txt tm' :
  post_keypress fuel tm txt = Ok tm' ->
  parsers tm' = parsers tm /\ undomanager tm' = undomanager tm
  /\ Cursor.line (cursor tm')
     = Cursor.line (cursor tm) + (if Py.startswith_cr txt then 1 else 0)
  /\ last_delchar tm' = last_delchar tm
  /\ Cursor.with_line (cursor tm') 0 = Cursor.with_line (cursor tm) 0.
Proof.
  unfold post_keypress. intros H. step_res H. step_res H.
  apply only_repaired_post_keypress_loop in E0.
  unfold rescan_linebreaks in E. res_cases.
  all: destruct E0 as (_ & Hp & Hc & _ & _ & _ & Hu & _ & _ & Hd & _);
    cbn [lines set_lines parsers cursor undomanager set_cursor Cursor.with_line
         Cursor.line last_delchar] in *;
    rewrite ?Hc; repeat split; first [assumption | lia].
Qed.

Lemma get_indentation_nonneg tm y v :
  get_indentation fuel tm y = Ok (Some v) -> 0 <= v.
Proof.
  unfold get_indentation. intros H. res_cases; [|lia].
  unfold Cursor.name_len, Py.len. lia.
Qed.

Lemma key_normal_effects tm txt undo_mode tm' n :
  hasSelection tm = false ->
  key_normal fuel image_w lexer_relex inc_parse tm txt undo_mode = Ok (tm', n) ->
  exists oi,
    (if String.eqb txt Py.cr
     then get_indentation fuel tm (Cursor.line (cursor tm)) = Ok oi
     else oi = None)
    /\ n = match oi with Some v => v | None => 0 end
    /\ 0 <= n
    /\ changed tm' = true
    /\ parsers tm' = parsers tm
    /\ Cursor.line (cursor tm')
       = Cursor.line (cursor tm) + (if Py.startswith_cr txt then 1 else 0)
    /\ (if undo_mode
        then exists x,
               UndoManager.add UndoManager.CmdInsert
                 (if String.eqb txt Py.cr
                  then String.append txt (Py.spaces (Z.to_nat n)) else txt)
                 x (Cursor.line (cursor tm')) (undomanager tm)
               = Ok (undomanager tm')
        else undomanager tm' = undomanager tm).
Proof.
  intros Hs H. unfold key_normal in H. rewrite Hs in H. cbn [Py.bind] in H.
  step_res H. destruct a as [txt' ind].
  assert (exists oi,
             (if String.eqb txt Py.cr
              then get_indentation fuel tm (Cursor.line (cursor tm)) = Ok oi
              else oi = None)
             /\ ind = match oi with Some v => v | None => 0 end
             /\ 0 <= ind
             /\ txt' = (if String.eqb txt Py.cr
                        then String.append txt (Py.spaces (Z.to_nat ind)) else txt)
             /\ Py.startswith_cr txt' = Py.startswith_cr txt)
    as (oi & Hoi & Hind & Hpos & Htxt & Hcr).
  { destruct (String.eqb txt Py.cr) eqn:Heq.
    - step_res E. exists a. inversion E; subst. split; [reflexivity|].
      split; [reflexivity|]. split; [|split; [reflexivity|]].
      + destruct a; [eapply get_indentation_nonneg; eauto|lia].
      + apply String.eqb_eq in Heq. subst txt. reflexivity.
    - inversion E; subst. exists None. repeat split; lia. }
  clear E. unfold leave_languagebox, relex, reparse, undo_add in H.
  res_cases.
  all: exists oi; split; [exact Hoi|]; split; [reflexivity|]; split; [exact Hpos|].
  all: clear Hoi Hpos; rewrite <- Hcr; clear Hcr.
  all: repeat match goal with
         | E : Cursor.fix_ _ _ _ = Ok _ |- _ => apply fix_keeps_line in E
         | E : post_keypress _ _ _ = Ok _ |- _ =>
             apply post_keypress_keeps in E; destruct E as (? & ? & ? & _)
         end.
  all: cbn [heap lines parsers undomanager cursor changed set_heap set_cursor
            set_undomanager set_changed Cursor.with_pos Cursor.with_node Cursor.line] in *.
  all: try match goal with
         | Hu : undomanager ?a = _, E : UndoManager.add _ _ _ _ (undomanager ?a) = _ |- _ =>
             rewrite Hu in E
         end.
  all: split; [reflexivity|]; split; [assumption|].
  all: try match goal with
         | E : Py.startswith_cr ?t = _, H : context [Py.startswith_cr ?t] |- _ =>
             rewrite E in H
         end.
  all: split; [cbn [Z.add] in *; lia|].
  all: first [assumption | eexists; eassumption].
Qed.


(** X15.  [key_normal(text)] without a selection returns the
    indentation it has added: for a line break the leading whitespace
    of the line of the cursor (0 when that line is not a logical
    line), for any other text 0; it is never negative.  The manager
    is marked as changed, the table of parsers is as before, the
    cursor is one line further down exactly when the text starts with
    a line break, and with [undo_mode] what is logged is one
    ['insert'] of the text, for a line break followed by as many
    blanks as the indentation; otherwise the undo log is untouched. *)
Theorem key_normal_returns_indentation tm txt undo_mode tm' n :
  hasSelection tm = false ->
  key_normal fuel image_w lexer_relex inc_parse tm txt undo_mode = Ok (tm', n) ->
  exists oi,
    (if String.eqb txt Py.cr
     then get_indentation fuel tm (Cursor.line (cursor tm)) = Ok oi
     else oi = None)
    /\ n = match oi with Some v => v | None => 0 end
    /\ 0 <= n
    /\ changed tm' = true
    /\ parsers tm' = parsers tm
    /\ Cursor.line (cursor tm')
       = Cursor.line (cursor tm) + (if Py.startswith_cr txt then 1 else 0)
    /\ (if undo_mode
        then exists x,
               UndoManager.add UndoManager.CmdInsert
                 (if String.eqb txt Py.cr
                  then String.append txt (Py.spaces (Z.to_nat n)) else txt)
                 x (Cursor.line (cursor tm')) (undomanager tm)
               = Ok (undomanager tm')
        else undomanager tm' = undomanager tm).
Proof. apply key_normal_effects. Qed.

(** X16.  [key_delete] with the cursor inside a node and no
    selection removes the character at the offset of the cursor: it
    is kept as [last_delchar], the cursor stays where it is, the
    manager is marked as changed, the table of parsers is as before,
    and with [undo_mode] one ["delete"] of that character is logged,
    otherwise the undo log is untouched. *)
Theorem key_delete_inside_node tm undo_mode tm' n :
  hasSelection tm = false ->
  Cursor.inside (heap tm) (cursor tm) = Ok true ->
  get (heap tm) (Cursor.node (cursor tm)) = Ok n ->
  key_delete fuel image_w lexer_relex inc_parse tm undo_mode = Ok tm' ->
  let ch := Py.str_to (Py.str_from (name (symbol n)) (Cursor.pos (cursor tm))) 1 in
  last_delchar tm' = Some ch
  /\ cursor tm' = cursor tm
  /\ changed tm' = true
  /\ parsers tm' = parsers tm
  /\ (if undo_mode
      then exists x,
             UndoManager.add UndoManager.CmdDelete ch x (Cursor.line (cursor tm))
               (undomanager tm) = Ok (undomanager tm')
      else undomanager tm' = undomanager tm).
Proof.
  intros Hs Hin Hn H ch. unfold key_delete in H.
  revert H. generalize fuel at 2. intros k H. destruct k as [|k]; [discriminate H|].
  cbn [key_delete_rec] in H. rewrite Hs, Hin in H. cbn [Py.bind] in H.
  unfold backspace in H. rewrite Hn in H. cbn [Py.bind] in H. fold ch in H.
  unfold relex, key_delete_finish, reparse, undo_add in H. res_cases.
  all: repeat match goal with
         | E : post_keypress _ _ _ = Ok _ |- _ =>
             let Hf := fresh "Hf" in
             pose proof (frame_post_keypress _ _ _ E) as Hf;
             unfold frame in Hf; destruct Hf as [_ ?];
             apply post_keypress_keeps in E; destruct E as (? & ? & _ & ? & _)
         end.
  all: cbn [heap lines parsers undomanager cursor changed last_delchar set_heap set_cursor
            set_undomanager set_changed set_last_delchar] in *.
  all: try match goal with
         | Hu : undomanager ?a = _, E : UndoManager.add _ _ _ _ (undomanager ?a) = _ |- _ =>
             rewrite Hu in E
         end.
  all: try match goal with
         | Hc : cursor ?a = _, E : UndoManager.add _ _ _ (Cursor.line (cursor ?a)) _ = _ |- _ =>
             rewrite Hc in E
         end.
  all: repeat (split; [first [assumption | reflexivity | congruence]|]).
  all: try match goal with
         | H2 : last_delchar ?a = Some _, E6 : last_delchar ?a = Some _ |- _ =>
             rewrite H2 in E6; inversion E6; subst
         end.
  all: first [assumption | eexists; eassumption | congruence].
Qed.

End Typing.

Lemma key_normal_returns_indentation_witness :
  exists tm0 tm',
    Demo.key_cursors TreeManager.KeyDown Demo.doc_dedent = Ok tm0
    /\ TreeManager.key_normal Demo.fuel Demo.image_w Demo.relex Demo.inc_parse tm0 Py.cr true
       = Ok (tm', 2)
    /\ Cursor.line (TreeManager.cursor tm') = 2
    /\ TreeManager.changed tm' = true.
Proof.
  set (tm0 := Demo.run (Demo.key_cursors TreeManager.KeyDown Demo.doc_dedent)).
  set (tm' := match TreeManager.key_normal Demo.fuel Demo.image_w Demo.relex Demo.inc_parse
                      tm0 Py.cr true with
              | Ok (x, _) => x
              | Raise _ => tm0
              end).
  assert (TreeManager.key_normal Demo.fuel Demo.image_w Demo.relex Demo.inc_parse tm0 Py.cr true
          = Ok (tm', 2)) as Hrun by (vm_compute; reflexivity).
  exists tm0, tm'. split; [vm_compute; reflexivity|]. split; [exact Hrun|].
  destruct (key_normal_returns_indentation Demo.fuel Demo.image_w Demo.relex Demo.inc_parse
              tm0 Py.cr true tm' 2) as (oi & _ & _ & _ & Hch & _ & Hline & _).
  - vm_compute; reflexivity.
  - exact Hrun.
  - split; [rewrite Hline; vm_compute; reflexivity|exact Hch].
Defined.

Lemma key_delete_inside_node_witness :
  exists tm',
    TreeManager.key_delete Demo.fuel Demo.image_w Demo.relex Demo.inc_parse
      (TreeManager.unselect
         (TreeManager.set_cursor Demo.doc_ab
            {| Cursor.node := 2%nat; Cursor.pos := 1; Cursor.line := 0 |})) true = Ok tm'
    /\ Demo.export_output tm' = Ok "a"%string
    /\ TreeManager.last_delchar tm' = Some "b"%string
    /\ Cursor.pos (TreeManager.cursor tm') = 1.
Proof.
  set (tm := TreeManager.unselect
               (TreeManager.set_cursor Demo.doc_ab
                  {| Cursor.node := 2%nat; Cursor.pos := 1; Cursor.line := 0 |})).
  set (tm' := Demo.run (TreeManager.key_delete Demo.fuel Demo.image_w Demo.relex
                          Demo.inc_parse tm true)).
  assert (TreeManager.key_delete Demo.fuel Demo.image_w Demo.relex Demo.inc_parse tm true
          = Ok tm') as Hrun by (vm_compute; reflexivity).
  exists tm'. split; [exact Hrun|]. split; [vm_compute; reflexivity|].
  destruct (key_delete_inside_node Demo.fuel Demo.image_w Demo.relex Demo.inc_parse
              tm true tm'
              {| nclass := TextNode;
                 symbol := {| sclass := Terminal; name := "ab"; ast := None |};
                 next_term := Some 4%nat; prev_term := Some 0%nat; parent := Some 0%nat;
                 lookup := ""; image := false; plain_mode := false; deleted := false |})
    as (Hd & Hc & _).
  - vm_compute; reflexivity.
  - vm_compute; reflexivity.
  - vm_compute; reflexivity.
  - exact Hrun.
  - split; [rewrite Hd; vm_compute; reflexivity|rewrite Hc; reflexivity].
Defined.

(** ** Columns *)

Section Columns.

Import Cursor.

Variable fuel : nat.
Variable image_w : Node -> Z.
Variable h : Heap.
Variable a : NodeId.
Variable vs : list NodeId.
Hypothesis Hflat : flat_line fuel h a vs.

Lemma text_len_get i n : get h i = Ok n -> text_len h i = name_len n.
Proof. intros H. apply get_Ok in H. unfold text_len. now rewrite H. Qed.

Lemma text_len_nonneg i : 0 <= text_len h i.
Proof. unfold text_len. destruct (nodes h !! i); [unfold name_len, Py.len|]; lia. Qed.

Lemma width_nonneg ids : 0 <= width h ids.
Proof.
  induction ids as [|i ids IH]; cbn; [lia|]. fold (width h ids).
  pose proof (text_len_nonneg i). lia.
Qed.

Lemma width_cons i l : width h (i :: l) = text_len h i + width h l.
Proof. reflexivity. Qed.

Lemma width_app l1 l2 : width h (l1 ++ l2) = width h l1 + width h l2.
Proof.
  unfold width. induction l1 as [|i l1 IH]; cbn [app map foldr]; [lia|]. rewrite IH. lia.
Qed.

Lemma get_x_loop_flat : forall i f x u,
  (a :: vs) !! i = Some u -> (i < f)%nat ->
  get_x_loop fuel image_w h f x u = Ok (x + width h (take i vs)).
Proof.
  destruct Hflat as ((na & Hna & Hanchor) & Hstep).
  induction i as [|i IH]; intros f x u Hu Hf; (destruct f as [|f]; [lia|]);
    cbn [get_x_loop].
  - cbn in Hu. inversion Hu; subst u. rewrite Hna. cbn [Py.bind].
    apply orb_true_iff in Hanchor.
    destruct (is_return na) eqn:E1, (is_BOS na) eqn:E2; cbn [negb andb];
      try (rewrite take_0; unfold width; cbn [map foldr]; f_equal; lia).
  - cbn [lookup] in Hu. change ((a :: vs) !! S i) with (vs !! i) in Hu.
    destruct (lookup_lt_is_Some_2 (a :: vs) i) as [w Hw];
      [apply lookup_lt_Some in Hu; cbn [length]; lia|].
    destruct (Hstep i w u Hw Hu) as (_ & Hprev & _ & nv & Hnv & Hr & Hb & _ & Hi).
    rewrite Hnv. cbn [Py.bind]. rewrite Hr, Hb, Hi. cbn [negb andb].
    rewrite Hprev. cbn [Py.bind]. rewrite (IH f _ w Hw) by lia.
    f_equal. rewrite (take_S_r _ _ _ Hu), width_app. unfold width at 3. cbn [map foldr].
    rewrite (text_len_get _ _ Hnv). lia.
Qed.

Lemma move_to_x_loop_flat c k v p :
  vs !! k = Some v -> 0 < p <= text_len h v ->
  forall d i u f,
    (i + d = k)%nat -> (a :: vs) !! i = Some u -> (d + 2 <= f)%nat ->
    move_to_x_loop fuel image_w h f c (p + width h (drop i (take k vs))) u
    = Ok {| node := v; pos := p; line := line c |}.
Proof.
  intros Hv Hp. destruct Hflat as (_ & Hstep).
  induction d as [|d IH]; intros i u f Hid Hu Hf;
    (destruct f as [|f]; [lia|]); cbn [move_to_x_loop].
  - assert (i = k) by lia. subst i.
    destruct (Hstep k u v Hu Hv) as (Hnext & _ & Hne & nv & Hnv & Hr & _ & He & Hi).
    assert (exists nu, get h u = Ok nu) as [nu Hnu].
    { destruct k; cbn in Hu.
      - inversion Hu; subst u. destruct Hflat as ((na & Hna & _) & _). eauto.
      - destruct (lookup_lt_is_Some_2 (a :: vs) k) as [w Hw];
          [apply lookup_lt_Some in Hu; cbn [length]; lia|].
        destruct (Hstep k w u Hw Hu) as (_ & _ & _ & nu & Hnu & _). eauto. }
    rewrite Hnu. cbn [Py.bind]. rewrite drop_ge by (rewrite length_take; lia).
    change (width h []) with 0.
    destruct (Z.ltb_spec 0 (p + 0)); [|lia].
    rewrite Hnext. cbn [Py.bind].
    destruct (Nat.eqb_spec v u); [congruence|].
    rewrite Hnv. cbn [Py.bind]. rewrite Hi, Hr, He. cbn [orb].
    destruct f as [|f]; [lia|]. cbn [move_to_x_loop]. rewrite Hnv. cbn [Py.bind].
    rewrite (text_len_get _ _ Hnv) in Hp.
    destruct (Z.ltb_spec 0 (p + 0 - name_len nv)); [lia|].
    f_equal. f_equal. lia.
  - assert (i < k)%nat as Hik by lia.
    destruct (lookup_lt_is_Some_2 vs i) as [w Hw];
      [apply lookup_lt_Some in Hv; lia|].
    destruct (Hstep i u w Hu Hw) as (Hnext & _ & Hne & nw & Hnw & Hr & _ & He & Hi).
    assert (exists nu, get h u = Ok nu) as [nu Hnu].
    { destruct i; cbn in Hu.
      - inversion Hu; subst u. destruct Hflat as ((na & Hna & _) & _). eauto.
      - destruct (lookup_lt_is_Some_2 (a :: vs) i) as [w' Hw'];
          [apply lookup_lt_Some in Hu; cbn [length]; lia|].
        destruct (Hstep i w' u Hw' Hu) as (_ & _ & _ & nu & Hnu & _). eauto. }
    rewrite Hnu. cbn [Py.bind].
    assert (drop i (take k vs) = w :: drop (S i) (take k vs)) as Hdrop.
    { apply drop_S. rewrite lookup_take_lt by lia. exact Hw. }
    rewrite Hdrop. rewrite width_cons.
    pose proof (width_nonneg (drop (S i) (take k vs))) as Hw0.
    pose proof (text_len_nonneg w) as Hw1.
    destruct (Z.ltb_spec 0 (p + (text_len h w + width h (drop (S i) (take k vs))))); [|lia].
    rewrite Hnext. cbn [Py.bind].
    destruct (Nat.eqb_spec w u); [congruence|].
    rewrite Hnw. cbn [Py.bind]. rewrite Hi, Hr, He. cbn [orb].
    rewrite (text_len_get _ _ Hnw).
    replace (p + (name_len nw + width h (drop (S i) (take k vs))) - name_len nw)
      with (p + width h (drop (S i) (take k vs))) by lia.
    apply (IH (S i) w f); [lia| |lia]. exact Hw.
Qed.

(** X17.  On a line of plain text [move_to_x] undoes [get_x]: for a
    cursor behind at least one character of a node of the line
    ([0 < pos <= len]), [get_x] is the offset plus the lengths of the
    nodes before it, and [move_to_x] with that column on the same
    line puts a cursor on the same node at the same offset. *)
Theorem move_to_x_returns_to_column (k : nat) v p y lines l c0 :
  vs !! k = Some v -> 0 < p <= text_len h v -> (k + 2 <= fuel)%nat ->
  Py.index lines y = Ok l -> Line.node l = a -> line c0 = y ->
  get_x fuel image_w h {| node := v; pos := p; line := y |}
  = Ok (p + width h (take k vs))
  /\ move_to_x fuel image_w h c0 (p + width h (take k vs)) lines
     = Ok {| node := v; pos := p; line := y |}.
Proof.
  intros Hv Hp Hf Hl Ha Hy. split.
  - destruct Hflat as (_ & Hstep).
    destruct (lookup_lt_is_Some_2 (a :: vs) k) as [u Hu];
      [apply lookup_lt_Some in Hv; cbn [length]; lia|].
    destruct (Hstep k u v Hu Hv) as (_ & Hprev & _ & nv & Hnv & Hr & Hb & _ & Hi).
    unfold get_x. cbn [node pos]. rewrite Hnv. cbn [Py.bind]. rewrite Hr, Hb, Hi.
    cbn [orb]. rewrite Hprev. cbn [Py.bind].
    apply get_x_loop_flat; [exact Hu|lia].
  - unfold move_to_x. rewrite Hy, Hl. cbn [Py.bind]. rewrite Ha.
    rewrite <- Hy.
    replace (take k vs) with (drop 0 (take k vs)) by apply drop_0.
    apply (move_to_x_loop_flat c0 k v p Hv Hp k 0%nat a fuel); [lia|reflexivity|lia].
Qed.

End Columns.

Lemma move_to_x_returns_to_column_witness :
  Cursor.get_x Demo.fuel Demo.image_w (TreeManager.heap Demo.doc_dedent)
    {| Cursor.node := 5%nat; Cursor.pos := 1; Cursor.line := 1 |} = Ok 3
  /\ Cursor.move_to_x Demo.fuel Demo.image_w (TreeManager.heap Demo.doc_dedent)
       {| Cursor.node := 0%nat; Cursor.pos := 0; Cursor.line := 1 |} 3
       (TreeManager.lines Demo.doc_dedent)
     = Ok {| Cursor.node := 5%nat; Cursor.pos := 1; Cursor.line := 1 |}.
Proof.
  assert (flat_line Demo.fuel (TreeManager.heap Demo.doc_dedent) 3%nat [4%nat; 5%nat])
    as Hflat.
  { split; [eexists; split; vm_compute; reflexivity|].
    intros i u v Hu Hv. destruct i as [|[|i]]; cbn in Hu, Hv; try discriminate Hv;
      inversion Hu; inversion Hv; subst u v;
      (split; [vm_compute; reflexivity|]); (split; [vm_compute; reflexivity|]);
      (split; [discriminate|]); eexists; (split; [vm_compute; reflexivity|]);
      repeat split; vm_compute; reflexivity. }
  destruct (move_to_x_returns_to_column Demo.fuel Demo.image_w
              (TreeManager.heap Demo.doc_dedent) 3%nat [4%nat; 5%nat] Hflat
              1%nat 5%nat 1 1 (TreeManager.lines Demo.doc_dedent)
              {| Line.node := 3%nat; Line.height := 1; Line.width := 0;
                 Line.indent := 1; Line.ws := 2 |}
              {| Cursor.node := 0%nat; Cursor.pos := 0; Cursor.line := 1 |})
    as [Hx Hm]; try (vm_compute; reflexivity).
  - split; vm_compute; [reflexivity|discriminate].
  - vm_compute. lia.
  - split; [rewrite Hx; vm_compute; reflexivity|].
    replace 3 with (1 + width (TreeManager.heap Demo.doc_dedent) (take 1 [4%nat; 5%nat]))
      by (vm_compute; reflexivity).
    exact Hm.
Defined.

(** ** Home, End and search *)

Section HomeEndSearch.

Import TreeManager.

Variable fuel : nat.
Variable image_w : Node -> Z.

(** X18.  [key_home] puts the cursor at the end of the anchor of its
    line (column 0 when the anchor is a line break or a start
    sentinel).  [key_end] puts it at the end of the node that
    [find_previous_visible] finds from the anchor of the next line, or
    from the last child of the main root when the cursor is on the last
    line; that node is visible or a sentinel of the outermost root.
    Both leave the node store, the line index, the line of the cursor
    and the undo log as they are (the running burst of the undo log is
    not ended); the selection is reset to the old place of the cursor,
    and with shift it runs from there to the new place. *)
Theorem key_home_key_end_place_cursor tm shift tm' :
  key_home tm shift = Ok tm' \/ key_end fuel tm shift = Ok tm' ->
  heap tm' = heap tm /\ lines tm' = lines tm /\ undomanager tm' = undomanager tm
  /\ Cursor.line (cursor tm') = Cursor.line (cursor tm)
  /\ selection_start tm' = cursor tm
  /\ selection_end tm' = (if shift then cursor tm' else cursor tm)
  /\ Cursor.isend (heap tm') (cursor tm') = Ok true
  /\ Cursor.inside (heap tm') (cursor tm') = Ok false
  /\ (key_home tm shift = Ok tm' ->
      exists l n,
        Py.index (lines tm) (Cursor.line (cursor tm)) = Ok l
        /\ get (heap tm) (Line.node l) = Ok n
        /\ Cursor.node (cursor tm') = Line.node l
        /\ Cursor.pos (cursor tm') = Cursor.name_len n
        /\ (is_return n || is_BOS n = true ->
            Cursor.get_x fuel image_w (heap tm') (cursor tm') = Ok 0))
  /\ (key_end fuel tm shift = Ok tm' ->
      exists anchor n,
        (Cursor.line (cursor tm) < Z.of_nat (length (lines tm)) - 1 ->
           exists l, Py.index (lines tm) (Cursor.line (cursor tm) + 1) = Ok l
                     /\ anchor = Line.node l)
        /\ (Z.of_nat (length (lines tm)) - 1 <= Cursor.line (cursor tm) ->
              exists r, mainroot tm = Some r /\ children_last (heap tm) r = Ok anchor)
        /\ Cursor.find_previous_visible fuel (heap tm) anchor
           = Ok (Cursor.node (cursor tm'))
        /\ get (heap tm) (Cursor.node (cursor tm')) = Ok n
        /\ Cursor.pos (cursor tm') = Cursor.name_len n
        /\ (Cursor.is_visible n = true
            \/ outermost_sentinel (heap tm) (Cursor.node (cursor tm')) n)).
Proof.
  intros H.
  assert (exists i n,
             get (heap tm) i = Ok n
             /\ tm' = (let tm1 := set_cursor (unselect tm)
                                    {| Cursor.node := i; Cursor.pos := Cursor.name_len n;
                                       Cursor.line := Cursor.line (cursor tm) |} in
                       if shift
                       then set_selection tm1 (selection_start tm1) (Cursor.copy (cursor tm1))
                       else tm1)) as (i & n & Hn & Htm).
  { destruct H as [H|H]; [unfold key_home in H|unfold key_end in H]; res_cases;
      cbn [unselect heap lines cursor set_selection set_cursor] in *; eauto. }
  assert (Cursor.node (cursor tm') = i /\ Cursor.pos (cursor tm') = Cursor.name_len n
          /\ heap tm' = heap tm) as (Hci & Hcp & Hh).
  { subst tm'. destruct shift; cbn; auto. }
  split; [exact Hh|].
  split; [subst tm'; now destruct shift|].
  split; [subst tm'; now destruct shift|].
  split; [subst tm'; now destruct shift|].
  split; [subst tm'; now destruct shift|].
  split; [subst tm'; now destruct shift|].
  split; [unfold Cursor.isend; rewrite Hh, Hci, Hn; cbn [Py.bind];
          destruct (is_Magic n); [reflexivity|]; now rewrite Hcp, Z.eqb_refl|].
  split; [unfold Cursor.inside; rewrite Hh, Hci, Hn; cbn [Py.bind]; rewrite Hcp;
          now rewrite Z.ltb_irrefl, andb_false_r|].
  split.
  - clear H. intros H. unfold key_home in H. res_cases.
    all: cbn [unselect heap lines cursor set_selection set_cursor Cursor.node Cursor.pos] in *.
    all: eexists _, _; split; [eassumption|]; split; [eassumption|]; split; [reflexivity|].
    all: split; [reflexivity|].
    all: intros Hanchor; unfold Cursor.get_x; cbn [Cursor.node].
    all: match goal with E : get _ _ = Ok _ |- _ => rewrite E end.
    all: cbn [Py.bind]; now rewrite Hanchor.
  - clear H Hci Hcp Hn. intros H. unfold key_end in H.
    change (cursor (unselect tm)) with (cursor tm) in H.
    change (lines (unselect tm)) with (lines tm) in H.
    change (heap (unselect tm)) with (heap tm) in H.
    change (mainroot (unselect tm)) with (mainroot tm) in H.
    destruct (Z.ltb_spec (Cursor.line (cursor tm)) (Z.of_nat (length (lines tm)) - 1))
      as [Hlt|Hge].
    + step_res H. step_res H. step_res H. step_res E. inversion E; subst a; clear E.
      rename a2 into l.
      exists (Line.node l), a1.
      assert (Cursor.node (cursor tm') = a0 /\ Cursor.pos (cursor tm') = Cursor.name_len a1)
        as [-> ->] by (destruct shift; inversion H; subst tm'; cbn; auto).
      split; [intros _; eauto|]. split; [intros Hc; lia|].
      split; [assumption|]. split; [assumption|]. split; [reflexivity|].
      apply find_previous_visible_result in E0. destruct E0 as (n' & Hn' & Hv).
      assert (n' = a1) as -> by congruence. exact Hv.
    + step_res H. step_res H. step_res H.
      destruct (mainroot tm) as [r|] eqn:Hr; [|discriminate E].
      cbn [Py.bind] in E.
      exists a, a1.
      assert (Cursor.node (cursor tm') = a0 /\ Cursor.pos (cursor tm') = Cursor.name_len a1)
        as [-> ->] by (destruct shift; inversion H; subst tm'; cbn; auto).
      split; [intros Hc; lia|]. split; [intros _; eauto|].
      split; [assumption|]. split; [assumption|]. split; [reflexivity|].
      apply find_previous_visible_result in E0. destruct E0 as (n' & Hn' & Hv).
      assert (n' = a1) as -> by congruence. exact Hv.
Qed.

Lemma str_find_spec s sub :
  str_find s sub = -1
  \/ 0 <= str_find s sub
     /\ String.substring (Z.to_nat (str_find s sub)) (String.length sub) s = sub
     /\ forall q, (q < Z.to_nat (str_find s sub))%nat ->
                  String.substring q (String.length sub) s <> sub.
Proof.
  unfold str_find. destruct (String.index 0 sub s) as [m|] eqn:E; [right|now left].
  split; [lia|]. rewrite Nat2Z.id. split.
  - eapply String.index_correct1; eauto.
  - intros q Hq. eapply String.index_correct2; eauto. lia.
Qed.

Lemma find_text_loop_result tm txt k : forall i line r,
  find_text_loop k tm txt i line = Ok r ->
  match r with
  | None => True
  | Some (j, p, _) =>
      exists n, get (heap tm) j = Ok n /\ p = str_find (name (symbol n)) txt /\ 0 <= p
  end.
Proof.
  induction k as [|k IH]; intros i line r H; [discriminate H|].
  cbn [find_text_loop] in H.
  destruct (Nat.eqb i (Cursor.node (cursor tm))); [now inversion H|].
  step_res H. step_res H. destruct a0 as [[j nj] line'].
  destruct (Z.ltb_spec (-1) (str_find (name (symbol nj)) txt)) as [Hlt|Hge].
  - inversion H; subst r. exists nj. split; [|split; [reflexivity|lia]].
    destruct (is_EOS a); [step_res E0; step_res E0|]; inversion E0; subst; assumption.
  - step_res H. eapply IH; eauto.
Qed.

(** X19.  [find_text(text)] records the text as the last search and
    changes neither the node store, the line index nor the undo log.
    Either nothing is found and cursor and selection stay, or the
    selection covers the first occurrence of the text in the text of
    one node: it starts at the offset of that occurrence and ends,
    with the cursor, as many characters later as the text is long. *)
Theorem find_text_selects_first_match tm txt tm' :
  find_text fuel tm txt = Ok tm' ->
  last_search tm' = txt
  /\ heap tm' = heap tm /\ lines tm' = lines tm /\ undomanager tm' = undomanager tm
  /\ (cursor tm' = cursor tm
      /\ selection_start tm' = selection_start tm /\ selection_end tm' = selection_end tm
      \/ exists n,
           get (heap tm) (Cursor.node (cursor tm')) = Ok n
           /\ Cursor.node (selection_start tm') = Cursor.node (cursor tm')
           /\ Cursor.line (selection_start tm') = Cursor.line (cursor tm')
           /\ 0 <= Cursor.pos (selection_start tm')
           /\ Cursor.pos (cursor tm') = Cursor.pos (selection_start tm') + Py.len txt
           /\ selection_end tm' = cursor tm'
           /\ String.substring (Z.to_nat (Cursor.pos (selection_start tm')))
                (String.length txt) (name (symbol n)) = txt
           /\ forall q, (q < Z.to_nat (Cursor.pos (selection_start tm')))%nat ->
                  String.substring q (String.length txt) (name (symbol n)) <> txt).
Proof.
  unfold find_text. intros H. step_res H. step_res H. step_res H.
  inversion H; subst tm'; clear H.
  apply find_text_loop_result in E1.
  destruct a1 as [[[j p] line]|];
    cbn [last_search heap lines undomanager cursor selection_start selection_end
         set_last_search set_selection set_cursor Cursor.copy Cursor.with_pos
         Cursor.node Cursor.pos Cursor.line];
    (split; [reflexivity|]); (split; [reflexivity|]); (split; [reflexivity|]);
    (split; [reflexivity|]); [right|left; auto].
  destruct E1 as (n & Hn & Hp & Hpos). exists n.
  split; [exact Hn|]. split; [reflexivity|]. split; [reflexivity|].
  split; [exact Hpos|]. split; [reflexivity|]. split; [reflexivity|].
  destruct (str_find_spec (name (symbol n)) txt) as [Hnone|(_ & Hsub & Hfirst)]; [lia|].
  rewrite Hp. split; assumption.
Qed.

End HomeEndSearch.

Lemma key_home_key_end_place_cursor_witness :
  (exists tm',
     TreeManager.key_home Demo.doc_ab false = Ok tm'
     /\ TreeManager.cursor tm' = {| Cursor.node := 0%nat; Cursor.pos := 0; Cursor.line := 0 |}
     /\ Cursor.get_x Demo.fuel Demo.image_w (TreeManager.heap tm') (TreeManager.cursor tm')
        = Ok 0)
  /\ (exists tm',
        TreeManager.key_end Demo.fuel Demo.doc_dedent true = Ok tm'
        /\ Cursor.find_previous_visible Demo.fuel (TreeManager.heap Demo.doc_dedent) 3%nat
           = Ok (Cursor.node (TreeManager.cursor tm'))
        /\ TreeManager.selection_end tm' = TreeManager.cursor tm').
Proof.
  split.
  - set (tm' := Demo.run (TreeManager.key_home Demo.doc_ab false)).
    assert (TreeManager.key_home Demo.doc_ab false = Ok tm') as Hrun
      by (vm_compute; reflexivity).
    exists tm'. split; [exact Hrun|]. split; [vm_compute; reflexivity|].
    destruct (key_home_key_end_place_cursor Demo.fuel Demo.image_w Demo.doc_ab false tm'
                (or_introl Hrun)) as (_ & _ & _ & _ & _ & _ & _ & _ & Hhome & _).
    destruct (Hhome Hrun) as (l & n & Hl & Hn & _ & _ & Hx).
    apply Hx. vm_compute in Hl. inversion Hl; subst l. vm_compute in Hn.
    inversion Hn; subst n. reflexivity.
  - set (tm' := Demo.run (TreeManager.key_end Demo.fuel Demo.doc_dedent true)).
    assert (TreeManager.key_end Demo.fuel Demo.doc_dedent true = Ok tm') as Hrun
      by (vm_compute; reflexivity).
    exists tm'. split; [exact Hrun|].
    destruct (key_home_key_end_place_cursor Demo.fuel Demo.image_w Demo.doc_dedent true tm'
                (or_intror Hrun)) as (_ & _ & _ & _ & _ & Hsel & _ & _ & _ & Hend).
    split; [|exact Hsel].
    destruct (Hend Hrun) as (anchor & n & Hnext & _ & Hfind & _).
    destruct Hnext as (l & Hl & ->); [vm_compute; reflexivity|].
    vm_compute in Hl. inversion Hl; subst l. exact Hfind.
Defined.

Lemma find_text_selects_first_match_witness :
  exists tm',
    TreeManager.find_text Demo.fuel Demo.doc_ab_home "b" = Ok tm'
    /\ TreeManager.selection_start tm'
       = {| Cursor.node := 2%nat; Cursor.pos := 1; Cursor.line := 0 |}
    /\ TreeManager.selection_end tm'
       = {| Cursor.node := 2%nat; Cursor.pos := 2; Cursor.line := 0 |}
    /\ TreeManager.last_search tm' = "b"%string.
Proof.
  set (tm' := Demo.run (TreeManager.find_text Demo.fuel Demo.doc_ab_home "b")).
  assert (TreeManager.find_text Demo.fuel Demo.doc_ab_home "b" = Ok tm') as Hrun
    by (vm_compute; reflexivity).
  exists tm'. split; [exact Hrun|]. split; [vm_compute; reflexivity|].
  split; [vm_compute; reflexivity|].
  now destruct (find_text_selects_first_match Demo.fuel Demo.doc_ab_home "b" tm' Hrun).
Defined.

(** ** The clipboard *)

Section Clipboard.

Import TreeManager.

Variable fuel : nat.
Variable image_w : Node -> Z.
Variable lexer_relex : Binding -> NodeId -> Heap -> Heap.
Variable inc_parse : Binding -> Heap -> Heap.

Lemma get_x_loop_shift h k : forall x i r d,
  Cursor.get_x_loop fuel image_w h k x i = Ok r ->
  Cursor.get_x_loop fuel image_w h k (x + d) i = Ok (r + d).
Proof.
  induction k as [|k IH]; intros x i r d H; [discriminate H|].
  cbn [Cursor.get_x_loop] in *. step_res H. cbn [Py.bind].
  destruct (negb (is_return a) && negb (is_BOS a)).
  - step_res H. cbn [Py.bind]. destruct (Cursor.shows_image a).
    + replace (x + d + image_w a) with (x + image_w a + d) by lia. now apply IH.
    + replace (x + d + Cursor.name_len a) with (x + Cursor.name_len a + d) by lia.
      now apply IH.
  - inversion H. reflexivity.
Qed.

Lemma get_x_same_node h i n p q l l' xa :
  get h i = Ok n -> is_return n = false -> is_BOS n = false ->
  Cursor.shows_image n = false ->
  Cursor.get_x fuel image_w h {| Cursor.node := i; Cursor.pos := p; Cursor.line := l |}
  = Ok xa ->
  Cursor.get_x fuel image_w h {| Cursor.node := i; Cursor.pos := q; Cursor.line := l' |}
  = Ok (xa + (q - p)).
Proof.
  intros Hn Hr Hb Hi H. unfold Cursor.get_x in *. cbn [Cursor.node Cursor.pos] in *.
  rewrite Hn in *. cbn [Py.bind] in *. rewrite Hr, Hb, Hi in *. cbn [orb] in *.
  step_res H. cbn [Py.bind]. replace q with (p + (q - p)) at 1 by lia.
  now apply get_x_loop_shift.
Qed.

Lemma selection_within_node tm i n p q l xa :
  get (heap tm) i = Ok n -> is_return n = false -> is_BOS n = false ->
  Cursor.shows_image n = false ->
  0 <= p < q -> q <= Cursor.name_len n ->
  Cursor.get_x fuel image_w (heap tm)
    {| Cursor.node := i; Cursor.pos := p; Cursor.line := l |} = Ok xa ->
  (selection_start tm = {| Cursor.node := i; Cursor.pos := p; Cursor.line := l |}
   /\ selection_end tm = {| Cursor.node := i; Cursor.pos := q; Cursor.line := l |})
  \/ (selection_start tm = {| Cursor.node := i; Cursor.pos := q; Cursor.line := l |}
      /\ selection_end tm = {| Cursor.node := i; Cursor.pos := p; Cursor.line := l |}) ->
  get_nodes_from_selection fuel image_w tm = Ok (Some ([i], p, q)).
Proof.
  intros Hn Hr Hb Hi Hpq Hq Hxa Hsel.
  pose proof (get_x_same_node _ _ _ p q l l _ Hn Hr Hb Hi Hxa) as Hxb.
  set (a := {| Cursor.node := i; Cursor.pos := p; Cursor.line := l |}) in *.
  set (b := {| Cursor.node := i; Cursor.pos := q; Cursor.line := l |}) in *.
  assert (Cursor.gt fuel image_w (heap tm) b a = Ok true) as Hgt1.
  { unfold Cursor.gt. cbn [Cursor.line a b]. rewrite Z.ltb_irrefl, Hxb, Hxa.
    cbn [Py.bind]. f_equal. apply Z.ltb_lt. lia. }
  assert (Cursor.gt fuel image_w (heap tm) a b = Ok false) as Hgt2.
  { unfold Cursor.gt. cbn [Cursor.line a b]. rewrite Z.ltb_irrefl, Hxb, Hxa.
    cbn [Py.bind]. f_equal. apply Z.ltb_ge. lia. }
  assert (Cursor.eq a b = false) as Heq.
  { unfold Cursor.eq. cbn [Cursor.node Cursor.pos a b]. rewrite Nat.eqb_refl.
    cbn [andb]. apply Z.eqb_neq. lia. }
  assert (cursor_min fuel image_w (heap tm) (selection_start tm) (selection_end tm) = Ok a
          /\ cursor_max fuel image_w (heap tm) (selection_start tm) (selection_end tm) = Ok b)
    as [Hmin Hmax].
  { unfold cursor_min, cursor_max, Cursor.lt.
    destruct Hsel as [[-> ->]|[-> ->]].
    - rewrite Hgt1. cbn [Py.bind orb negb]. auto.
    - rewrite Hgt2. cbn [Py.bind orb]. rewrite Heq. cbn [negb]. auto. }
  unfold get_nodes_from_selection. rewrite Hmin, Hmax. cbn [Py.bind]. rewrite Heq.
  unfold Cursor.inside. cbn [Cursor.node Cursor.pos a b]. rewrite Hn. cbn [Py.bind].
  rewrite Nat.eqb_refl.
  assert ((if (0 <? p) && (p <? Cursor.name_len n) then p else 0) = p) as ->.
  { destruct (Z.ltb_spec 0 p); cbn [andb]; [|lia].
    destruct (Z.ltb_spec p (Cursor.name_len n)); lia. }
  assert ((if (0 <? q) && (q <? Cursor.name_len n) then q else Cursor.name_len n) = q) as ->.
  { destruct (Z.ltb_spec 0 q); cbn [andb]; [|lia].
    destruct (Z.ltb_spec q (Cursor.name_len n)); lia. }
  reflexivity.
Qed.

Lemma str_slice_inner s p q :
  0 <= p < q -> q <= Py.len s ->
  str_slice s p q = String.substring (Z.to_nat p) (Z.to_nat (q - p)) s.
Proof.
  intros Hpq Hq. unfold str_slice, Py.slice_index, Py.len in *.
  destruct (Z.ltb_spec p 0); [lia|]. destruct (Z.ltb_spec q 0); [lia|].
  f_equal; lia.
Qed.

(** X20.  A selection inside one node of plain text, between its
    offsets [p < q], is copied as the characters [p] to [q] of the
    text of the node, whichever of the two ends is the start of the
    selection; [cutSelection] returns the same text. *)
Theorem copySelection_within_node tm i n p q l xa :
  get (heap tm) i = Ok n -> is_return n = false -> is_BOS n = false ->
  Cursor.shows_image n = false ->
  0 <= p < q -> q <= Cursor.name_len n ->
  Cursor.get_x fuel image_w (heap tm)
    {| Cursor.node := i; Cursor.pos := p; Cursor.line := l |} = Ok xa ->
  (selection_start tm = {| Cursor.node := i; Cursor.pos := p; Cursor.line := l |}
   /\ selection_end tm = {| Cursor.node := i; Cursor.pos := q; Cursor.line := l |})
  \/ (selection_start tm = {| Cursor.node := i; Cursor.pos := q; Cursor.line := l |}
      /\ selection_end tm = {| Cursor.node := i; Cursor.pos := p; Cursor.line := l |}) ->
  copySelection fuel image_w tm
  = Ok (Some (String.substring (Z.to_nat p) (Z.to_nat (q - p)) (name (symbol n))))
  /\ forall tm' r,
       cutSelection fuel image_w lexer_relex tm = Ok (tm', r) ->
       r = Some (String.substring (Z.to_nat p) (Z.to_nat (q - p)) (name (symbol n))).
Proof.
  intros Hn Hr Hb Hi Hpq Hq Hxa Hsel.
  assert (copySelection fuel image_w tm
          = Ok (Some (String.substring (Z.to_nat p) (Z.to_nat (q - p)) (name (symbol n)))))
    as Hcopy.
  { unfold copySelection.
    rewrite (selection_within_node tm i n p q l xa Hn Hr Hb Hi Hpq Hq Hxa Hsel).
    cbn [Py.bind length Nat.eqb].
    assert (Py.index [i] 0 = Ok i) as -> by reflexivity.
    cbn [Py.bind]. rewrite Hn. cbn [Py.bind].
    rewrite str_slice_inner; [reflexivity|lia|exact Hq]. }
  split; [exact Hcopy|].
  assert (hasSelection tm = true) as Hhas.
  { unfold hasSelection, Cursor.ne, Cursor.eq.
    destruct Hsel as [[-> ->]|[-> ->]]; cbn [Cursor.node Cursor.pos];
      rewrite Nat.eqb_refl; cbn [andb]; apply negb_true_iff, Z.eqb_neq; lia. }
  intros tm' r H. unfold cutSelection in H. rewrite Hcopy, Hhas in H.
  cbn [Py.bind] in H. step_res H. now inversion H.
Qed.

Lemma deleteSelection_keeps tm tm' :
  deleteSelection fuel image_w lexer_relex tm = Ok tm' ->
  parsers tm' = parsers tm /\ undomanager tm' = undomanager tm.
Proof.
  unfold deleteSelection, relex. intros H. res_cases.
  all: cbn [parsers undomanager set_heap set_cursor set_lines set_selection set_changed];
    auto.
Qed.

(** X21.  [pasteText] is not logged: the undo log is as before.  The
    table of parsers is kept, the manager is marked as changed, and
    without a selection the cursor ends as many lines further down as
    the pasted text, with its line endings converted, has line
    breaks. *)
Theorem pasteText_is_not_logged tm txt tm' :
  pasteText fuel image_w lexer_relex inc_parse tm txt = Ok tm' ->
  undomanager tm' = undomanager tm
  /\ parsers tm' = parsers tm
  /\ changed tm' = true
  /\ (hasSelection tm = false ->
      Cursor.line (cursor tm')
      = Cursor.line (cursor tm) + count_cr (replace_lf (replace_crlf txt))).
Proof.
  unfold pasteText. intros H. step_res H. step_res H. step_res H.
  assert (parsers a1 = parsers tm /\ undomanager a1 = undomanager tm
          /\ (hasSelection tm = false -> a1 = tm)) as (Hp1 & Hu1 & Hsame).
  { destruct (hasSelection tm).
    - apply deleteSelection_keeps in E1. destruct E1.
      split; [assumption|]. split; [assumption|]. discriminate.
    - inversion E1. auto. }
  clear E1. unfold relex, reparse in H. res_cases.
  all: repeat match goal with
         | E : Cursor.fix_ _ _ _ = Ok _ |- _ => apply fix_keeps_line in E
         | E : post_keypress _ _ _ = Ok _ |- _ =>
             apply post_keypress_keeps in E; destruct E as (? & ? & ? & _)
         end.
  all: cbn [heap lines parsers undomanager cursor changed set_heap set_cursor
            set_changed Cursor.with_pos Cursor.with_node Cursor.with_line Cursor.line
            Py.startswith_cr] in *.
  all: split; [congruence|]; split; [congruence|]; split; [reflexivity|].
  all: intros Hs; rewrite (Hsame Hs) in *; lia.
Qed.

End Clipboard.

Lemma copySelection_within_node_witness :
  let tm := TreeManager.set_selection Demo.doc_ab
              {| Cursor.node := 2%nat; Cursor.pos := 2; Cursor.line := 0 |}
              {| Cursor.node := 2%nat; Cursor.pos := 1; Cursor.line := 0 |} in
  TreeManager.copySelection Demo.fuel Demo.image_w tm = Ok (Some "b"%string)
  /\ forall tm' r,
       TreeManager.cutSelection Demo.fuel Demo.image_w Demo.relex tm = Ok (tm', r) ->
       r = Some "b"%string.
Proof.
  intros tm.
  set (n := {| nclass := TextNode;
               symbol := {| sclass := Terminal; name := "ab"; ast := None |};
               next_term := Some 4%nat; prev_term := Some 0%nat; parent := Some 0%nat;
               lookup := ""; image := false; plain_mode := false; deleted := false |}).
  assert (get (TreeManager.heap tm) 2%nat = Ok n) as Hn by (vm_compute; reflexivity).
  assert (is_return n = false) as Hr by reflexivity.
  assert (is_BOS n = false) as Hb by reflexivity.
  assert (Cursor.shows_image n = false) as Hi by reflexivity.
  assert (0 <= 1 < 2) as Hpq by lia.
  assert (2 <= Cursor.name_len n) as Hq by (vm_compute; discriminate).
  assert (Cursor.get_x Demo.fuel Demo.image_w (TreeManager.heap tm)
            {| Cursor.node := 2%nat; Cursor.pos := 1; Cursor.line := 0 |} = Ok 1)
    as Hxa by (vm_compute; reflexivity).
  exact (copySelection_within_node Demo.fuel Demo.image_w Demo.relex tm 2%nat n 1 2 0 1
           Hn Hr Hb Hi Hpq Hq Hxa (or_intror (conj eq_refl eq_refl))).
Defined.

Lemma pasteText_is_not_logged_witness :
  exists tm',
    TreeManager.pasteText Demo.fuel Demo.image_w Demo.relex Demo.inc_parse Demo.doc_ab
      (String "c" (String TreeManager.LF "d")) = Ok tm'
    /\ Cursor.line (TreeManager.cursor tm') = 1
    /\ TreeManager.undomanager tm' = TreeManager.undomanager Demo.doc_ab.
Proof.
  set (txt := String "c" (String TreeManager.LF "d")).
  set (tm' := Demo.run (TreeManager.pasteText Demo.fuel Demo.image_w Demo.relex
                          Demo.inc_parse Demo.doc_ab txt)).
  assert (TreeManager.pasteText Demo.fuel Demo.image_w Demo.relex Demo.inc_parse
            Demo.doc_ab txt = Ok tm') as Hrun by (vm_compute; reflexivity).
  exists tm'. split; [exact Hrun|].
  destruct (pasteText_is_not_logged Demo.fuel Demo.image_w Demo.relex Demo.inc_parse
              Demo.doc_ab txt tm' Hrun) as (Hu & _ & _ & Hline).
  split; [|exact Hu]. rewrite Hline; vm_compute; reflexivity.
Defined.

(** ** Creating a language box *)

Section NewBox.

Import TreeManager.

Variable lexer_relex : Binding -> NodeId -> Heap -> Heap.
Variable inc_parse : Binding -> Heap -> Heap.

Lemma relex_only_heap tm i tm' :
  relex lexer_relex tm i = Ok tm' ->
  tm' = set_heap tm (heap tm').
Proof.
  unfold relex. intros H. step_res H.
  destruct (get_lexer tm a); [|discriminate].
  inversion H; subst. reflexivity.
Qed.

Lemma reparse_only_heap tm i tm' :
  reparse inc_parse tm i = Ok tm' ->
  tm' = set_heap tm (heap tm').
Proof.
  unfold reparse. intros H. step_res H.
  destruct (get_parser tm a); [|discriminate].
  inversion H; subst. reflexivity.
Qed.

Lemma create_languagebox_registers tm lang ind tm1 lbox :
  parsers tm <> [] ->
  create_languagebox inc_parse tm lang ind = Ok (tm1, lbox) ->
  tm1 = set_parsers (set_heap tm (heap tm1))
          (parsers tm ++ [{| parser_root := length (roots (heap tm));
                             is_indentation_based := ind; language := lang |}]).
Proof.
  intros Hne H. unfold create_languagebox in H.
  cbn [alloc init_ast] in H.
  unfold add_parser in H. cbn [set_heap set_parsers parsers heap] in H.
  rewrite length_app in H. cbn [length] in H.
  destruct (parsers tm) as [|b0 bs] eqn:Hp; [congruence|].
  cbn [length Nat.add] in H.
  replace (S (length bs + 1)) with (S (S (length bs))) in H by lia.
  cbn [Nat.eqb Py.bind] in H.
  step_res H. inversion H; subst. destruct tm; cbn in *. subst. reflexivity.
Qed.

(** X22.  Creating a language box in a document that already has its
    main parser registers exactly one more binding, for a root that is
    new in the store, at the end of the parser table.  The line index,
    the selection and the undo log are as before: the box adds no line
    and is not logged.  The cursor goes to offset 0 and keeps its
    line; [edit_rightnode] and [changed] are set. *)
Theorem add_languagebox_registers_box tm lang ind tm' :
  parsers tm <> [] ->
  add_languagebox lexer_relex inc_parse tm lang ind = Ok tm' ->
  parsers tm' = parsers tm ++ [{| parser_root := length (roots (heap tm));
                                  is_indentation_based := ind; language := lang |}]
  /\ get_root_rec (heap tm) (length (roots (heap tm))) = Raise AttributeError
  /\ lines tm' = lines tm
  /\ undomanager tm' = undomanager tm
  /\ selection_start tm' = selection_start tm
  /\ selection_end tm' = selection_end tm
  /\ mainroot tm' = mainroot tm
  /\ Cursor.pos (cursor tm') = 0
  /\ Cursor.line (cursor tm') = Cursor.line (cursor tm)
  /\ edit_rightnode tm' = true
  /\ changed tm' = true.
Proof.
  intros Hne H. unfold add_languagebox in H.
  destruct (create_languagebox inc_parse tm lang ind) as [[tm1 lbox]|e] eqn:Hc;
    [|discriminate].
  pose proof (create_languagebox_registers _ _ _ _ _ Hne Hc) as H1.
  cbn [Py.bind] in H.
  step_res H.
  destruct (if negb a then _ else _) as [tm2|e] eqn:Hmid in H; [|discriminate].
  cbn [Py.bind] in H.
  assert (tm2 = set_heap tm1 (heap tm2)) as H2.
  { destruct (negb a).
    - step_res Hmid. inversion Hmid; subst. reflexivity.
    - step_res Hmid. cbn [alloc] in Hmid. step_res Hmid. step_res Hmid.
      step_res Hmid.
      apply relex_only_heap in Hmid. apply relex_only_heap in E3.
      rewrite Hmid, E3. reflexivity. }
  step_res H. step_res H. step_res H. step_res H.
  inversion H; subst tm'; clear H.
  apply reparse_only_heap in E3.
  rewrite E3, H2, H1. cbn.
  repeat split; try reflexivity.
  unfold get_root_rec. now rewrite lookup_ge_None_2.
Qed.

End NewBox.

Lemma add_languagebox_registers_box_witness :
  exists tm',
    TreeManager.add_languagebox Demo.relex Demo.inc_parse Demo.doc_ab "SQL" false = Ok tm'
    /\ List.map TreeManager.language (TreeManager.parsers tm') = ["Python"; "SQL"]%string
    /\ TreeManager.lines tm' = TreeManager.lines Demo.doc_ab
    /\ TreeManager.undomanager tm' = TreeManager.undomanager Demo.doc_ab.
Proof.
  set (tm' := Demo.run (TreeManager.add_languagebox Demo.relex Demo.inc_parse
                          Demo.doc_ab "SQL" false)).
  assert (TreeManager.add_languagebox Demo.relex Demo.inc_parse Demo.doc_ab "SQL" false
          = Ok tm') as Hrun by (vm_compute; reflexivity).
  assert (TreeManager.parsers Demo.doc_ab <> []) as Hne by (vm_compute; discriminate).
  exists tm'. split; [exact Hrun|].
  destruct (add_languagebox_registers_box Demo.relex Demo.inc_parse Demo.doc_ab
              "SQL" false tm' Hne Hrun) as (Hp & _ & Hl & Hu & _).
  split; [|split; [exact Hl|exact Hu]].
  rewrite Hp. vm_compute. reflexivity.
Defined.

Section Chains.

Lemma next_of_get h i j :
  next_of h i = Some j <-> exists n, get h i = Ok n /\ next_term n = Some j.
Proof.
  unfold next_of, get. destruct (nodes h !! i) as [n|]; split.
  - intros H. eauto.
  - intros (n' & H & Hn). now inversion H; subst.
  - discriminate.
  - intros (n' & H & _). discriminate.
Qed.

Lemma prev_of_get h i j :
  prev_of h i = Some j <-> exists n, get h i = Ok n /\ prev_term n = Some j.
Proof.
  unfold prev_of, get. destruct (nodes h !! i) as [n|]; split.
  - intros H. eauto.
  - intros (n' & H & Hn). now inversion H; subst.
  - discriminate.
  - intros (n' & H & _). discriminate.
Qed.

Lemma get_next_of h i n : get h i = Ok n -> next_of h i = next_term n.
Proof. unfold next_of, get. destruct (nodes h !! i); intros H; now inversion H. Qed.

Lemma get_prev_of h i n : get h i = Ok n -> prev_of h i = prev_term n.
Proof. unfold prev_of, get. destruct (nodes h !! i); intros H; now inversion H. Qed.

Lemma next_of_valid h i j : next_of h i = Some j -> valid h i.
Proof. intros H. apply next_of_get in H. destruct H as (n & H & _). eapply get_is_valid; eauto. Qed.

Lemma prev_of_valid h i j : prev_of h i = Some j -> valid h i.
Proof. intros H. apply prev_of_get in H. destruct H as (n & H & _). eapply get_is_valid; eauto. Qed.

Lemma chain_cons h i j t : chain h (i :: j :: t) <-> linked h i j /\ chain h (j :: t).
Proof. reflexivity. Qed.

Lemma removelast_In {A} (l : list A) (x : A) : In x (removelast l) -> In x l.
Proof.
  induction l as [|a l IH]; [intros []|]. cbn [removelast].
  destruct l as [|b l]; [intros []|]. intros [->|H]; [now left|right; now apply IH].
Qed.

Lemma chain_tl h a l : chain h (a :: l) -> chain h l.
Proof. destruct l as [|b l]; [intros _; exact I|]. intros [_ H]. exact H. Qed.

Lemma chain_app_inv h l1 : forall a l2,
  chain h (l1 ++ a :: l2) -> chain h (l1 ++ [a]) /\ chain h (a :: l2).
Proof.
  induction l1 as [|x l1 IH]; intros a l2 H.
  - cbn. split; [exact I|exact H].
  - destruct l1 as [|y l1].
    + cbn in H. destruct H as [H1 H2]. cbn. auto.
    + cbn [app] in H. apply chain_cons in H. destruct H as [H1 H2].
      destruct (IH a l2 H2) as [H3 H4]. split; [|exact H4].
      cbn [app]. apply chain_cons. auto.
Qed.

Lemma chain_app h l1 : forall a l2,
  chain h (l1 ++ [a]) -> chain h (a :: l2) -> chain h (l1 ++ a :: l2).
Proof.
  induction l1 as [|x l1 IH]; intros a l2 H1 H2.
  - exact H2.
  - destruct l1 as [|y l1].
    + cbn in H1. destruct H1 as [H1 _]. cbn [app]. apply chain_cons. auto.
    + cbn [app] in *. apply chain_cons in H1. destruct H1 as [H1 H3].
      apply chain_cons. split; [exact H1|]. apply IH; auto.
Qed.

(** A chain is kept by a change of the store that keeps the forward
    links of all its nodes but the last and the backward links of all
    its nodes but the first. *)
Lemma chain_frame h h' : forall l,
  chain h l ->
  (forall i, In i (removelast l) -> next_of h' i = next_of h i) ->
  (forall i, In i (tl l) -> prev_of h' i = prev_of h i) ->
  chain h' l.
Proof.
  induction l as [|i t IH]; intros Hc Hn Hp; [exact I|].
  destruct t as [|j t]; [exact I|].
  apply chain_cons in Hc. destruct Hc as [[H1 H2] Hc]. apply chain_cons. split.
  - split.
    + rewrite Hn; [exact H1|]. cbn. now left.
    + rewrite Hp; [exact H2|]. cbn. now left.
  - apply IH; [exact Hc| |].
    + intros x Hx. apply Hn. cbn [removelast]. right. exact Hx.
    + intros x Hx. apply Hp. cbn [tl]. right. exact Hx.
Qed.


Lemma same_kind_refl h : same_kind h h.
Proof. split; [reflexivity|]. intros i n H. eauto 10. Qed.

Lemma same_kind_trans h1 h2 h3 : same_kind h1 h2 -> same_kind h2 h3 -> same_kind h1 h3.
Proof.
  intros [R1 H1] [R2 H2]. split; [congruence|]. intros i n H.
  destruct (H1 i n H) as (n2 & G2 & A & B & C & D).
  destruct (H2 i n2 G2) as (n3 & G3 & A' & B' & C' & D').
  exists n3. repeat split; congruence.
Qed.

Lemma same_kind_valid h h' i : same_kind h h' -> valid h i -> valid h' i.
Proof.
  intros [_ H] V. destruct (get_valid h i V) as [n Hn].
  destruct (H i n Hn) as (n' & G & _). eapply get_is_valid; eauto.
Qed.

Lemma same_kind_marker h h' m s : same_kind h h' -> marker_named h m s -> marker_named h' m s.
Proof.
  intros [_ H] (n & G & A & B). destruct (H m n G) as (n' & G' & _ & S & _).
  exists n'. unfold is_Indentation in *. rewrite S. auto.
Qed.

Lemma same_kind_no_marker h h' i : same_kind h h' -> no_marker h i -> no_marker h' i.
Proof.
  intros [_ H] (n & G & A). destruct (H i n G) as (n' & G' & _ & S & _).
  exists n'. unfold is_Indentation in *. rewrite S. auto.
Qed.

Lemma next_of_set_node h i n x :
  next_of (set_node h i n) x
  = if decide (i = x /\ (i < length (nodes h))%nat) then next_term n else next_of h x.
Proof.
  unfold next_of, set_node. cbn [nodes]. rewrite list_lookup_insert.
  destruct (decide _); reflexivity.
Qed.

Lemma prev_of_set_node h i n x :
  prev_of (set_node h i n) x
  = if decide (i = x /\ (i < length (nodes h))%nat) then prev_term n else prev_of h x.
Proof.
  unfold prev_of, set_node. cbn [nodes]. rewrite list_lookup_insert.
  destruct (decide _); reflexivity.
Qed.

Lemma same_kind_set_node h i n n' :
  get h i = Ok n -> nclass n' = nclass n -> symbol n' = symbol n ->
  lookup n' = lookup n -> parent n' = parent n ->
  same_kind h (set_node h i n').
Proof.
  intros G A B C D. split; [reflexivity|]. intros x nx Hx.
  rewrite get_set_node. destruct (decide _) as [[-> _]|_].
  - rewrite G in Hx. inversion Hx; subst nx. eauto 10.
  - eauto 10.
Qed.

(** [remove_child] in terms of the links: the node before the removed
    one points to the node behind it, and back. *)
Lemma remove_child_links h m nm p q :
  get h m = Ok nm -> prev_term nm = Some p -> next_term nm = Some q ->
  valid h p -> valid h q ->
  exists h',
    remove_child h m = Ok h'
    /\ same_kind h h'
    /\ length (nodes h') = length (nodes h)
    /\ (forall i, next_of h' i = if decide (i = p) then Some q else next_of h i)
    /\ (forall i, prev_of h' i = if decide (i = q) then Some p else prev_of h i).
Proof.
  intros Hm Hp Hq Vp Vq. pose proof (get_is_valid _ _ _ Hm) as Vm.
  unfold remove_child. rewrite Hm. cbn [Py.bind]. rewrite Hp, Hq.
  set (h1 := set_node h m (with_deleted nm)).
  assert (same_kind h h1) as K1 by (eapply same_kind_set_node; eauto).
  assert (length (nodes h1) = length (nodes h)) as L1
    by (unfold h1, set_node; cbn [nodes]; apply length_insert).
  assert (valid h1 p) as Vp1 by (unfold valid; rewrite L1; exact Vp).
  destruct (get_valid h1 p Vp1) as [np Enp]. rewrite Enp. cbn [Py.bind].
  set (h2 := set_node h1 p (with_next np (Some q))).
  assert (same_kind h1 h2) as K2 by (eapply same_kind_set_node; eauto).
  assert (length (nodes h2) = length (nodes h)) as L2
    by (unfold h2, set_node; cbn [nodes]; rewrite length_insert; exact L1).
  assert (valid h2 q) as Vq2 by (unfold valid; rewrite L2; exact Vq).
  destruct (get_valid h2 q Vq2) as [nq Enq]. rewrite Enq. cbn [Py.bind].
  set (h3 := set_node h2 q (with_prev nq (Some p))).
  assert (same_kind h2 h3) as K3 by (eapply same_kind_set_node; eauto).
  exists h3. split; [reflexivity|].
  split; [eapply same_kind_trans; [eapply same_kind_trans|]; eauto|].
  split; [unfold h3, set_node; cbn [nodes]; rewrite length_insert; exact L2|].
  assert (forall i, next_of h1 i = next_of h i) as E1.
  { intros i. unfold h1. rewrite next_of_set_node.
    destruct (decide _) as [[Heq _]|_]; [subst i|reflexivity].
    cbn [with_deleted next_term]. symmetry. now apply get_next_of. }
  assert (forall i, prev_of h1 i = prev_of h i) as E1p.
  { intros i. unfold h1. rewrite prev_of_set_node.
    destruct (decide _) as [[Heq _]|_]; [subst i|reflexivity].
    cbn [with_deleted prev_term]. symmetry. now apply get_prev_of. }
  assert (forall i, next_of h2 i = if decide (i = p) then Some q else next_of h i) as E2.
  { intros i. unfold h2. rewrite next_of_set_node.
    destruct (decide (p = i /\ _)) as [[Heq _]|Hd].
    - subst i. rewrite decide_True by reflexivity. reflexivity.
    - rewrite decide_False; [apply E1|]. intros ->. apply Hd. split; [reflexivity|].
      rewrite L1. exact Vp. }
  assert (forall i, prev_of h2 i = prev_of h i) as E2p.
  { intros i. unfold h2. rewrite prev_of_set_node.
    destruct (decide _) as [[Heq _]|_]; [subst i|apply E1p].
    cbn [with_next prev_term]. rewrite <- (get_prev_of _ _ _ Enp). apply E1p. }
  split.
  - intros i. unfold h3. rewrite next_of_set_node.
    destruct (decide _) as [[Heq _]|_]; [subst i|apply E2].
    cbn [with_prev next_term]. rewrite <- (get_next_of _ _ _ Enq). apply E2.
  - intros i. unfold h3. rewrite prev_of_set_node.
    destruct (decide (q = i /\ _)) as [[Heq _]|Hd].
    + subst i. rewrite decide_True by reflexivity. reflexivity.
    + rewrite decide_False; [apply E2p|]. intros ->. apply Hd. split; [reflexivity|].
      rewrite L2. exact Vq.
Qed.

Lemma next_of_same_get h h' (x : NodeId) : get h' x = get h x -> next_of h' x = next_of h x.
Proof.
  unfold get, next_of. destruct (nodes h' !! x), (nodes h !! x); intros H; inversion H;
    reflexivity.
Qed.

Lemma prev_of_same_get h h' (x : NodeId) : get h' x = get h x -> prev_of h' x = prev_of h x.
Proof.
  unfold get, prev_of. destruct (nodes h' !! x), (nodes h !! x); intros H; inversion H;
    reflexivity.
Qed.

Lemma get_alloc h n x :
  get (fst (alloc h n)) x = if decide (x = length (nodes h)) then Ok n else get h x.
Proof.
  unfold get, alloc. cbn [fst nodes]. destruct (decide _) as [->|Hne].
  - rewrite lookup_app_r by lia. now rewrite Nat.sub_diag.
  - destruct (Nat.lt_ge_cases x (length (nodes h))) as [Hlt|Hge].
    + now rewrite lookup_app_l.
    + rewrite !(proj2 (lookup_ge_None _ _)); [reflexivity|lia|].
      rewrite length_app. cbn [length]. lia.
Qed.

(** A new node inserted behind node [i], in terms of the links. *)
Lemma insert_new_after h i n ni :
  get h i = Ok ni ->
  (forall k, next_term ni = Some k -> valid h k) ->
  exists h',
    insert_after (fst (alloc h n)) i (length (nodes h)) = Ok h'
    /\ same_kind h h'
    /\ length (nodes h') = S (length (nodes h))
    /\ (exists nj, get h' (length (nodes h)) = Ok nj
                   /\ nclass nj = nclass n /\ symbol nj = symbol n
                   /\ lookup nj = lookup n /\ parent nj = parent ni)
    /\ (forall x, next_of h' x
                  = if decide (x = i) then Some (length (nodes h))
                    else if decide (x = length (nodes h)) then next_term ni
                    else next_of h x)
    /\ (forall x, prev_of h' x
                  = if decide (Some x = next_term ni) then Some (length (nodes h))
                    else if decide (x = length (nodes h)) then Some i
                    else prev_of h x).
Proof.
  intros Hi Hk. pose proof (get_is_valid _ _ _ Hi) as Vi. unfold valid in Vi.
  remember (length (nodes h)) as j eqn:Hj.
  remember (fst (alloc h n)) as h0 eqn:Hh0.
  assert (length (nodes h0) = S j) as L0
    by (subst h0 j; unfold alloc; cbn [fst nodes]; rewrite length_app; cbn [length]; lia).
  assert (i <> j) as Hij by lia.
  assert (forall x, x <> j -> get h0 x = get h x) as G0
    by (intros x Hx; subst h0; rewrite get_alloc, <- Hj; now rewrite decide_False).
  assert (get h0 j = Ok n) as G0j
    by (subst h0; rewrite get_alloc, <- Hj; now rewrite decide_True).
  assert (forall x, x <> j -> next_of h0 x = next_of h x) as N0.
  { intros x Hx. apply next_of_same_get. now apply G0. }
  assert (forall x, x <> j -> prev_of h0 x = prev_of h x) as P0.
  { intros x Hx. apply prev_of_same_get. now apply G0. }
  unfold insert_after. rewrite (G0 i Hij), Hi. cbn [Py.bind]. rewrite G0j. cbn [Py.bind].
  cbv zeta.
  remember {| nclass := nclass n; symbol := symbol n; next_term := next_term ni;
              prev_term := Some i; parent := parent ni; lookup := lookup n;
              image := image n; plain_mode := plain_mode n; deleted := deleted n |}
    as nj' eqn:Hnj.
  remember (set_node h0 j nj') as h1 eqn:Hh1.
  assert (length (nodes h1) = S j) as L1
    by (subst h1; unfold set_node; cbn [nodes]; now rewrite length_insert).
  assert (get h1 i = Ok ni) as G1i
    by (subst h1; rewrite get_set_node_ne by auto; rewrite (G0 i Hij); exact Hi).
  rewrite G1i. cbn [Py.bind]. cbv zeta.
  match goal with
  | |- context [set_node h1 i ?w] => remember (set_node h1 i w) as h2 eqn:Hh2
  end.
  assert (length (nodes h2) = S j) as L2
    by (subst h2; unfold set_node; cbn [nodes]; now rewrite length_insert).
  assert (forall x nx, get h x = Ok nx ->
            exists nx', get h2 x = Ok nx' /\ nclass nx' = nclass nx /\ symbol nx' = symbol nx
                        /\ lookup nx' = lookup nx /\ parent nx' = parent nx) as K2.
  { intros x nx Hx. pose proof (get_is_valid _ _ _ Hx) as Vx. unfold valid in Vx.
    rewrite <- Hj in Vx.
    rewrite Hh2, get_set_node. destruct (decide _) as [[Heq _]|_].
    - subst x. rewrite Hi in Hx. inversion Hx; subst nx. eauto 10.
    - rewrite Hh1, get_set_node_ne by lia. rewrite G0 by lia. eauto 10. }
  assert (get h2 j = Ok nj') as G2j.
  { rewrite Hh2, get_set_node_ne by auto. rewrite Hh1. apply get_set_node_eq.
    unfold valid. lia. }
  assert (forall x, next_of h2 x
                    = if decide (x = i) then Some j
                      else if decide (x = j) then next_term ni else next_of h x) as N2.
  { intros x. rewrite Hh2, next_of_set_node.
    destruct (decide _) as [[Heq _]|Hd].
    - subst x. rewrite decide_True by reflexivity. reflexivity.
    - rewrite (decide_False (P := x = i))
        by (intros ->; apply Hd; split; [reflexivity|lia]).
      rewrite Hh1, next_of_set_node.
      destruct (decide _) as [[Heq _]|Hd'].
      + subst x. rewrite decide_True by reflexivity. rewrite Hnj. reflexivity.
      + assert (x <> j) by (intros ->; apply Hd'; split; [reflexivity|lia]).
        rewrite decide_False by assumption. now apply N0. }
  assert (forall x, prev_of h2 x = if decide (x = j) then Some i else prev_of h x) as P2.
  { intros x. rewrite Hh2, prev_of_set_node.
    destruct (decide _) as [[Heq _]|Hd].
    - subst x. rewrite decide_False by auto. cbn [with_next prev_term].
      symmetry. now apply get_prev_of.
    - rewrite Hh1, prev_of_set_node.
      destruct (decide _) as [[Heq _]|Hd'].
      + subst x. rewrite decide_True by reflexivity. rewrite Hnj. reflexivity.
      + assert (x <> j) by (intros ->; apply Hd'; split; [reflexivity|lia]).
        rewrite decide_False by assumption. now apply P0. }
  assert (nclass nj' = nclass n /\ symbol nj' = symbol n /\ lookup nj' = lookup n
          /\ parent nj' = parent ni) as Knj by (rewrite Hnj; cbn; auto).
  assert (roots h2 = roots h) as R2 by (rewrite Hh2, Hh1, Hh0; reflexivity).
  clear Hnj Hh1 Hh2.
  destruct (next_term ni) as [k|] eqn:Hnext.
  - specialize (Hk k eq_refl). unfold valid in Hk.
    assert (valid h2 k) as Vk2 by (unfold valid; lia).
    destruct (get_valid h2 k Vk2) as [nk Enk]. cbv beta iota. rewrite Enk. cbn [Py.bind].
    eexists. split; [reflexivity|].
    split.
    { split; [exact R2|]. intros x nx Hx.
      destruct (K2 x nx Hx) as (nx' & G & A & B & C & D).
      rewrite get_set_node. destruct (decide _) as [[Heq _]|_].
      - subst x. rewrite Enk in G. inversion G; subst nx'. eauto 10.
      - eauto 10. }
    split; [unfold set_node; cbn [nodes]; now rewrite length_insert|].
    split.
    { exists nj'. split; [|exact Knj].
      rewrite get_set_node_ne by lia. exact G2j. }
    split.
    + intros x. rewrite next_of_set_node.
      destruct (decide _) as [[Heq _]|_]; [subst x|apply N2].
      cbn [with_prev next_term]. rewrite <- (get_next_of _ _ _ Enk). apply N2.
    + intros x. rewrite prev_of_set_node.
      destruct (decide _) as [[Heq _]|Hd].
      * subst x. rewrite decide_True by reflexivity. reflexivity.
      * rewrite decide_False; [apply P2|]. intros Heq. inversion Heq; subst x.
        apply Hd. split; [reflexivity|lia].
  - exists h2. split; [reflexivity|].
    split; [split; [exact R2|exact K2]|].
    split; [exact L2|].
    split; [exists nj'; split; [exact G2j|exact Knj]|].
    split; [exact N2|].
    intros x. rewrite decide_False by discriminate. apply P2.
Qed.

End Chains.

Section MarkerRuns.

Import TreeManager.

Lemma chain_valid h : forall l x,
  chain h l -> (2 <= length l)%nat -> In x l -> valid h x.
Proof.
  induction l as [|a l IH]; intros x Hc Hl Hx; [destruct Hx|].
  destruct l as [|b l]; [cbn in Hl; lia|].
  apply chain_cons in Hc. destruct Hc as [[Hn Hp] Hc].
  destruct Hx as [<-|Hx]; [eapply next_of_valid; eauto|].
  destruct l as [|c l].
  - destruct Hx as [<-|[]]. eapply prev_of_valid; eauto.
  - apply IH; auto. cbn [length]. lia.
Qed.

Lemma marker_run_valid h i ms stop x :
  marker_run h i ms stop -> In x (i :: ms ++ [stop]) -> valid h x.
Proof.
  intros (Hc & _) Hx. eapply chain_valid; eauto.
  cbn [length]. rewrite length_app. cbn [length]. lia.
Qed.

Lemma marker_run_head h i ms stop :
  marker_run h i ms stop -> linked h i (hd stop ms).
Proof. intros (Hc & _). destruct ms as [|m ms]; cbn in Hc; tauto. Qed.

Lemma marker_run_tail h i m ms stop :
  marker_run h i (m :: ms) stop ->
  linked h m (hd stop ms) /\ chain h (m :: ms ++ [stop])
  /\ List.NoDup (m :: ms ++ [stop]) /\ ~ In i (m :: ms ++ [stop])
  /\ (exists n, get h m = Ok n /\ is_Indentation n = true).
Proof.
  intros (Hc & Hnd & Hm & Hs). cbn [app] in Hc. apply chain_cons in Hc.
  destruct Hc as [_ Hc]. inversion Hnd as [|? ? Hni Hnd']; subst.
  split; [destruct ms; cbn in Hc; tauto|]. split; [exact Hc|]. split; [exact Hnd'|].
  split; [exact Hni|].
  destruct (Hm m) as (s & n & G & A & _); [now left|eauto].
Qed.

(** Removing the markers of a run links the node before the run to the
    node behind it. *)
Lemma remove_indentation_loop_run : forall old h nl stop k,
  marker_run h nl old stop -> (length old < k)%nat ->
  exists h',
    remove_indentation_loop k h (hd stop old) = Ok (h', stop)
    /\ same_kind h h'
    /\ length (nodes h') = length (nodes h)
    /\ marker_run h' nl [] stop
    /\ (forall x, x <> nl -> next_of h' x = next_of h x)
    /\ (forall x, x <> stop -> ~ In x old -> prev_of h' x = prev_of h x).
Proof.
  induction old as [|m rest IH]; intros h nl stop k Hrun Hk.
  - destruct k as [|k]; [cbn in Hk; lia|]. cbn [hd remove_indentation_loop].
    destruct Hrun as (Hc & Hnd & Hm & (n & G & A)). rewrite G. cbn [Py.bind]. rewrite A.
    exists h. split; [reflexivity|]. split; [apply same_kind_refl|]. split; [reflexivity|].
    split; [split; [exact Hc|]; split; [exact Hnd|]; split; [exact Hm|]; exists n; auto|].
    auto.
  - destruct k as [|k]; [cbn in Hk; lia|]. cbn [hd remove_indentation_loop].
    pose proof (marker_run_head _ _ _ _ Hrun) as [Hn1 Hp1]. cbn [hd] in Hn1, Hp1.
    destruct (marker_run_tail _ _ _ _ _ Hrun) as ([Hn2 Hp2] & Hc & Hnd & Hni & (nm & G & A)).
    rewrite G. cbn [Py.bind]. rewrite A.
    set (q := hd stop rest) in *.
    assert (prev_term nm = Some nl) as Hprev by (rewrite <- (get_prev_of _ _ _ G); exact Hp1).
    assert (next_term nm = Some q) as Hnext by (rewrite <- (get_next_of _ _ _ G); exact Hn2).
    destruct (remove_child_links h m nm nl q G Hprev Hnext)
      as (h1 & Hrem & K1 & L1 & N1 & P1);
      [eapply next_of_valid; eauto|eapply prev_of_valid; eauto|].
    rewrite Hrem. cbn [Py.bind]. rewrite Hnext. cbn [deref Py.bind].
    assert (In q (rest ++ [stop])) as Hq
      by (unfold q; destruct rest; cbn; auto).
    assert (marker_run h1 nl rest stop) as Hrun1.
    { destruct Hrun as (_ & Hnd0 & Hm & Hs).
      split; [|split; [|split]].
      - assert (chain h1 (rest ++ [stop])) as Hc1.
        { assert (chain h (rest ++ [stop])) as Hc0.
          { eapply chain_tl; eauto. }
          apply (chain_frame h); [exact Hc0| |].
          - intros x Hx. rewrite N1. rewrite decide_False; [reflexivity|].
            intros ->. apply Hni. right. apply removelast_In in Hx. exact Hx.
          - intros x Hx. rewrite P1. rewrite decide_False; [reflexivity|].
            intros ->. clear - Hx Hnd. inversion Hnd as [|? ? _ Hnd']; subst.
            unfold q in Hx. destruct rest as [|r rest]; cbn in Hx; [exact Hx|].
            inversion Hnd'; subst. auto. }
        assert (linked h1 nl q) as Hl.
        { split; [rewrite N1; now rewrite decide_True|rewrite P1; now rewrite decide_True]. }
        destruct rest as [|r rest]; cbn [app] in *; [split; [exact Hl|exact I]|].
        apply chain_cons. split; [exact Hl|exact Hc1].
      - inversion Hnd0 as [|? ? Hx Hnd1]; subst. inversion Hnd1; subst.
        constructor; [|assumption]. intros Hin. apply Hx. now right.
      - intros x Hx. destruct (Hm x) as [s Hs']; [now right|].
        exists s. eapply same_kind_marker; eauto.
      - eapply same_kind_no_marker; eauto. }
    destruct (IH h1 nl stop k Hrun1) as (h' & Hloop & K' & L' & Hrun' & N' & P');
      [cbn in Hk; lia|].
    exists h'. fold q. split; [exact Hloop|].
    split; [eapply same_kind_trans; eauto|]. split; [congruence|].
    split; [exact Hrun'|]. split.
    + intros x Hx. rewrite N' by assumption. rewrite N1. now rewrite decide_False.
    + intros x Hx Hnin. rewrite P'.
      * rewrite P1. rewrite decide_False; [reflexivity|]. intros ->.
        apply in_app_or in Hq. destruct Hq as [Hq|[Hq|[]]]; [|now apply Hx].
        apply Hnin. now right.
      * assumption.
      * intros Hin. apply Hnin. now right.
Qed.

(** Inserting new markers, one after the other, directly behind the
    node before a run: the run grows at its front, the last inserted
    marker first. *)
Lemma insert_all_after_run : forall new h nl ms stop,
  marker_run h nl ms stop ->
  (forall n, In n new -> is_Indentation n = true) ->
  exists h' ms',
    insert_all_after h nl new = Ok h'
    /\ same_kind h h'
    /\ length (nodes h') = (length (nodes h) + length new)%nat
    /\ marker_run h' nl (ms' ++ ms) stop
    /\ Forall2 (fun m nd => exists n, get h' m = Ok n /\ nclass n = nclass nd
                                        /\ symbol n = symbol nd /\ lookup n = lookup nd)
         ms' (rev new)
    /\ (forall x, In x ms' -> (length (nodes h) <= x)%nat)
    /\ (forall x, valid h x -> x <> nl -> next_of h' x = next_of h x)
    /\ (forall x, valid h x -> x <> hd stop ms -> prev_of h' x = prev_of h x).
Proof.
  induction new as [|n new IH]; intros h nl ms stop Hrun Hnew.
  - exists h, []. cbn [insert_all_after app map rev length].
    split; [reflexivity|]. split; [apply same_kind_refl|]. split; [lia|].
    split; [exact Hrun|]. split; [constructor|]. split; [intros x []|]. auto.
  - cbn [insert_all_after].
    pose proof (marker_run_head _ _ _ _ Hrun) as [Hn1 Hp1].
    set (q := hd stop ms) in *.
    apply next_of_get in Hn1. destruct Hn1 as (nnl & Gnl & Hnext).
    destruct (insert_new_after h nl n nnl Gnl) as (h1 & Hins & K1 & L1 & Hj & N1 & P1).
    { intros k Hk. rewrite Hnext in Hk. inversion Hk; subst k.
      eapply prev_of_valid; eauto. }
    set (j := length (nodes h)) in *.
    assert (alloc h n = (fst (alloc h n), j)) as Halloc by reflexivity.
    rewrite Halloc. rewrite Hins. cbn [Py.bind].
    assert (forall x, In x (nl :: ms ++ [stop]) -> x <> j) as Hfresh.
    { intros x Hx. pose proof (marker_run_valid _ _ _ _ _ Hrun Hx) as V.
      unfold valid in V. fold j in V. lia. }
    assert (marker_run h1 nl (j :: ms) stop) as Hrun1.
    { destruct Hrun as (Hc & Hnd & Hm & Hs).
      split; [|split; [|split]].
      - cbn [app]. apply chain_cons. split.
        { split; [rewrite N1; now rewrite decide_True|].
          rewrite P1. rewrite decide_False.
          - now rewrite decide_True.
          - rewrite Hnext. intros Heq. inversion Heq as [Heq'].
            apply (Hfresh q); [|congruence].
            right. unfold q. destruct ms; cbn; auto. }
        assert (chain h1 (ms ++ [stop])) as Hc1.
        { assert (chain h (ms ++ [stop])) as Hc0.
          { eapply chain_tl; eauto. }
          inversion Hnd as [|? ? Hni Hnd']; subst.
          apply (chain_frame h); [exact Hc0| |].
          - intros x Hx. apply removelast_In in Hx. rewrite N1.
            rewrite decide_False by (intros ->; now apply Hni).
            rewrite decide_False by (apply Hfresh; now right). reflexivity.
          - intros x Hx. rewrite P1. rewrite Hnext.
            rewrite decide_False.
            + rewrite decide_False; [reflexivity|]. apply Hfresh. right.
              destruct ms; cbn in Hx |- *; [destruct Hx|]. now right.
            + intros Heq. inversion Heq; subst x. clear - Hx Hnd'.
              unfold q in Hx. destruct ms as [|r ms]; cbn in Hx; [exact Hx|].
              inversion Hnd'; subst. auto. }
        assert (linked h1 j q) as Hl.
        { split.
          - rewrite N1. rewrite decide_False by (intros Heq; apply (Hfresh nl); [now left|auto]).
            rewrite decide_True by reflexivity. exact Hnext.
          - rewrite P1. rewrite Hnext. now rewrite decide_True. }
        destruct ms as [|r ms]; cbn [app] in *; [split; [exact Hl|exact I]|].
        apply chain_cons. split; [exact Hl|exact Hc1].
      - cbn [app]. inversion Hnd as [|? ? Hni Hnd']; subst.
        constructor.
        + intros [Heq|Hin]; [apply (Hfresh nl); [now left|auto]|now apply Hni].
        + constructor; [|exact Hnd']. intros Hin. apply (Hfresh j); [now right|reflexivity].
      - intros x [<-|Hx].
        + destruct Hj as (nj & Gj & _ & Sj & _). exists (name (symbol n)), nj.
          split; [exact Gj|]. unfold is_Indentation. rewrite Sj.
          split; [apply Hnew; now left|reflexivity].
        + destruct (Hm x Hx) as [s Hs']. exists s. eapply same_kind_marker; eauto.
      - eapply same_kind_no_marker; eauto. }
    destruct (IH h1 nl (j :: ms) stop Hrun1) as (h' & ms' & Hall & K' & L' & Hrun' & Hnames
                                                 & Hnew' & N' & P');
      [intros n' Hn'; apply Hnew; now right|].
    exists h', (ms' ++ [j]). split; [exact Hall|].
    split; [eapply same_kind_trans; eauto|].
    split; [rewrite L', L1; cbn [length]; fold j; lia|].
    split; [rewrite <- app_assoc; exact Hrun'|].
    split.
    { cbn [rev]. apply Forall2_app; [exact Hnames|]. constructor; [|constructor].
      destruct Hj as (nj & Gj & Cj & Sj & Lj & _).
      destruct K' as [_ K']. destruct (K' j nj Gj) as (nj' & Gj' & Cj' & Sj' & Lj' & _).
      exists nj'. repeat split; congruence. }
    split.
    { intros x Hx. apply in_app_or in Hx. destruct Hx as [Hx|[<-|[]]]; [|fold j; lia].
      specialize (Hnew' x Hx). rewrite L1 in Hnew'. fold j. lia. }
    split.
    + intros x V Hx. rewrite N'; [|unfold valid in *; lia|assumption].
      rewrite N1. rewrite decide_False by assumption.
      rewrite decide_False; [reflexivity|]. unfold valid in V. fold j in V. lia.
    + intros x V Hx. rewrite P'; [|unfold valid in *; lia|].
      * rewrite P1. rewrite Hnext. rewrite decide_False by congruence.
        rewrite decide_False; [reflexivity|]. unfold valid in V. fold j in V. lia.
      * cbn [hd]. unfold valid in V. fold j in V. lia.
Qed.

Lemma marker_run_shift h i m ms stop :
  marker_run h i (m :: ms) stop -> marker_run h m ms stop.
Proof.
  intros (Hc & Hnd & Hm & Hs). split; [|split; [|split]].
  - eapply chain_tl; eauto.
  - now inversion Hnd.
  - intros x Hx. apply Hm. now right.
  - exact Hs.
Qed.

Lemma marker_run_frame h h' i ms stop :
  marker_run h i ms stop -> same_kind h h' ->
  (forall x, In x (i :: ms) -> next_of h' x = next_of h x) ->
  (forall x, In x (ms ++ [stop]) -> prev_of h' x = prev_of h x) ->
  marker_run h' i ms stop.
Proof.
  intros (Hc & Hnd & Hm & Hs) K N P. split; [|split; [exact Hnd|split]].
  - apply (chain_frame h); [exact Hc| |].
    + intros x Hx. apply N.
      replace (i :: ms ++ [stop]) with ((i :: ms) ++ [stop]) in Hx by reflexivity.
      rewrite removelast_last in Hx. exact Hx.
    + intros x Hx. apply P. exact Hx.
  - intros x Hx. destruct (Hm x Hx) as [s' Hs']. exists s'. eapply same_kind_marker; eauto.
  - eapply same_kind_no_marker; eauto.
Qed.

(** The symbols [indentation_nodes_changed] collects behind a node are
    those of the markers of the run, in the order of the chain. *)
Lemma previous_nodes_loop_run : forall old h nl stop k,
  marker_run h nl old stop -> (length old < k)%nat ->
  exists syms,
    previous_nodes_loop k h (hd stop old) = Ok syms
    /\ Forall2 (fun m s => exists n, get h m = Ok n /\ symbol n = s) old syms.
Proof.
  induction old as [|m rest IH]; intros h nl stop k Hrun Hk.
  - destruct k as [|k]; [cbn in Hk; lia|]. cbn [hd previous_nodes_loop].
    destruct Hrun as (_ & _ & _ & (n & G & A)). rewrite G. cbn [Py.bind]. rewrite A.
    exists []. split; [reflexivity|constructor].
  - destruct k as [|k]; [cbn in Hk; lia|]. cbn [hd previous_nodes_loop].
    destruct (marker_run_tail _ _ _ _ _ Hrun) as ([Hn2 _] & _ & _ & _ & (nm & G & A)).
    rewrite G. cbn [Py.bind]. rewrite A.
    rewrite <- (get_next_of _ _ _ G), Hn2. cbn [deref Py.bind].
    destruct (IH h m stop k (marker_run_shift _ _ _ _ _ Hrun)) as (syms & Hloop & Hall);
      [cbn in Hk; lia|].
    rewrite Hloop. cbn [Py.bind]. exists (symbol nm :: syms). split; [reflexivity|].
    constructor; [eauto|exact Hall].
Qed.

Lemma Forall2_rev {A B} (P : A -> B -> Prop) (l : list A) (k : list B) :
  Forall2 P l k -> Forall2 P (rev l) (rev k).
Proof.
  induction 1 as [|x y l k Hxy _ IH]; [constructor|].
  cbn [rev]. apply Forall2_app; [exact IH|]. constructor; [exact Hxy|constructor].
Qed.

Lemma symbols_same : forall a b,
  length a = length b -> symbols_differ a b = false ->
  Forall2 (fun x y => Symbol_eqb x y = true) a b.
Proof.
  induction a as [|x a IH]; intros [|y b] Hl Hd; try discriminate Hl; constructor.
  - cbn [symbols_differ] in Hd. apply orb_false_iff in Hd. destruct Hd as [Hd _].
    now apply negb_false_iff in Hd.
  - apply IH; [now inversion Hl|]. cbn [symbols_differ] in Hd.
    apply orb_false_iff in Hd. tauto.
Qed.

Lemma Symbol_eqb_name a b : Symbol_eqb a b = true -> name a = name b.
Proof.
  unfold Symbol_eqb. intros H. apply andb_true_iff in H. destruct H as [_ H].
  now apply String.eqb_eq in H.
Qed.

(** When [indentation_nodes_changed] finds the markers as computed, the
    markers of the run have the computed names, in reverse order. *)
Lemma markers_as_computed h nl old stop syms (new : list Node) :
  marker_run h nl old stop ->
  Forall2 (fun m s => exists n, get h m = Ok n /\ symbol n = s) old syms ->
  length (rev syms) = length new ->
  symbols_differ (map symbol new) (rev syms) = false ->
  Forall2 (marker_named h) old (rev (map (fun n => name (symbol n)) new)).
Proof.
  intros (_ & _ & Hm & _) Hall Hlen Hd.
  apply symbols_same in Hd; [|now rewrite length_map].
  apply Forall2_fmap_l in Hd.
  assert (Forall2 (fun s (n : Node) => name s = name (symbol n)) (rev syms) new) as H1.
  { apply Forall2_flip. eapply Forall2_impl; [exact Hd|].
    cbn. intros n s' E. symmetry. now apply Symbol_eqb_name. }
  assert (Forall2 (fun s (n : Node) => name s = name (symbol n)) syms (rev new)) as H2.
  { rewrite <- (rev_involutive syms). apply Forall2_rev. exact H1. }
  rewrite <- map_rev. apply Forall2_fmap_r.
  clear - Hm Hall H2. revert Hm H2. generalize (rev new) as l.
  induction Hall as [|m s old syms (n & G & S) Hall IH]; intros l Hm H2.
  - inversion H2; subst. constructor.
  - inversion H2 as [|? nd ? l' Hn H2']; subst. constructor.
    + destruct (Hm m) as (s' & n' & G' & A & _); [now left|].
      rewrite G in G'. inversion G'; subst n'. exists n. rewrite <- Hn. auto.
    + apply IH; [|exact H2']. intros x Hx. apply Hm. now right.
Qed.

Lemma ListNoDup_app {A} (l k : list A) :
  List.NoDup (l ++ k)
  <-> List.NoDup l /\ (forall x, In x l -> In x k -> False) /\ List.NoDup k.
Proof.
  rewrite <- !NoDup_ListNoDup, NoDup_app. unfold not.
  setoid_rewrite list_elem_of_In. reflexivity.
Qed.

Lemma last_cons_In {A} (l : list A) (d : A) : In (List.last l d) (d :: l).
Proof.
  induction l as [|a l IH]; [now left|].
  destruct l as [|b l]; [right; now left|].
  change (List.last (a :: b :: l) d) with (List.last (b :: l) d).
  destruct IH as [IH|IH]; [now left|right; now right].
Qed.

Lemma chain_last_link h : forall l a d,
  chain h (l ++ [a]) -> l <> [] -> linked h (List.last l d) a.
Proof.
  induction l as [|x l IH]; intros a d Hc Hne; [congruence|].
  destruct l as [|y l].
  - cbn in Hc. cbn. tauto.
  - cbn [app] in Hc. apply chain_cons in Hc. destruct Hc as [_ Hc].
    change (List.last (x :: y :: l) d) with (List.last (y :: l) d).
    apply IH; [exact Hc|discriminate].
Qed.

(** The clean-up before the end sentinel removes the markers of the
    run that ends there, walking backwards. *)
Lemma clean_tail_loop_run : forall tail h p eos k,
  marker_run h p tail eos -> no_marker h p -> (length tail < k)%nat ->
  exists h',
    clean_tail_loop k h (List.last tail p) = Ok (h', p)
    /\ same_kind h h'
    /\ length (nodes h') = length (nodes h)
    /\ marker_run h' p [] eos
    /\ (forall x, x <> p -> ~ In x tail -> next_of h' x = next_of h x)
    /\ (forall x, x <> eos -> prev_of h' x = prev_of h x).
Proof.
  induction tail as [|t init IH] using rev_ind; intros h p eos k Hrun Hp Hk.
  - destruct k as [|k]; [cbn in Hk; lia|]. cbn [List.last clean_tail_loop].
    destruct Hp as (n & G & A). rewrite G. cbn [Py.bind]. rewrite A.
    exists h. split; [reflexivity|]. split; [apply same_kind_refl|]. split; [reflexivity|].
    split; [exact Hrun|]. auto.
  - destruct k as [|k]; [rewrite length_app in Hk; cbn in Hk; lia|].
    rewrite List.last_last. cbn [clean_tail_loop].
    destruct Hrun as (Hc & Hnd & Hm & Hs).
    assert (chain h ((p :: init) ++ [t]) /\ linked h t eos) as [Hc1 [Hn2 Hp2]].
    { replace (p :: (init ++ [t]) ++ [eos]) with ((p :: init) ++ t :: [eos]) in Hc
        by (cbn [app]; now rewrite <- app_assoc).
      apply chain_app_inv in Hc. destruct Hc as [Hc1 Hc2]. split; [exact Hc1|].
      cbn in Hc2. tauto. }
    set (u := List.last init p).
    assert (linked h u t) as [Hn1 Hp1].
    { replace u with (List.last (p :: init) p) by (destruct init; reflexivity).
      apply chain_last_link; [exact Hc1|discriminate]. }
    destruct (Hm t) as (s & nt & G & A & _); [apply in_or_app; right; now left|].
    rewrite G. cbn [Py.bind]. rewrite A.
    assert (prev_term nt = Some u) as Hprev by (rewrite <- (get_prev_of _ _ _ G); exact Hp1).
    assert (next_term nt = Some eos) as Hnext by (rewrite <- (get_next_of _ _ _ G); exact Hn2).
    destruct (remove_child_links h t nt u eos G Hprev Hnext)
      as (h1 & Hrem & K1 & L1 & N1 & P1);
      [eapply next_of_valid; eauto|eapply prev_of_valid; eauto|].
    rewrite Hrem. cbn [Py.bind]. rewrite Hprev. cbn [deref Py.bind].
    assert (List.NoDup ((p :: init) ++ [t; eos])) as Hnd'
      by (cbn [app]; replace (init ++ [t; eos]) with ((init ++ [t]) ++ [eos]);
          [exact Hnd|now rewrite <- app_assoc]).
    apply ListNoDup_app in Hnd'. destruct Hnd' as (Hnd1 & Hdisj & Hnd2).
    assert (In u (p :: init)) as Hu.
    { unfold u. apply last_cons_In. }
    assert (marker_run h1 p init eos) as Hrun1.
    { split; [|split; [|split]].
      - assert (chain h1 (p :: init)) as Hc2.
        { assert (chain h (p :: init)) as Hc0.
          { destruct (exists_last (l := p :: init)) as (l0 & a & E); [discriminate|].
            rewrite E in Hc1 |- *. rewrite <- app_assoc in Hc1. cbn [app] in Hc1.
            apply chain_app_inv in Hc1. tauto. }
          apply (chain_frame h); [exact Hc0| |].
          - intros x Hx. rewrite N1. rewrite decide_False; [reflexivity|]. intros ->.
            clear - Hx Hnd1. unfold u in Hx.
            destruct (exists_last (l := p :: init)) as (l0 & a & E); [discriminate|].
            assert (List.last init p = a) as Ha.
            { replace (List.last init p) with (List.last (p :: init) p) by (destruct init; reflexivity).
              rewrite E. apply List.last_last. }
            rewrite Ha in Hx. rewrite E in Hx, Hnd1. rewrite removelast_last in Hx.
            apply ListNoDup_app in Hnd1. destruct Hnd1 as (_ & Hd & _).
            apply (Hd a Hx). now left.
          - intros x Hx. rewrite P1. rewrite decide_False; [reflexivity|]. intros ->.
            apply (Hdisj eos); [now right|right; now left]. }
        replace (p :: init ++ [eos]) with ((p :: init) ++ [eos]) by reflexivity.
        destruct (exists_last (l := p :: init)) as (l0 & a & E); [discriminate|].
        assert (u = a) as Ha.
        { unfold u.
          replace (List.last init p) with (List.last (p :: init) p) by (destruct init; reflexivity).
          rewrite E. apply List.last_last. }
        rewrite E in Hc2 |- *. rewrite <- app_assoc. cbn [app].
        apply chain_app; [exact Hc2|]. cbn. split; [|exact I]. rewrite <- Ha.
        split; [rewrite N1; now rewrite decide_True|rewrite P1; now rewrite decide_True].
      - replace (p :: init ++ [eos]) with ((p :: init) ++ [eos]) by reflexivity.
        apply ListNoDup_app. split; [exact Hnd1|]. split.
        + intros x Hx [Heq|[]]. subst x. apply (Hdisj eos Hx). right. now left.
        + constructor; [intros []|constructor].
      - intros x Hx. destruct (Hm x) as [s' Hs']; [apply in_or_app; now left|].
        exists s'. eapply same_kind_marker; eauto.
      - eapply same_kind_no_marker; eauto. }
    destruct (IH h1 p eos k Hrun1) as (h' & Hloop & K' & L' & Hrun' & N' & P').
    { eapply same_kind_no_marker; eauto. }
    { rewrite length_app in Hk. cbn in Hk. lia. }
    exists h'. fold u. split; [exact Hloop|].
    split; [eapply same_kind_trans; eauto|]. split; [congruence|].
    split; [exact Hrun'|]. split.
    + intros x Hx Hnin. rewrite N'; [|assumption|].
      * rewrite N1. rewrite decide_False; [reflexivity|]. intros ->.
        destruct Hu as [Hu|Hu]; [now apply Hx|]. apply Hnin. apply in_or_app. now left.
      * intros Hin. apply Hnin. apply in_or_app. now left.
    + intros x Hx. rewrite P' by assumption. rewrite P1. now rewrite decide_False.
Qed.

(** *** The scan for a logical line *)

Lemma is_logical_line_loop_mono h : forall k k' i b,
  is_logical_line_loop k h i = Ok b -> (k <= k')%nat -> is_logical_line_loop k' h i = Ok b.
Proof.
  induction k as [|k IH]; intros k' i b H Hk; [discriminate H|].
  destruct k' as [|k']; [lia|]. cbn [is_logical_line_loop] in H |- *.
  destruct (get h i) as [n|e]; [|discriminate H]. cbn [Py.bind] in H |- *.
  destruct (is_EOS n); [exact H|].
  destruct (String.eqb (lookup n) "<return>"); [exact H|].
  destruct (String.eqb (lookup n) "<ws>").
  - destruct (deref (next_term n)) as [j|e]; [|discriminate H]. cbn [Py.bind] in H |- *.
    apply (IH k'); [exact H|lia].
  - destruct (is_Indentation n); [|exact H].
    destruct (deref (next_term n)) as [j|e]; [|discriminate H]. cbn [Py.bind] in H |- *.
    apply (IH k'); [exact H|lia].
Qed.

(** A scan that finds the line logical has passed the markers of the
    run: none of them is an end sentinel or a line break. *)
Lemma is_logical_line_loop_pass : forall old h nl stop k,
  marker_run h nl old stop ->
  is_logical_line_loop k h (hd stop old) = Ok true ->
  exists k', k = (k' + length old)%nat
             /\ is_logical_line_loop k' h stop = Ok true
             /\ Forall (fun m => exists n, get h m = Ok n /\ is_EOS n = false
                                           /\ String.eqb (lookup n) "<return>" = false) old.
Proof.
  induction old as [|m rest IH]; intros h nl stop k Hrun H.
  - exists k. cbn [length hd] in *. split; [lia|]. split; [exact H|constructor].
  - destruct k as [|k]; [discriminate H|]. cbn [hd is_logical_line_loop] in H.
    destruct (marker_run_tail _ _ _ _ _ Hrun) as ([Hn2 _] & _ & _ & _ & (nm & G & A)).
    rewrite G in H. cbn [Py.bind] in H.
    destruct (is_EOS nm) eqn:E1; [discriminate H|].
    destruct (String.eqb (lookup nm) "<return>") eqn:E2; [discriminate H|].
    rewrite A in H. rewrite <- (get_next_of _ _ _ G), Hn2 in H.
    assert (is_logical_line_loop k h (hd stop rest) = Ok true) as H'
      by (destruct (String.eqb (lookup nm) "<ws>"); exact H).
    destruct (IH h m stop k (marker_run_shift _ _ _ _ _ Hrun) H') as (k' & -> & Hs & Hall).
    exists k'. cbn [length]. split; [lia|]. split; [exact Hs|].
    constructor; [eauto|exact Hall].
Qed.

(** The scan steps over the markers of a run. *)
Lemma is_logical_line_loop_through : forall ms h nl stop k,
  marker_run h nl ms stop ->
  Forall (fun m => exists n, get h m = Ok n /\ is_EOS n = false
                             /\ String.eqb (lookup n) "<return>" = false) ms ->
  is_logical_line_loop k h stop = Ok true ->
  is_logical_line_loop (k + length ms) h (hd stop ms) = Ok true.
Proof.
  induction ms as [|m rest IH]; intros h nl stop k Hrun Hall H.
  - cbn [length hd]. now rewrite Nat.add_0_r.
  - cbn [length hd]. rewrite Nat.add_succ_r. cbn [is_logical_line_loop].
    destruct (marker_run_tail _ _ _ _ _ Hrun) as ([Hn2 _] & _ & _ & _ & (nm & G & A)).
    inversion Hall as [|? ? (n' & G' & E1 & E2) Hall']; subst.
    rewrite G in G'. inversion G'; subst n'.
    rewrite G. cbn [Py.bind]. rewrite E1, E2, A.
    rewrite <- (get_next_of _ _ _ G), Hn2. cbn [deref Py.bind].
    pose proof (IH h m stop k (marker_run_shift _ _ _ _ _ Hrun) Hall' H) as H'.
    destruct (String.eqb (lookup nm) "<ws>"); exact H'.
Qed.

(** The scan gives the same answer in a store that differs in the
    forward links of nodes the scan does not step over. *)
Lemma is_logical_line_loop_agree h h' (dl : list NodeId) :
  same_kind h h' ->
  (forall x, valid h x -> ~ In x dl -> next_of h' x = next_of h x) ->
  (forall d k, In d dl -> is_logical_line_loop k h d = Ok true ->
               is_logical_line_loop 1 h d = Ok true) ->
  forall k i, is_logical_line_loop k h i = Ok true -> is_logical_line_loop k h' i = Ok true.
Proof.
  intros [_ K] N D. induction k as [|k IH]; intros i H; [discriminate H|].
  pose proof H as H0. cbn [is_logical_line_loop] in H |- *.
  destruct (get h i) as [n|e] eqn:G; [|discriminate H]. cbn [Py.bind] in H.
  destruct (K i n G) as (n' & G' & C & Sy & Lk & _). rewrite G'. cbn [Py.bind].
  unfold is_EOS, is_Indentation in *. rewrite C, Lk, Sy.
  destruct (match nclass n with EOS => true | _ => false end) eqn:E1; [exact H|].
  destruct (String.eqb (lookup n) "<return>") eqn:E2; [exact H|].
  assert (String.eqb (lookup n) "<ws>" = true
          \/ SymbolClass_eqb (sclass (symbol n)) IndentationTerminal = true ->
          next_term n' = next_term n) as Hnext.
  { intros Hskip. rewrite <- (get_next_of _ _ _ G), <- (get_next_of _ _ _ G').
    apply N; [eapply get_is_valid; eauto|]. intros Hin.
    specialize (D i (S k) Hin H0). cbn [is_logical_line_loop] in D.
    rewrite G in D. cbn [Py.bind] in D. unfold is_EOS, is_Indentation in D.
    rewrite E1, E2 in D.
    destruct (String.eqb (lookup n) "<ws>").
    - destruct (deref (next_term n)); discriminate D.
    - destruct Hskip as [Hskip|Hskip]; [discriminate Hskip|]. rewrite Hskip in D.
      destruct (deref (next_term n)); discriminate D. }
  destruct (String.eqb (lookup n) "<ws>") eqn:E3.
  - rewrite Hnext by auto. destruct (deref (next_term n)) as [j|e]; [|discriminate H].
    cbn [Py.bind] in H |- *. now apply IH.
  - destruct (SymbolClass_eqb (sclass (symbol n)) IndentationTerminal) eqn:E4; [|exact H].
    rewrite Hnext by auto. destruct (deref (next_term n)) as [j|e]; [|discriminate H].
    cbn [Py.bind] in H |- *. now apply IH.
Qed.

(** From the markers before the end sentinel the scan never finds the
    line logical. *)
Lemma is_logical_line_loop_tail : forall tail h p eos ne,
  marker_run h p tail eos -> get h eos = Ok ne -> is_EOS ne = true ->
  forall x k, In x (tail ++ [eos]) -> is_logical_line_loop k h x <> Ok true.
Proof.
  induction tail as [|t rest IH]; intros h p eos ne Hrun Ge Ee x k Hx H.
  - destruct Hx as [<-|[]]. destruct k as [|k]; [discriminate H|].
    cbn [is_logical_line_loop] in H. rewrite Ge in H. cbn [Py.bind] in H.
    rewrite Ee in H. discriminate H.
  - destruct Hx as [<-|Hx].
    + destruct k as [|k]; [discriminate H|]. cbn [is_logical_line_loop] in H.
      destruct (marker_run_tail _ _ _ _ _ Hrun) as ([Hn2 _] & _ & _ & _ & (nm & G & A)).
      rewrite G in H. cbn [Py.bind] in H.
      destruct (is_EOS nm); [discriminate H|].
      destruct (String.eqb (lookup nm) "<return>"); [discriminate H|].
      rewrite A in H. rewrite <- (get_next_of _ _ _ G), Hn2 in H.
      assert (is_logical_line_loop k h (hd eos rest) = Ok true) as H'
        by (destruct (String.eqb (lookup nm) "<ws>"); exact H).
      apply (IH h t eos ne (marker_run_shift _ _ _ _ _ Hrun) Ge Ee (hd eos rest) k);
        [|exact H']. destruct rest; cbn; auto.
    + apply (IH h t eos ne (marker_run_shift _ _ _ _ _ Hrun) Ge Ee x k Hx H).
Qed.

(** The node before these markers is not stepped over by a scan that
    finds the line logical. *)
Lemma is_logical_line_loop_before_tail h p tail eos ne k :
  marker_run h p tail eos -> get h eos = Ok ne -> is_EOS ne = true ->
  is_logical_line_loop k h p = Ok true -> is_logical_line_loop 1 h p = Ok true.
Proof.
  intros Hrun Ge Ee H. destruct k as [|k]; [discriminate H|].
  cbn [is_logical_line_loop] in H |- *.
  destruct (get h p) as [n|e] eqn:G; [|discriminate H]. cbn [Py.bind] in H |- *.
  destruct (is_EOS n); [exact H|].
  destruct (String.eqb (lookup n) "<return>"); [exact H|].
  pose proof (marker_run_head _ _ _ _ Hrun) as [Hn _].
  rewrite (get_next_of _ _ _ G) in Hn. rewrite Hn in H |- *. cbn [deref Py.bind] in H |- *.
  assert (is_logical_line_loop k h (hd eos tail) <> Ok true) as Hno.
  { apply (is_logical_line_loop_tail tail h p eos ne Hrun Ge Ee).
    destruct tail; cbn; auto. }
  destruct (String.eqb (lookup n) "<ws>"); [contradiction|].
  destruct (is_Indentation n); [contradiction|reflexivity].
Qed.

Lemma Forall2_and_r {A B} (P : A -> B -> Prop) (Q : B -> Prop) (l : list A) (k : list B) :
  Forall2 P l k -> (forall b, In b k -> Q b) -> Forall2 (fun a b => P a b /\ Q b) l k.
Proof.
  induction 1 as [|a b l k Hab _ IH]; intros HQ; constructor.
  - split; [exact Hab|]. apply HQ. now left.
  - apply IH. intros b' Hb'. apply HQ. now right.
Qed.

(** Replacing the markers behind a line break: the old ones are
    removed and the new ones inserted one by one directly behind the
    line break, so that the last inserted one comes first. *)
Lemma markers_replaced h nl old stop (new : list Node) k :
  marker_run h nl old stop -> (length old < k)%nat ->
  (forall n, In n new -> exists s, n = indentation_node s) ->
  exists hr h2 ms',
    remove_indentation_loop k h (hd stop old) = Ok (hr, stop)
    /\ insert_all_after hr nl new = Ok h2
    /\ same_kind h h2
    /\ marker_run h2 nl ms' stop
    /\ Forall2 (marker_named h2) ms' (rev (map (fun n => name (symbol n)) new))
    /\ Forall (fun m => (length (nodes h) <= m)%nat
                        /\ exists n, get h2 m = Ok n /\ nclass n = TextNode
                                     /\ lookup n = ""%string) ms'
    /\ (forall x, valid h x -> x <> nl -> next_of h2 x = next_of h x)
    /\ (forall x, valid h x -> x <> stop -> ~ In x old -> prev_of h2 x = prev_of h x).
Proof.
  intros Hrun Hk Hnew.
  destruct (remove_indentation_loop_run old h nl stop k Hrun Hk)
    as (hr & Hrem & Kr & Lr & Hrunr & Nr & Pr).
  destruct (insert_all_after_run new hr nl [] stop Hrunr)
    as (h2 & ms' & Hins & K2 & L2 & Hrun2 & Hkind & Hfresh & N2 & P2).
  { intros n Hn. destruct (Hnew n Hn) as [s ->]. reflexivity. }
  rewrite app_nil_r in Hrun2.
  assert (Forall2 (fun m nd => (exists n, get h2 m = Ok n /\ nclass n = nclass nd
                                          /\ symbol n = symbol nd /\ lookup n = lookup nd)
                               /\ exists s, nd = indentation_node s) ms' (rev new)) as Hk2.
  { apply Forall2_and_r; [exact Hkind|]. intros b Hb. apply Hnew. now apply in_rev. }
  exists hr, h2, ms'. split; [exact Hrem|]. split; [exact Hins|].
  split; [eapply same_kind_trans; eauto|]. split; [exact Hrun2|].
  split.
  { rewrite <- map_rev. apply Forall2_fmap_r. eapply Forall2_impl; [exact Hk2|].
    cbn. intros m nd ((n & G & _ & S & _) & (s' & ->)). exists n. split; [exact G|].
    unfold is_Indentation. rewrite S. split; reflexivity. }
  split.
  { apply List.Forall_forall. intros m Hm. split; [specialize (Hfresh m Hm); lia|].
    assert (exists nd, (exists n, get h2 m = Ok n /\ nclass n = nclass nd
                                  /\ symbol n = symbol nd /\ lookup n = lookup nd)
                       /\ exists s, nd = indentation_node s) as (nd & (n & G & C & _ & L) & (s' & ->)).
    { clear - Hk2 Hm. induction Hk2 as [|a b l k' Hab _ IH]; [destruct Hm|].
      destruct Hm as [<-|Hm]; [eauto|auto]. }
    exists n. split; [exact G|]. split; [rewrite C|rewrite L]; reflexivity. }
  split.
  - intros x V Hx. rewrite N2; [apply Nr; exact Hx| |exact Hx].
    unfold valid in *. lia.
  - intros x V Hx Hnin. rewrite P2; [apply Pr; assumption| |exact Hx].
    unfold valid in *. lia.
Qed.

Lemma markers_named_kept h h' ms names :
  same_kind h h' -> Forall2 (marker_named h) ms names -> Forall2 (marker_named h') ms names.
Proof.
  intros K H. eapply Forall2_impl; [exact H|]. intros m s'. now apply same_kind_marker.
Qed.

(** The end of the repair of the last line: the markers before the end
    sentinel are removed, then [n] DEDENT markers and a NEWLINE marker
    are inserted behind the node the removal stopped at. *)
Lemma tail_rebuilt h p tail e (n : nat) k :
  marker_run h p tail e -> no_marker h p -> (length tail < k)%nat ->
  exists h3 h4 h5,
    clean_tail_loop k h (List.last tail p) = Ok (h3, p)
    /\ same_kind h h3
    /\ (forall x, x <> p -> ~ In x tail -> next_of h3 x = next_of h x)
    /\ (forall x, x <> e -> prev_of h3 x = prev_of h x)
    /\ insert_all_after h3 p (repeat (indentation_node "DEDENT") n) = Ok h4
    /\ insert_after (fst (alloc h4 (indentation_node "NEWLINE"))) p (length (nodes h4))
       = Ok h5
    /\ same_kind h3 h5
    /\ (forall x, valid h x -> x <> p -> next_of h5 x = next_of h3 x)
    /\ (forall x, valid h x -> x <> e -> prev_of h5 x = prev_of h3 x).
Proof.
  intros Hrun Hp Hk.
  destruct (clean_tail_loop_run tail h p e k Hrun Hp Hk)
    as (h3 & Hclean & K3 & L3 & Hrun3 & N3 & P3).
  destruct (insert_all_after_run (repeat (indentation_node "DEDENT") n) h3 p [] e Hrun3)
    as (h4 & ms4 & Hins & K4 & L4 & Hrun4 & _ & Hfresh & N4 & P4).
  { intros x Hx. apply repeat_spec in Hx. subst x. reflexivity. }
  rewrite app_nil_r in Hrun4.
  pose proof (marker_run_head _ _ _ _ Hrun4) as [Hn4 _].
  apply next_of_get in Hn4. destruct Hn4 as (np4 & G4 & Hnext4).
  destruct (insert_new_after h4 p (indentation_node "NEWLINE") np4 G4)
    as (h5 & Hins5 & K5 & L5 & _ & N5 & P5).
  { intros x Hx. rewrite Hnext4 in Hx. inversion Hx; subst x.
    apply (marker_run_valid _ _ _ _ _ Hrun4). right. destruct ms4; cbn; auto. }
  exists h3, h4, h5. split; [exact Hclean|]. split; [exact K3|].
  split; [exact N3|]. split; [exact P3|]. split; [exact Hins|]. split; [exact Hins5|].
  split; [eapply same_kind_trans; eauto|].
  assert (forall x, valid h x -> valid h3 x) as V3 by (intros x V; unfold valid in *; lia).
  assert (forall x, valid h x -> x <> length (nodes h4)) as V4
    by (intros x V; unfold valid in *; lia).
  split.
  - intros x V Hx. rewrite N5. rewrite decide_False by assumption.
    rewrite decide_False by (now apply V4). apply N4; auto.
  - intros x V Hx. rewrite P5. rewrite Hnext4.
    rewrite decide_False.
    + rewrite decide_False by (now apply V4). apply P4; auto.
    + intros Heq. inversion Heq as [Heq']. destruct ms4 as [|m ms4]; cbn [hd] in Heq'.
      * now apply Hx.
      * specialize (Hfresh m (or_introl eq_refl)). unfold valid in V. lia.
Qed.

End MarkerRuns.

Section RepairedMarkers.

Import TreeManager.

Variable fuel : nat.

Lemma repair_indentation_core tm y ly root lexer tm1 new l1 old stop :
  0 <= y -> lines tm !! Z.to_nat y = Some ly ->
  get_root (heap tm) (Line.node ly) = Ok root ->
  get_lexer tm root = Some lexer -> is_indentation_based lexer = true ->
  new_indent_nodes fuel tm y = Ok (tm1, new) ->
  heap tm1 = heap tm -> lines tm1 !! Z.to_nat y = Some l1 -> Line.node l1 = Line.node ly ->
  (forall n, In n new -> exists s, n = indentation_node s) ->
  marker_run (heap tm) (Line.node ly) old stop -> (length old < fuel)%nat ->
  is_logical_line_loop fuel (heap tm) (hd stop old) = Ok true ->
  (y = Z.of_nat (length (lines tm1)) - 1 ->
     exists p tail e k0,
       tail_run (heap tm) root (Line.node ly) old stop p tail e
       /\ (length tail < fuel)%nat
       /\ (exists nnl, get (heap tm) (Line.node ly) = Ok nnl
                       /\ lookup nnl = "<return>"%string)
       /\ is_logical_line_loop k0 (heap tm) stop = Ok true
       /\ (k0 + length new <= fuel)%nat) ->
  exists tm',
    repair_indentation fuel tm y = Ok tm'
    /\ lines tm' = lines tm1
    /\ markers_behind (heap tm') (Line.node ly)
         (rev (map (fun n => name (symbol n)) new)) stop.
Proof.
  intros Hy Hly Hroot Hlexer Hib Hnew Hh1 Hl1 Hnode Hind Hrun Hfuel Hlog Htail.
  set (nl := Line.node ly) in *. set (h := heap tm) in *.
  unfold repair_indentation.
  rewrite (index_nonneg' _ _ _ Hy Hly). cbn [Py.bind]. fold nl h.
  rewrite Hroot. cbn [Py.bind]. rewrite Hlexer. cbn [Py.bind]. rewrite Hib. cbn [negb].
  rewrite Hnew. cbn [Py.bind].
  unfold indentation_nodes_changed.
  rewrite (index_nonneg' _ _ _ Hy Hl1). cbn [Py.bind]. rewrite Hnode, Hh1. fold nl h.
  pose proof (marker_run_head _ _ _ _ Hrun) as [Hn0 _].
  apply next_of_get in Hn0. destruct Hn0 as (nnl & Gnl & Hnext).
  rewrite Gnl. cbn [Py.bind]. rewrite Hnext. cbn [deref Py.bind].
  destruct (previous_nodes_loop_run old h nl stop fuel Hrun Hfuel) as (syms & Hprev & Hsyms).
  rewrite Hprev. cbn [Py.bind].
  set (names := rev (map (fun n : Node => name (symbol n)) new)).
  destruct (is_logical_line_loop_pass old h nl stop fuel Hrun Hlog) as (kp & _ & _ & Hskip).
  (* the end of the repair, from the manager after the first part *)
  assert (forall tm2 ms',
            lines tm2 = lines tm1 -> same_kind h (heap tm2) ->
            marker_run (heap tm2) nl ms' stop ->
            Forall2 (marker_named (heap tm2)) ms' names ->
            length ms' = length new ->
            Forall (fun m => exists n, get (heap tm2) m = Ok n /\ is_EOS n = false
                                       /\ String.eqb (lookup n) "<return>" = false) ms' ->
            Forall (fun m => In m old \/ (length (nodes h) <= m)%nat) ms' ->
            (forall x, valid h x -> x <> nl -> next_of (heap tm2) x = next_of h x) ->
            (forall x, valid h x -> x <> stop -> ~ In x old ->
                       prev_of (heap tm2) x = prev_of h x) ->
            exists tm',
              (if y =? Z.of_nat (length (lines tm2)) - 1
               then
                 let* r := get_root (heap tm2) nl in
                 let* eos0 := children_last (heap tm2) r in
                 let* ne := get (heap tm2) eos0 in
                 let* i0 := deref (prev_term ne) in
                 let* '(h3, i) := clean_tail_loop fuel (heap tm2) i0 in
                 let* y' := last_logical_loop fuel fuel (set_heap tm2 h3) y in
                 let* ly' := Py.index (lines (set_heap tm2 h3)) y' in
                 let* h4 := insert_all_after (heap (set_heap tm2 h3)) i
                              (repeat (indentation_node "DEDENT")
                                 (Z.to_nat (Line.indent ly'))) in
                 let '(h4', j) := alloc h4 (indentation_node "NEWLINE") in
                 let* h5 := insert_after h4' i j in
                 Ok (set_heap (set_heap tm2 h3) h5)
               else Ok tm2) = Ok tm'
              /\ lines tm' = lines tm1
              /\ markers_behind (heap tm') nl names stop) as Hend.
  { intros tm2 ms' Hl2 K2 Hrun2 Hnames Hlen Hskip2 Horigin N2 P2.
    set (h2 := heap tm2) in *.
    destruct (Z.eqb_spec y (Z.of_nat (length (lines tm2)) - 1)) as [Hlast|Hnl].
    2:{ exists tm2. split; [reflexivity|]. split; [exact Hl2|]. exists ms'. auto. }
    rewrite Hl2 in Hlast.
    destruct (Htail Hlast) as (p & tail & e & k0 & Ht & Hft & (nnl' & Gnl' & Hret) & Hk0 & Hslack).
    destruct Ht as (Hce & (ne & Ge & Ee) & Hrt & Hp & Hpnl & Henl & Hes & Hnlt & Hot).
    assert (forall x, In x old -> exists s, marker_named h x s) as Hold
      by (destruct Hrun as (_ & _ & Hm & _); exact Hm).
    assert (forall x, In x tail -> exists s, marker_named h x s) as Htl
      by (destruct Hrt as (_ & _ & Hm & _); exact Hm).
    assert (forall x s, marker_named h x s -> no_marker h x -> False) as Hmn.
    { intros x s' (n1 & G1 & A1 & _) (n2 & G2 & A2). congruence. }
    assert (no_marker h e) as Hne by (destruct Hrt as (_ & _ & _ & Hs); exact Hs).
    assert (no_marker h stop) as Hns by (destruct Hrun as (_ & _ & _ & Hs); exact Hs).
    assert (~ In e old) as Heo by (intros Hin; destruct (Hold e Hin) as [s' Hs']; eauto).
    assert (~ In stop tail) as Hst by (intros Hin; destruct (Htl stop Hin) as [s' Hs']; eauto).
    assert (~ In p old) as Hpo by (intros Hin; destruct (Hold p Hin) as [s' Hs']; eauto).
    assert (forall x, In x (p :: tail ++ [e]) -> valid h x) as Vt
      by (intros x Hx; eapply marker_run_valid; eauto).
    (* the end of the chain after the first part *)
    assert (marker_run h2 p tail e) as Hrt2.
    { apply (marker_run_frame h); [exact Hrt|exact K2| |].
      - intros x Hx. apply N2; [apply Vt; destruct Hx; [now left|right; apply in_or_app; now left]|].
        destruct Hx as [<-|Hx]; [exact Hpnl|]. intros ->. now apply Hnlt.
      - intros x Hx. apply P2; [apply Vt; now right| |].
        + apply in_app_or in Hx. destruct Hx as [Hx|[<-|[]]]; [|exact Hes].
          intros ->. now apply Hst.
        + apply in_app_or in Hx. destruct Hx as [Hx|[<-|[]]]; [|exact Heo].
          intros Hin. now apply (Hot x). }
    assert (get_root h2 nl = Ok root) as Hroot2.
    { unfold get_root in *. destruct K2 as [_ K2].
      destruct (get h nl) as [n0|] eqn:G0; [|discriminate Hroot].
      destruct (K2 nl n0 G0) as (n0' & G0' & _ & _ & _ & Par). rewrite G0'.
      cbn [Py.bind] in *. now rewrite Par. }
    assert (children_last h2 root = Ok e) as Hce2.
    { unfold children_last, get_root_rec in *. destruct K2 as [R2 _]. fold h2 in R2.
      now rewrite R2. }
    assert (exists ne2, get h2 e = Ok ne2 /\ is_EOS ne2 = true
                        /\ prev_term ne2 = Some (List.last tail p)) as (ne2 & Ge2 & Ee2 & Hpe2).
    { destruct K2 as [_ K2]. destruct (K2 e ne Ge) as (ne2 & Ge2 & C & _).
      exists ne2. split; [exact Ge2|]. split; [unfold is_EOS in *; now rewrite C|].
      rewrite <- (get_prev_of _ _ _ Ge2).
      destruct Hrt2 as (Hc2 & _).
      replace (p :: tail ++ [e]) with ((p :: tail) ++ [e]) in Hc2 by reflexivity.
      apply (chain_last_link _ _ _ p) in Hc2; [|discriminate].
      destruct Hc2 as [_ Hc2].
      replace (List.last (p :: tail) p) with (List.last tail p) in Hc2
        by (destruct tail; reflexivity).
      exact Hc2. }
    destruct (tail_rebuilt h2 p tail e (Z.to_nat (Line.indent l1)) fuel Hrt2)
      as (h3 & h4 & h5 & Hclean & K3 & N3 & P3 & Hins4 & Hins5 & K5 & N5 & P5);
      [eapply same_kind_no_marker; eauto|exact Hft|].
    rewrite Hroot2. cbn [Py.bind]. rewrite Hce2. cbn [Py.bind]. rewrite Ge2.
    cbn [Py.bind]. rewrite Hpe2. cbn [deref Py.bind]. fold h2. rewrite Hclean.
    cbn [Py.bind].
    (* the markers behind the line break are still there *)
    assert (forall x, In x ms' -> x <> p /\ ~ In x tail /\ x <> e) as Hms.
    { intros x Hx.
      assert (exists s, marker_named h2 x s) as [s' Hs']
        by (destruct Hrun2 as (_ & _ & Hm & _); now apply Hm).
      pose proof (proj1 (List.Forall_forall _ _) Horigin x Hx) as [Ho|Hf].
      - split; [intros ->; now apply Hpo|]. split; [now apply Hot|]. intros ->. now apply Heo.
      - split; [|split].
        + intros ->. specialize (Vt p (or_introl eq_refl)). unfold valid in Vt. lia.
        + intros Hin. specialize (Vt x). unfold valid in Vt.
          assert (x < length (nodes h))%nat
            by (apply Vt; right; apply in_or_app; now left). lia.
        + intros ->. specialize (Vt e). unfold valid in Vt.
          assert (e < length (nodes h))%nat
            by (apply Vt; right; apply in_or_app; right; now left). lia. }
    assert (marker_run h3 nl ms' stop) as Hrun3.
    { apply (marker_run_frame h2); [exact Hrun2|exact K3| |].
      - intros x [<-|Hx]; apply N3; auto; apply (Hms x Hx).
      - intros x Hx. apply P3. apply in_app_or in Hx.
        destruct Hx as [Hx|[<-|[]]]; [apply (Hms x Hx)|auto]. }
    (* the line is still logical *)
    assert (is_logical_line fuel (set_heap tm2 h3) y = Ok true) as Hlog3.
    { unfold is_logical_line. cbn [lines heap set_heap]. rewrite Hl2.
      rewrite (index_nonneg' _ _ _ Hy Hl1). cbn [Py.bind]. rewrite Hnode. fold nl.
      pose proof (marker_run_head _ _ _ _ Hrun3) as [Hn3 _].
      apply next_of_get in Hn3. destruct Hn3 as (n3 & G3 & Hnext3).
      rewrite G3. cbn [Py.bind]. rewrite Hnext3. cbn [deref Py.bind].
      apply (is_logical_line_loop_mono h3 (k0 + length ms')); [|lia].
      apply (is_logical_line_loop_through ms' h3 nl stop k0 Hrun3).
      - eapply Forall_impl; [exact Hskip2|]. cbn. intros m (n & G & A & B).
        destruct K3 as [_ K3]. destruct (K3 m n G) as (n' & G' & C & _ & L & _).
        exists n'. split; [exact G'|]. unfold is_EOS in *. now rewrite C, L.
      - apply (is_logical_line_loop_agree h h3 (nl :: p :: tail)).
        + eapply same_kind_trans; eauto.
        + intros x V Hx. rewrite N3.
          * apply N2; [exact V|]. intros ->. apply Hx. now left.
          * intros ->. apply Hx. right. now left.
          * intros Hin. apply Hx. right. now right.
        + intros d k [<-|[<-|Hd]] Hw.
          * exfalso. destruct k as [|k]; [discriminate Hw|].
            cbn [is_logical_line_loop] in Hw. rewrite Gnl' in Hw. cbn [Py.bind] in Hw.
            rewrite Hret in Hw. cbn in Hw. destruct (is_EOS nnl'); discriminate Hw.
          * eapply is_logical_line_loop_before_tail; eauto.
          * exfalso. apply (is_logical_line_loop_tail tail h p e ne Hrt Ge Ee d k); auto.
            apply in_or_app. now left.
        + exact Hk0. }
    assert (exists f, fuel = S f) as [f Hf] by (destruct fuel; [lia|eauto]).
    assert (last_logical_loop fuel fuel (set_heap tm2 h3) y = Ok y) as Hll.
    { rewrite Hf at 2. cbn [last_logical_loop]. rewrite Hlog3. reflexivity. }
    rewrite Hll. cbn [Py.bind lines heap set_heap]. rewrite Hl2.
    rewrite (index_nonneg' _ _ _ Hy Hl1). cbn [Py.bind]. rewrite Hins4. cbn [Py.bind].
    assert (alloc h4 (indentation_node "NEWLINE")
            = (fst (alloc h4 (indentation_node "NEWLINE")), length (nodes h4))) as Ha
      by reflexivity.
    rewrite Ha, Hins5. cbn [Py.bind].
    eexists. split; [reflexivity|]. cbn [lines heap set_heap]. split; [exact Hl2|].
    exists ms'. split.
    - apply (marker_run_frame h3); [exact Hrun3|exact K5| |].
      + intros x Hx. apply N5.
        * apply (marker_run_valid _ _ _ _ _ Hrun2). destruct Hx; [now left|].
          right. apply in_or_app. now left.
        * destruct Hx as [<-|Hx]; [auto|apply (Hms x Hx)].
      + intros x Hx. apply P5.
        * apply (marker_run_valid _ _ _ _ _ Hrun2). now right.
        * apply in_app_or in Hx. destruct Hx as [Hx|[<-|[]]]; [apply (Hms x Hx)|auto].
    - eapply markers_named_kept; [|exact Hnames]. eapply same_kind_trans; eauto. }
  assert (length old = length syms) as Hlo by (eapply Forall2_length; eauto).
  assert (forall b,
            b = false ->
            exists tm',
              (let* as_before := Ok b in
               let* tm2 :=
                 (if negb as_before
                  then
                    let* '(tm'0, _) := remove_indentation_nodes fuel tm1 (Some (hd stop old)) in
                    let* h' := insert_all_after (heap tm'0) nl new in
                    Ok (set_heap tm'0 h')
                  else Ok tm1) in
               if y =? Z.of_nat (length (lines tm2)) - 1
               then
                 let* r := get_root (heap tm2) nl in
                 let* eos0 := children_last (heap tm2) r in
                 let* ne := get (heap tm2) eos0 in
                 let* i0 := deref (prev_term ne) in
                 let* '(h3, i) := clean_tail_loop fuel (heap tm2) i0 in
                 let* y' := last_logical_loop fuel fuel (set_heap tm2 h3) y in
                 let* ly' := Py.index (lines (set_heap tm2 h3)) y' in
                 let* h4 := insert_all_after (heap (set_heap tm2 h3)) i
                              (repeat (indentation_node "DEDENT")
                                 (Z.to_nat (Line.indent ly'))) in
                 let '(h4', j) := alloc h4 (indentation_node "NEWLINE") in
                 let* h5 := insert_after h4' i j in
                 Ok (set_heap (set_heap tm2 h3) h5)
               else Ok tm2) = Ok tm'
              /\ lines tm' = lines tm1
              /\ markers_behind (heap tm') nl names stop) as Hreplaced.
  { intros b ->. cbn [Py.bind negb]. unfold remove_indentation_nodes. rewrite Hh1. fold h.
    destruct (markers_replaced h nl old stop new fuel Hrun Hfuel Hind)
      as (hr & h2 & ms' & Hrem & Hins & K2 & Hrun2 & Hnames & Hfresh & N2 & P2).
    rewrite Hrem. cbn [Py.bind heap set_heap]. rewrite Hins. cbn [Py.bind].
    apply (Hend (set_heap (set_heap tm1 hr) h2) ms'); auto.
    - apply Forall2_length in Hnames. unfold names in Hnames.
      now rewrite length_rev, length_map in Hnames.
    - eapply Forall_impl; [exact Hfresh|]. cbn. intros m (_ & n & G & C & L).
      exists n. split; [exact G|]. unfold is_EOS. rewrite C, L. auto.
    - eapply Forall_impl; [exact Hfresh|]. cbn. intros m (Hm & _). now right. }
  destruct (negb (Nat.eqb (length (rev syms)) (length new))) eqn:Elen;
    [apply Hreplaced; reflexivity|].
  destruct (symbols_differ (map symbol new) (rev syms)) eqn:Edif;
    [apply Hreplaced; reflexivity|].
  cbn [Py.bind negb].
  apply negb_false_iff, Nat.eqb_eq in Elen.
  apply (Hend tm1 old); auto.
  - rewrite Hh1. apply same_kind_refl.
  - rewrite Hh1. exact Hrun.
  - rewrite Hh1. eapply markers_as_computed; eauto.
  - rewrite length_rev in Elen. congruence.
  - rewrite Hh1. exact Hskip.
  - apply List.Forall_forall. intros m Hm. now left.
  - intros x _ _. now rewrite Hh1.
  - intros x _ _ _. now rewrite Hh1.
Qed.

Lemma rev_names_dedent (n : nat) :
  rev (map (fun x : Node => name (symbol x))
         (repeat (indentation_node "DEDENT") n ++ [indentation_node "NEWLINE"]))
  = "NEWLINE"%string :: repeat "DEDENT"%string n.
Proof.
  rewrite map_app, rev_app_distr. cbn [map rev app]. f_equal.
  induction n as [|n IH]; [reflexivity|].
  cbn [repeat map rev]. rewrite IH. clear IH.
  induction n as [|n IH]; [reflexivity|]. cbn [repeat app]. now rewrite IH.
Qed.

Lemma length_lines_set_line tm y l :
  length (lines (set_line tm y l)) = length (lines tm).
Proof.
  unfold set_line, Py.set_index. cbn [lines set_lines].
  destruct (_ <? 0); [reflexivity|]. apply length_insert.
Qed.

(** C3, as amended.  Let [y > 0] be a logical line of a root with an
    indentation-based lexer, with [w] leading blanks, and [dy] the
    nearest logical line of the same root before it, with [pw] leading
    blanks.  Let the chain behind the line break of [y] be well
    formed: it reads markers, each once, and then a node [stop] that
    is no marker (and, for the last line, let the end of the chain be
    so too).  Then [repair_indentation(y)] returns and in the manager
    it returns the computed markers stand directly behind the line
    break of [y], in front of [stop], the marker computed last first:
    for [pw = w] the marker NEWLINE, with the indent level of [dy];
    for [pw < w] the markers NEWLINE, INDENT (computed as INDENT,
    NEWLINE), with that level plus one; for [pw > w] the earlier lines
    are scanned backwards past every line that is not logical or has
    more than [w] leading blanks: when the scan stops at a line with
    exactly [w] blanks, its level [v] becomes the level of [y] and the
    markers are NEWLINE and then DEDENT, (level of [dy]) - [v] times;
    when it stops at a line with fewer blanks, or finds no line, the
    single marker UNBALANCED stands there and the level of [y] is left
    alone, also when a line with [w] blanks exists further back. *)
Theorem repair_markers tm y dy w pw ly ldy root lexer old stop :
  0 <= dy < y -> y - dy <= Z.of_nat fuel ->
  lines tm !! Z.to_nat y = Some ly -> lines tm !! Z.to_nat dy = Some ldy ->
  get_root (heap tm) (Line.node ly) = Ok root ->
  get_root (heap tm) (Line.node ldy) = Ok root ->
  get_lexer tm root = Some lexer -> is_indentation_based lexer = true ->
  get_indentation fuel tm y = Ok (Some w) ->
  get_indentation fuel tm dy = Ok (Some pw) ->
  none_between fuel tm root dy y ->
  marker_run (heap tm) (Line.node ly) old stop -> (length old < fuel)%nat ->
  let at_level v :=
    set_line (set_line tm y (Line.with_ws ly w)) y
      (Line.with_indent (Line.with_ws ly w) v) in
  let last_line_well_formed (markers : nat) :=
    y = Z.of_nat (length (lines tm)) - 1 ->
    exists p tail e k0,
      tail_run (heap tm) root (Line.node ly) old stop p tail e
      /\ (length tail < fuel)%nat
      /\ (exists nnl, get (heap tm) (Line.node ly) = Ok nnl
                      /\ lookup nnl = "<return>"%string)
      /\ is_logical_line_loop k0 (heap tm) stop = Ok true
      /\ (k0 + markers <= fuel)%nat in
  let repaired (ls : list Line.t) (names : list string) :=
    exists tm',
      repair_indentation fuel tm y = Ok tm'
      /\ lines tm' = ls
      /\ markers_behind (heap tm') (Line.node ly) names stop in
  (pw = w -> last_line_well_formed 1%nat ->
     repaired (lines (at_level (Line.indent ldy))) ["NEWLINE"%string])
  /\ (pw < w -> last_line_well_formed 2%nat ->
        repaired (lines (at_level (Line.indent ldy + 1)))
          ["NEWLINE"%string; "INDENT"%string])
  /\ (w < pw ->
        (forall j lj,
            0 <= j < y -> lines tm !! Z.to_nat j = Some lj ->
            get_indentation fuel tm j = Ok (Some w) ->
            (forall i, j < i < y -> passed fuel tm w i) ->
            last_line_well_formed (S (Z.to_nat (Line.indent ldy - Line.indent lj))) ->
            repaired (lines (at_level (Line.indent lj)))
              ("NEWLINE"%string
               :: repeat "DEDENT"%string (Z.to_nat (Line.indent ldy - Line.indent lj))))
        /\ ((forall i, 0 <= i < y -> passed fuel tm w i)
             \/ (exists j v, 0 <= j < y /\ get_indentation fuel tm j = Ok (Some v)
                              /\ v < w /\ forall i, j < i < y -> passed fuel tm w i) ->
            last_line_well_formed 1%nat ->
            repaired (lines (set_line tm y (Line.with_ws ly w))) ["UNBALANCED"%string])).
Proof.
  intros Hdy Hfuel Hly Hldy Hry Hrdy Hlexer Hib Hw Hpw Hbetween Hrun Hfo
         at_level last_line_well_formed repaired.
  assert (0 <= y) as Hy by lia.
  destruct (new_indent_nodes_cases fuel tm y dy w pw ly ldy root
              Hdy Hfuel Hly Hldy Hry Hrdy Hw Hpw Hbetween) as (Heq & Hgt & Hlt).
  (* the scan that found the line logical *)
  assert (is_logical_line_loop fuel (heap tm) (hd stop old) = Ok true) as Hlog.
  { pose proof (get_indentation_logical fuel tm y w Hw) as H.
    unfold is_logical_line in H. rewrite (index_nonneg' _ _ _ Hy Hly) in H.
    cbn [Py.bind] in H.
    pose proof (marker_run_head _ _ _ _ Hrun) as [Hn0 _].
    apply next_of_get in Hn0. destruct Hn0 as (nnl & Gnl & Hnext).
    rewrite Gnl in H. cbn [Py.bind] in H. rewrite Hnext in H. exact H. }
  assert (lines (set_line tm y (Line.with_ws ly w)) !! Z.to_nat y
          = Some (Line.with_ws ly w)) as Hws.
  { rewrite lines_set_line by assumption.
    apply list_lookup_insert_eq. eapply lookup_lt_Some; eauto. }
  assert (forall v, lines (at_level v) !! Z.to_nat y
                    = Some (Line.with_indent (Line.with_ws ly w) v)) as Hat.
  { intros v. unfold at_level. rewrite lines_set_line by assumption.
    apply list_lookup_insert_eq. rewrite lines_set_line by assumption.
    rewrite length_insert. eapply lookup_lt_Some; eauto. }
  assert (forall tm1 new l1 m,
            new_indent_nodes fuel tm y = Ok (tm1, new) ->
            heap tm1 = heap tm -> length (lines tm1) = length (lines tm) ->
            lines tm1 !! Z.to_nat y = Some l1 -> Line.node l1 = Line.node ly ->
            (forall n, In n new -> exists s, n = indentation_node s) ->
            length new = m ->
            last_line_well_formed m ->
            repaired (lines tm1) (rev (map (fun n => name (symbol n)) new))) as Hcore.
  { intros tm1 new l1 m Hnew Hh1 Hlen Hl1 Hnode Hind Hm Hlast.
    apply (repair_indentation_core tm y ly root lexer tm1 new l1 old stop); auto.
    rewrite Hlen, Hm. exact Hlast. }
  assert (forall v, heap (at_level v) = heap tm) as Hhat
    by (intros v; unfold at_level; now rewrite !heap_set_line).
  assert (forall v, length (lines (at_level v)) = length (lines tm)) as Hlat
    by (intros v; unfold at_level; now rewrite !length_lines_set_line).
  split; [|split].
  - intros Hc Hlast. specialize (Heq Hc).
    apply (Hcore _ _ (Line.with_indent (Line.with_ws ly w) (Line.indent ldy)) 1%nat Heq);
      [apply Hhat|apply Hlat|apply Hat|reflexivity| |reflexivity|exact Hlast].
    intros n [<-|[]]. eauto.
  - intros Hc Hlast. specialize (Hgt Hc).
    apply (Hcore _ _ (Line.with_indent (Line.with_ws ly w) (Line.indent ldy + 1)) 2%nat Hgt);
      [apply Hhat|apply Hlat|apply Hat|reflexivity| |reflexivity|exact Hlast].
    intros n [<-|[<-|[]]]; eauto.
  - intros Hc. destruct (Hlt Hc) as [Hfound Hnone]. split.
    + intros j lj Hj Hlj Hwj Hpass Hlast.
      specialize (Hfound j lj Hj Hlj Hwj Hpass).
      rewrite <- rev_names_dedent.
      apply (Hcore _ _ (Line.with_indent (Line.with_ws ly w) (Line.indent lj))
               (S (Z.to_nat (Line.indent ldy - Line.indent lj))) Hfound);
        [apply Hhat|apply Hlat|apply Hat|reflexivity| | |exact Hlast].
      * intros n Hn. apply in_app_or in Hn. destruct Hn as [Hn|[<-|[]]]; [|eauto].
        apply repeat_spec in Hn. subst n. eauto.
      * rewrite length_app, repeat_length. cbn [length]. lia.
    + intros Hcase Hlast. specialize (Hnone Hcase).
      apply (Hcore _ _ (Line.with_ws ly w) 1%nat Hnone);
        [apply heap_set_line|apply length_lines_set_line|exact Hws|reflexivity|
         |reflexivity|exact Hlast].
      intros n [<-|[]]. eauto.
Qed.

End RepairedMarkers.

(** Chains of a concrete store are checked link by link. *)
Ltac run_solve :=
  split; [cbn [chain app]; unfold linked; repeat split; vm_compute; reflexivity|];
  split; [repeat constructor; cbn; intuition discriminate|];
  split; [intros m Hm; cbn in Hm;
          repeat (destruct Hm as [Hm|Hm]; [subst m; eexists; eexists; split; [vm_compute; reflexivity|split; reflexivity]|]);
          destruct Hm
         |eexists; split; [vm_compute; reflexivity|vm_compute; intuition discriminate]].

Lemma repair_markers_witness :
  (exists tm',
      TreeManager.repair_indentation Demo.fuel Demo.doc_dedent 2 = Ok tm'
      /\ (Line.indent <$> TreeManager.lines tm' !! 2%nat) = Some 0
      /\ markers_behind (TreeManager.heap tm') 6%nat ["NEWLINE"%string; "DEDENT"%string] 7%nat)
  /\ (exists tm',
      TreeManager.repair_indentation Demo.fuel Demo.doc_dedent 4 = Ok tm'
      /\ (Line.indent <$> TreeManager.lines tm' !! 4%nat) = Some 0
      /\ markers_behind (TreeManager.heap tm') 11%nat ["UNBALANCED"%string] 12%nat).
Proof.
  split.
  - destruct (repair_markers Demo.fuel Demo.doc_dedent 2 1 0 2
                {| Line.node := 6%nat; Line.height := 1; Line.width := 0;
                   Line.indent := 0; Line.ws := 0 |}
                {| Line.node := 3%nat; Line.height := 1; Line.width := 0;
                   Line.indent := 1; Line.ws := 2 |} 0%nat Demo.python
                [17%nat; 16%nat] 7%nat)
      as (_ & _ & Hdedent).
    + lia.
    + vm_compute. discriminate.
    + vm_compute; reflexivity.
    + vm_compute; reflexivity.
    + vm_compute; reflexivity.
    + vm_compute; reflexivity.
    + vm_compute; reflexivity.
    + vm_compute; reflexivity.
    + vm_compute; reflexivity.
    + vm_compute; reflexivity.
    + intros j Hj. lia.
    + run_solve.
    + vm_compute. lia.
    + destruct (Hdedent ltac:(lia)) as [Hfound _].
      destruct (Hfound 0 {| Line.node := 0%nat; Line.height := 1; Line.width := 0;
                            Line.indent := 0; Line.ws := 0 |})
        as (tm' & Hrun & Hlines & Hbehind).
      * lia.
      * vm_compute; reflexivity.
      * vm_compute; reflexivity.
      * intros i Hi. assert (i = 1) as -> by lia. right. exists 2.
        split; [vm_compute; reflexivity|lia].
      * intros Hlast. vm_compute in Hlast. discriminate.
      * exists tm'. split; [exact Hrun|]. split; [|exact Hbehind].
        rewrite Hlines. vm_compute; reflexivity.
  - destruct (repair_markers Demo.fuel Demo.doc_dedent 4 3 2 4
                {| Line.node := 11%nat; Line.height := 1; Line.width := 0;
                   Line.indent := 0; Line.ws := 2 |}
                {| Line.node := 8%nat; Line.height := 1; Line.width := 0;
                   Line.indent := 1; Line.ws := 4 |} 0%nat Demo.python
                [20%nat] 12%nat)
      as (_ & _ & Hdedent).
    + lia.
    + vm_compute. discriminate.
    + vm_compute; reflexivity.
    + vm_compute; reflexivity.
    + vm_compute; reflexivity.
    + vm_compute; reflexivity.
    + vm_compute; reflexivity.
    + vm_compute; reflexivity.
    + vm_compute; reflexivity.
    + vm_compute; reflexivity.
    + intros j Hj. lia.
    + run_solve.
    + vm_compute. lia.
    + destruct (Hdedent ltac:(lia)) as [_ Hnone].
      destruct Hnone as (tm' & Hrun & Hlines & Hbehind).
      * right. exists 2, 0. split; [lia|]. split; [vm_compute; reflexivity|].
        split; [lia|]. intros i Hi. assert (i = 3) as -> by lia. right. exists 4.
        split; [vm_compute; reflexivity|lia].
      * intros _. exists 13%nat, [21%nat], 1%nat, 2%nat.
        split.
        { split; [vm_compute; reflexivity|].
          split; [eexists; split; vm_compute; reflexivity|].
          split; [run_solve|].
          split; [eexists; split; [vm_compute; reflexivity|vm_compute; intuition discriminate]|].
          repeat split; try discriminate; cbn; intuition congruence. }
        split; [vm_compute; lia|].
        split; [eexists; split; vm_compute; reflexivity|].
        split; [vm_compute; reflexivity|]. vm_compute. lia.
      * exists tm'. split; [exact Hrun|]. split; [|exact Hbehind].
        rewrite Hlines. vm_compute; reflexivity.
Defined.

(** C3 fails as stated: in [Demo.doc_dedent] line 4 has two leading
    blanks, fewer than the four of line 3 before it, and line 1 is an
    earlier line with two leading blanks, at indent level 1; yet
    [repair_indentation(4)] leaves line 4 at level 0, not at the level
    of line 1, and behind its line break stands the single marker
    UNBALANCED, no NEWLINE and no DEDENT. *)
Lemma dedent_past_smaller_line_unbalanced :
  TreeManager.get_indentation Demo.fuel Demo.doc_dedent 4 = Ok (Some 2)
  /\ TreeManager.get_indentation Demo.fuel Demo.doc_dedent 3 = Ok (Some 4)
  /\ TreeManager.get_indentation Demo.fuel Demo.doc_dedent 1 = Ok (Some 2)
  /\ (Line.indent <$> TreeManager.lines Demo.doc_dedent !! 1%nat) = Some 1
  /\ (Line.node <$> TreeManager.lines Demo.doc_dedent !! 4%nat) = Some 11%nat
  /\ exists tm',
      TreeManager.repair_indentation Demo.fuel Demo.doc_dedent 4 = Ok tm'
      /\ (Line.indent <$> TreeManager.lines tm' !! 4%nat) = Some 0
      /\ markers_behind (TreeManager.heap tm') 11%nat ["UNBALANCED"%string] 12%nat
      /\ ~ markers_behind (TreeManager.heap tm') 11%nat ["NEWLINE"%string; "DEDENT"%string] 12%nat.
Proof.
  split; [vm_compute; reflexivity|]. split; [vm_compute; reflexivity|].
  split; [vm_compute; reflexivity|]. split; [vm_compute; reflexivity|].
  split; [vm_compute; reflexivity|].
  eexists. split; [vm_compute; reflexivity|].
  split; [vm_compute; reflexivity|].
  split.
  - exists [20%nat]. split.
    + split; [cbn [chain app]; unfold linked; repeat split; vm_compute; reflexivity|].
      split; [repeat constructor; cbn; intuition discriminate|].
      split.
      * intros m [<-|[]]. eexists; eexists.
        split; [vm_compute; reflexivity|split; reflexivity].
      * eexists. split; [vm_compute; reflexivity|reflexivity].
    + constructor; [|constructor]. eexists.
      split; [vm_compute; reflexivity|split; reflexivity].
  - intros (ms & (Hc & _) & Hn).
    destruct ms as [|m ms]; [inversion Hn|].
    apply Forall2_cons_1 in Hn. destruct Hn as [(n & Hg & _ & Hname) _].
    cbn [chain app] in Hc. destruct Hc as [[Hnext _] _].
    vm_compute in Hnext. injection Hnext as <-.
    vm_compute in Hg. injection Hg as <-. discriminate Hname.
Qed.
